(** * fut-duel-backend: the matchmaking and game-session core of index.js

    A shallow embedding of the socket.io server of [src/index.js]: the
    waiting queue, the games store with its four helper maps, the round
    resolution and the termination of a game, and one handler per socket
    event.  Every handler is a function from the server state to the new
    state and the list of notifications it emits, in emission order.

    Modelling conventions.
    - A JS [Map] is a finite map [gmap].  A plain JS object used as a
      dictionary ([game.moves], [game.scores], the payload objects
      [scores], [rpChange], [moves]) is the [gmap] of its own properties,
      read and written as JS reads and writes a plain object: a read
      [obj[k]] of a key that is not an own property finds the properties
      of [Object.prototype] ([moves_get]), and an assignment [obj[k] = v]
      of a number to the key [__proto__] is ignored unless the key is an
      own property ([js_set]).  A computed key of an object literal always
      defines an own property.
    - A game object is shared by reference between the [games] map, the
      handlers and the timer closure.  The [games] map is the store and a
      game identifier is the reference: every mutation of a game is written
      back under its identifier.  Nothing ever deletes from [games].
    - [uuidv4()] is a supply of fresh identifiers: a counter.
    - Wire fields that the code only tests for truthiness are strings, the
      empty string standing for every falsy value; a nullable string inside
      the server is an [option string].
    - [statValue] is a JS number that arrived through JSON, hence a finite
      rational: [===] and [>] are the comparisons of [Q], and [undefined]
      compares as JS has it ([js_eq], [js_gt]).  [cardId] is an integer.
    - The grace timer is the field [disconnectTimer] of the game: the handle
      remembers the slot index its closure captured and whether the callback
      is still pending.  Elapsing of the grace period is the event
      [TimerFire]. *)

From Stdlib Require Import QArith.
From stdpp Require Import gmap strings list fin_maps.

Local Open Scope string_scope.
Local Open Scope list_scope.

(** ** JS truthiness *)

Definition truthy (s : string) : bool := negb (String.eqb s "").

Definition truthy_opt (o : option string) : bool :=
  match o with
  | Some s => truthy s
  | None => false
  end.

(** [a || null] on a nullable string. *)
Definition or_null (o : option string) : option string :=
  if truthy_opt o then o else None.

(** [a || ''] on a nullable string. *)
Definition or_empty (o : option string) : string :=
  match o with
  | Some s => s
  | None => ""
  end.

(** [a !== b] between a string and a nullable string. *)
Definition neq_opt (a : string) (o : option string) : bool :=
  match o with
  | Some b => negb (String.eqb a b)
  | None => true
  end.

(** [a > b] on numbers. *)
Definition Qgtb (a b : Q) : bool := negb (Qle_bool a b).

(** ** Plain objects used as dictionaries *)

(** The own property names of [Object.prototype]: a plain object [{}]
    inherits every one of them, each with a truthy value (a function, or
    the prototype itself for [__proto__]). *)
Definition Object_prototype_keys : list string :=
  [ "constructor"; "__defineGetter__"; "__defineSetter__"; "hasOwnProperty";
    "__lookupGetter__"; "__lookupSetter__"; "isPrototypeOf";
    "propertyIsEnumerable"; "toString"; "valueOf"; "__proto__";
    "toLocaleString" ].

Definition inherited (k : string) : bool :=
  existsb (String.eqb k) Object_prototype_keys.

(** [obj[k] = v] for a number [v]: an own property is updated, a new key
    is defined, and for the key [__proto__] that is not an own property the
    inherited setter runs, which ignores a number. *)
Definition js_set {A : Type} (k : string) (v : A) (m : gmap string A)
    : gmap string A :=
  match m !! k with
  | Some _ => <[k := v]> m
  | None => if String.eqb k "__proto__" then m else <[k := v]> m
  end.

(** [===] and [>] between two values that are a number or [undefined]. *)
Definition js_eq (a b : option Q) : bool :=
  match a, b with
  | Some x, Some y => Qeq_bool x y
  | None, None => true
  | _, _ => false
  end.

Definition js_gt (a b : option Q) : bool :=
  match a, b with
  | Some x, Some y => Qgtb x y
  | _, _ => false
  end.

(** ** Configuration *)

Definition DISCONNECT_GRACE_MS : Z := 30000.
Definition MAX_ROUNDS : nat := 5.

Definition RP_WIN : Z := 20.
Definition RP_LOSS : Z := -15.
Definition RP_FORFEIT_LOSS : Z := -25.
Definition RP_OPP_DISCONNECT_WIN : Z := 25.

(** ** State shapes *)

Record QueueEntry := mkQueueEntry {
  q_socketId : string;
  q_odId : string;
  q_username : string
}.

Record RoundInfo := mkRoundInfo {
  round : nat;
  stat : string;
  isGKRound : bool
}.

Record Player := mkPlayer {
  odId : string;
  username : string;
  socketId : string;
  accepted : bool;
  score : nat;
  rp : Z;
  connected : bool
}.

Record Move := mkMove {
  mv_odId : string;
  cardId : Z;
  statValue : Q;
  cardData : option string
}.

(** What a read [game.moves[k]] finds when it is not [undefined]: a move
    stored under [k], or the value [{}] inherits for [k], which is truthy
    and has neither a [statValue] nor a [cardId]. *)
Inductive MoveSlot :=
| OwnMove (mv : Move)
| InheritedValue.

Definition slot_statValue (m : MoveSlot) : option Q :=
  match m with
  | OwnMove mv => Some (statValue mv)
  | InheritedValue => None
  end.

(** [typeof mv.cardId === 'number'], with the number. *)
Definition slot_cardId (m : MoveSlot) : option Z :=
  match m with
  | OwnMove mv => Some (cardId mv)
  | InheritedValue => None
  end.

(** [game.moves[k]]; [None] is [undefined]. *)
Definition moves_get (mvs : gmap string Move) (k : string) : option MoveSlot :=
  match mvs !! k with
  | Some mv => Some (OwnMove mv)
  | None => if inherited k then Some InheritedValue else None
  end.

(** The handle stored in [game.disconnectTimer]: [timer_idx] is the [idx]
    captured by the closure, [timer_pending] tells whether the callback has
    yet to run. *)
Record Timer := mkTimer {
  timer_idx : nat;
  timer_pending : bool
}.

(** [players] is the two-element array of the game: [player0] is
    [players[0]] and [player1] is [players[1]]. *)
Record Game := mkGame {
  id : nat;
  player0 : Player;
  player1 : Player;
  scores : gmap string nat;
  usedCards : list Z;
  currentRound : RoundInfo;
  roundNumber : nat;
  maxRounds : nat;
  moves : gmap string Move;
  isStarted : bool;
  isFinished : bool;
  disconnectTimer : option Timer;
  disconnectedPlayerOdId : option string
}.

(** The process-wide state.  [sockets] is [io.sockets.sockets], the set of
    connections that are live. *)
Record State := mkState {
  queue : list QueueEntry;
  games : gmap nat Game;
  socketToUser : gmap string string;
  userToSocket : gmap string string;
  socketToGameId : gmap string nat;
  userToGameId : gmap string nat;
  sockets : gset string;
  nextGameId : nat
}.

Definition initial : State :=
  mkState [] ∅ ∅ ∅ ∅ ∅ ∅ 0.

(** ** Notifications *)

Record RoundCompletedPayload := mkRoundCompleted {
  rc_round : nat;
  rc_stat : string;
  rc_isGKRound : bool;
  rc_moves : gmap string MoveSlot;
  rc_roundWinner : option string;
  rc_damage : nat;
  rc_scores : gmap string nat;
  rc_isGameOver : bool;
  rc_finalWinner : option string;
  rc_nextRound : option RoundInfo
}.

Record GameEndedPayload := mkGameEnded {
  ge_gameId : nat;
  ge_reason : string;
  ge_winner : string;
  ge_loser : string;
  ge_scores : gmap string nat;
  ge_rpChange : gmap string Z;
  ge_disconnectedPlayer : option (string * string)
}.

Inductive Notification :=
| GameError (message code : string) (gameId : option nat)
| MoveError (message code : string)
| QueueJoined (position queueSize : nat)
| QueueLeft
| MatchFound (gameId : nat) (opponentId opponentUsername : string) (isHost : bool)
| GameStarted (gameId : nat) (players : list (string * string)) (currentRound : RoundInfo)
| GameState (gameId : nat) (currentRound : RoundInfo)
            (scores : gmap string nat) (usedCards : list Z)
| GameJoined (gameId : nat) (odId : string) (playerIndex : nat)
| MoveReceived (cardId : Z)
| OpponentMoved
| OpponentDisconnected (username : string)
| RoundCompleted (payload : RoundCompletedPayload)
| GameEnded (payload : GameEndedPayload).

(** An emission: the socket it is addressed to and the notification. *)
Definition Emit : Type := string * Notification.

(** ** Field updates *)

Definition set_queue (q : list QueueEntry) (s : State) : State :=
  mkState q (games s) (socketToUser s) (userToSocket s)
          (socketToGameId s) (userToGameId s) (sockets s) (nextGameId s).

Definition set_games (m : gmap nat Game) (s : State) : State :=
  mkState (queue s) m (socketToUser s) (userToSocket s)
          (socketToGameId s) (userToGameId s) (sockets s) (nextGameId s).

Definition set_socketToUser (m : gmap string string) (s : State) : State :=
  mkState (queue s) (games s) m (userToSocket s)
          (socketToGameId s) (userToGameId s) (sockets s) (nextGameId s).

Definition set_userToSocket (m : gmap string string) (s : State) : State :=
  mkState (queue s) (games s) (socketToUser s) m
          (socketToGameId s) (userToGameId s) (sockets s) (nextGameId s).

Definition set_socketToGameId (m : gmap string nat) (s : State) : State :=
  mkState (queue s) (games s) (socketToUser s) (userToSocket s)
          m (userToGameId s) (sockets s) (nextGameId s).

Definition set_userToGameId (m : gmap string nat) (s : State) : State :=
  mkState (queue s) (games s) (socketToUser s) (userToSocket s)
          (socketToGameId s) m (sockets s) (nextGameId s).

Definition set_sockets (l : gset string) (s : State) : State :=
  mkState (queue s) (games s) (socketToUser s) (userToSocket s)
          (socketToGameId s) (userToGameId s) l (nextGameId s).

Definition set_nextGameId (n : nat) (s : State) : State :=
  mkState (queue s) (games s) (socketToUser s) (userToSocket s)
          (socketToGameId s) (userToGameId s) (sockets s) n.

(** Writing a game object back into the store. *)
Definition put_game (gid : nat) (g : Game) (s : State) : State :=
  set_games (<[gid := g]> (games s)) s.

Definition set_username (u : string) (p : Player) : Player :=
  mkPlayer (odId p) u (socketId p) (accepted p) (score p) (rp p) (connected p).

Definition set_socketId (sid : string) (p : Player) : Player :=
  mkPlayer (odId p) (username p) sid (accepted p) (score p) (rp p) (connected p).

Definition set_accepted (b : bool) (p : Player) : Player :=
  mkPlayer (odId p) (username p) (socketId p) b (score p) (rp p) (connected p).

Definition set_score (n : nat) (p : Player) : Player :=
  mkPlayer (odId p) (username p) (socketId p) (accepted p) n (rp p) (connected p).

Definition set_connected (b : bool) (p : Player) : Player :=
  mkPlayer (odId p) (username p) (socketId p) (accepted p) (score p) (rp p) b.

(** [game.players[idx]] for the two valid indexes. *)
Definition player_at (idx : nat) (g : Game) : Player :=
  if Nat.eqb idx 0 then player0 g else player1 g.

(** [game.players[idx] = f(game.players[idx])]. *)
Definition upd_player (idx : nat) (f : Player -> Player) (g : Game) : Game :=
  mkGame (id g)
         (if Nat.eqb idx 0 then f (player0 g) else player0 g)
         (if Nat.eqb idx 0 then player1 g else f (player1 g))
         (scores g) (usedCards g) (currentRound g) (roundNumber g)
         (maxRounds g) (moves g) (isStarted g) (isFinished g)
         (disconnectTimer g) (disconnectedPlayerOdId g).

Definition set_scores (m : gmap string nat) (g : Game) : Game :=
  mkGame (id g) (player0 g) (player1 g) m (usedCards g) (currentRound g)
         (roundNumber g) (maxRounds g) (moves g) (isStarted g) (isFinished g)
         (disconnectTimer g) (disconnectedPlayerOdId g).

Definition set_usedCards (l : list Z) (g : Game) : Game :=
  mkGame (id g) (player0 g) (player1 g) (scores g) l (currentRound g)
         (roundNumber g) (maxRounds g) (moves g) (isStarted g) (isFinished g)
         (disconnectTimer g) (disconnectedPlayerOdId g).

Definition set_round (n : nat) (r : RoundInfo) (g : Game) : Game :=
  mkGame (id g) (player0 g) (player1 g) (scores g) (usedCards g) r
         n (maxRounds g) (moves g) (isStarted g) (isFinished g)
         (disconnectTimer g) (disconnectedPlayerOdId g).

Definition set_moves (m : gmap string Move) (g : Game) : Game :=
  mkGame (id g) (player0 g) (player1 g) (scores g) (usedCards g) (currentRound g)
         (roundNumber g) (maxRounds g) m (isStarted g) (isFinished g)
         (disconnectTimer g) (disconnectedPlayerOdId g).

Definition set_isStarted (b : bool) (g : Game) : Game :=
  mkGame (id g) (player0 g) (player1 g) (scores g) (usedCards g) (currentRound g)
         (roundNumber g) (maxRounds g) (moves g) b (isFinished g)
         (disconnectTimer g) (disconnectedPlayerOdId g).

Definition set_isFinished (b : bool) (g : Game) : Game :=
  mkGame (id g) (player0 g) (player1 g) (scores g) (usedCards g) (currentRound g)
         (roundNumber g) (maxRounds g) (moves g) (isStarted g) b
         (disconnectTimer g) (disconnectedPlayerOdId g).

Definition set_disconnectTimer (t : option Timer) (g : Game) : Game :=
  mkGame (id g) (player0 g) (player1 g) (scores g) (usedCards g) (currentRound g)
         (roundNumber g) (maxRounds g) (moves g) (isStarted g) (isFinished g)
         t (disconnectedPlayerOdId g).

Definition set_disconnectedPlayerOdId (o : option string) (g : Game) : Game :=
  mkGame (id g) (player0 g) (player1 g) (scores g) (usedCards g) (currentRound g)
         (roundNumber g) (maxRounds g) (moves g) (isStarted g) (isFinished g)
         (disconnectTimer g) o.

(** ** Game round / logic helpers *)

Definition roundStats : list RoundInfo :=
  [ mkRoundInfo 1 "pace" false;
    mkRoundInfo 2 "shooting" false;
    mkRoundInfo 3 "passing" false;
    mkRoundInfo 4 "gk_diving" true;
    mkRoundInfo 5 "dribbling" false;
    mkRoundInfo 6 "defending" false;
    mkRoundInfo 7 "physical" false ].

(** [roundNumber] is at least 1 wherever the code calls this. *)
Definition getRoundInfo (roundNumber : nat) : RoundInfo :=
  let idx := (roundNumber - 1) mod length roundStats in
  nth idx roundStats (mkRoundInfo 1 "pace" false).

Definition createInitialRound : RoundInfo := getRoundInfo 1.

Definition getOpponentIndex (playerIndex : nat) : nat :=
  if Nat.eqb playerIndex 0 then 1 else 0.

(** [findIndex] over the two players; [None] is the JS [-1]. *)
Definition getPlayerIndex (game : Game) (u : string) : option nat :=
  if String.eqb (odId (player0 game)) u then Some 0
  else if String.eqb (odId (player1 game)) u then Some 1
  else None.

Definition getOpponentOdId (game : Game) (u : string) : option string :=
  match getPlayerIndex game u with
  | None => None
  | Some idx => Some (odId (player_at (getOpponentIndex idx) game))
  end.

Definition calculateRpChange (winnerOdId loserOdId : option string)
    (reason : string) : gmap string Z :=
  match winnerOdId, loserOdId with
  | Some w, Some l =>
      if negb (truthy w) || negb (truthy l) then ∅
      else if String.eqb reason "forfeit" then
        js_set l RP_FORFEIT_LOSS (js_set w RP_WIN ∅)
      else if String.eqb reason "opponent-disconnected" then
        js_set l RP_FORFEIT_LOSS (js_set w RP_OPP_DISCONNECT_WIN ∅)
      else
        js_set l RP_LOSS (js_set w RP_WIN ∅)
  | _, _ => ∅
  end.

Definition computeScoresFromGame (game : Game) : gmap string nat :=
  js_set (odId (player1 game)) (score (player1 game))
    (js_set (odId (player0 game)) (score (player0 game)) ∅).

(** The live-socket test [p.socketId && io.sockets.sockets.get(p.socketId)]. *)
Definition socket_is_live (s : State) (sid : string) : bool :=
  truthy sid && bool_decide (sid ∈ sockets s).

(** [game.players.forEach(p => if live then io.to(p.socketId).emit(n))]. *)
Definition emit_players (s : State) (game : Game) (n : Notification) : list Emit :=
  (if socket_is_live s (socketId (player0 game))
   then [(socketId (player0 game), n)] else [])
  ++
  (if socket_is_live s (socketId (player1 game))
   then [(socketId (player1 game), n)] else []).

(** ** Matchmaking helpers *)

(** [queue.findIndex(p => p.socketId === socketId)]; [None] is [-1]. *)
Fixpoint findIndexBySocket (sid : string) (q : list QueueEntry) : option nat :=
  match q with
  | [] => None
  | p :: rest =>
      if String.eqb (q_socketId p) sid then Some 0
      else option_map S (findIndexBySocket sid rest)
  end.

(** [queue.splice(idx, 1)] at the first entry of the socket, if any. *)
Fixpoint removeFromQueueBySocket (sid : string) (q : list QueueEntry)
    : list QueueEntry :=
  match q with
  | [] => []
  | p :: rest =>
      if String.eqb (q_socketId p) sid then rest
      else p :: removeFromQueueBySocket sid rest
  end.

Definition newPlayer (p : QueueEntry) : Player :=
  mkPlayer (q_odId p) (q_username p) (q_socketId p) false 0 0 true.

Definition newGame (gameId : nat) (p1 p2 : QueueEntry) : Game :=
  mkGame gameId (newPlayer p1) (newPlayer p2)
         (<[q_odId p2 := 0]> (<[q_odId p1 := 0]> ∅))
         [] createInitialRound 1 MAX_ROUNDS ∅ false false None None.

(** One turn of the [while] loop of [tryMatchPlayers], for the two entries
    shifted off the queue. *)
Definition matchPair (p1 p2 : QueueEntry) (s : State) : State * list Emit :=
  let gameId := nextGameId s in
  let s1 := set_nextGameId (S gameId) s in
  let s2 := put_game gameId (newGame gameId p1 p2) s1 in
  let s3 := set_socketToGameId
              (<[q_socketId p2 := gameId]>
                 (<[q_socketId p1 := gameId]> (socketToGameId s2))) s2 in
  let s4 := set_userToGameId
              (<[q_odId p2 := gameId]>
                 (<[q_odId p1 := gameId]> (userToGameId s3))) s3 in
  (s4, [ (q_socketId p1, MatchFound gameId (q_odId p2) (q_username p2) true);
         (q_socketId p2, MatchFound gameId (q_odId p1) (q_username p1) false) ]).

(** The loop runs on the queue [q]; the state carries everything else. *)
Fixpoint tryMatchPlayers_from (q : list QueueEntry) (s : State)
    : State * list Emit :=
  match q with
  | p1 :: p2 :: rest =>
      let '(s1, out1) := matchPair p1 p2 s in
      let '(s2, out2) := tryMatchPlayers_from rest s1 in
      (s2, out1 ++ out2)
  | _ => (set_queue q s, [])
  end.

Definition tryMatchPlayers (s : State) : State * list Emit :=
  tryMatchPlayers_from (queue s) s.

(** ** Game start / state emit *)

Definition emitGameState (s : State) (gid : nat) : list Emit :=
  match games s !! gid with
  | None => []
  | Some game =>
      emit_players s game
        (GameState (id game) (currentRound game)
                   (computeScoresFromGame game) (usedCards game))
  end.

Definition maybeStartGame (s : State) (gid : nat) : State * list Emit :=
  match games s !! gid with
  | None => (s, [])
  | Some game =>
      if isStarted game || isFinished game then (s, [])
      else if negb (accepted (player0 game) && accepted (player1 game)) then (s, [])
      else
        let game1 := set_isStarted true game in
        let s1 := put_game gid game1 s in
        let payload :=
          GameStarted (id game1)
            [ (odId (player0 game1), username (player0 game1));
              (odId (player1 game1), username (player1 game1)) ]
            (currentRound game1) in
        (s1, emit_players s1 game1 payload ++ emitGameState s1 gid)
  end.

(** ** Round resolution / end of game *)

Record FinishArgs := mkFinishArgs {
  fa_reason : string;
  fa_winnerOdId : option string;
  fa_loserOdId : option string;
  fa_disconnectedPlayerOdId : option string
}.

(** The winner by score: [p0.score > p1.score], else [p1.score > p0.score],
    else [null]. *)
Definition winnerByScore (game : Game) : option string :=
  if Nat.ltb (score (player1 game)) (score (player0 game))
  then Some (odId (player0 game))
  else if Nat.ltb (score (player0 game)) (score (player1 game))
  then Some (odId (player1 game))
  else None.

(** [odIds.find(id => id !== winnerOdId)]. *)
Definition findOther (game : Game) (winnerOdId : option string) : option string :=
  if neq_opt (odId (player0 game)) winnerOdId then Some (odId (player0 game))
  else if neq_opt (odId (player1 game)) winnerOdId then Some (odId (player1 game))
  else None.

Definition reasonTagOf (reason : string) : string :=
  if String.eqb reason "opponent-disconnected" then "opponent-disconnected"
  else if String.eqb reason "forfeit" then "forfeit"
  else "forfeit".

(** [game.players.find(pl => pl.odId === disconnectedPlayerOdId)] and the
    public identity built from it. *)
Definition disconnectedPlayerOf (game : Game) (d : option string)
    : option (string * string) :=
  match d with
  | None => None
  | Some u =>
      if negb (truthy u) then None
      else if String.eqb (odId (player0 game)) u
      then Some (odId (player0 game), username (player0 game))
      else if String.eqb (odId (player1 game)) u
      then Some (odId (player1 game), username (player1 game))
      else None
  end.

(** The winner and the loser as [finishGame] settles them. *)
Definition finalWinnerOf (game : Game) (a : FinishArgs) : option string :=
  if negb (truthy_opt (fa_winnerOdId a)) && String.eqb (fa_reason a) "normal"
  then winnerByScore game
  else fa_winnerOdId a.

Definition finalLoserOf (game : Game) (a : FinishArgs) : option string :=
  let winnerOdId := finalWinnerOf game a in
  if negb (truthy_opt (fa_loserOdId a)) && truthy_opt winnerOdId
  then or_null (findOther game winnerOdId)
  else fa_loserOdId a.

Definition gameEndedPayload (game : Game) (a : FinishArgs) : GameEndedPayload :=
  let winnerOdId := finalWinnerOf game a in
  let loserOdId := finalLoserOf game a in
  mkGameEnded (id game)
              (reasonTagOf (fa_reason a))
              (if truthy_opt winnerOdId then or_empty winnerOdId else "")
              (if truthy_opt loserOdId then or_empty loserOdId else "")
              (computeScoresFromGame game)
              (calculateRpChange winnerOdId loserOdId (fa_reason a))
              (disconnectedPlayerOf game (fa_disconnectedPlayerOdId a)).

(** The clean-up of the helper maps for one player. *)
Definition cleanPlayer (p : Player) (s : State) : State :=
  let s1 := if truthy (socketId p)
            then set_socketToGameId (delete (socketId p) (socketToGameId s)) s
            else s in
  set_userToGameId (delete (odId p) (userToGameId s1)) s1.

Definition finishGame (s : State) (gid : nat) (a : FinishArgs)
    : State * list Emit :=
  match games s !! gid with
  | None => (s, [])
  | Some game =>
      if isFinished game then (s, [])
      else
        let game1 := set_isFinished true game in
        let payload := gameEndedPayload game1 a in
        let out := emit_players s game1 (GameEnded payload) in
        let game2 := set_disconnectTimer None game1 in
        let s1 := put_game gid game2 s in
        (cleanPlayer (player1 game2) (cleanPlayer (player0 game2) s1), out)
  end.

(** [const mv = game.moves[u]; if (mv && typeof mv.cardId === 'number')]
    then [if (!game.usedCards.includes(c)) game.usedCards.push(c)]. *)
Definition addUsedCard (mvs : gmap string Move) (u : string) (used : list Z)
    : list Z :=
  match moves_get mvs u with
  | None => used
  | Some mv =>
      match slot_cardId mv with
      | None => used
      | Some c => if existsb (Z.eqb c) used then used else used ++ [c]
      end
  end.

(** The round winner: [null] on equal values, else the first player when
    its value is the greater one, else the second player. *)
Definition roundWinnerOf (game : Game) (moveA moveB : MoveSlot)
    : option string :=
  if js_eq (slot_statValue moveA) (slot_statValue moveB) then None
  else if js_gt (slot_statValue moveA) (slot_statValue moveB)
  then Some (odId (player0 game))
  else Some (odId (player1 game)).

(** [+1] for the round winner, on the player object and in [game.scores]. *)
Definition awardRound (roundWinnerOdId : option string) (game : Game) : Game :=
  match roundWinnerOdId with
  | None => game
  | Some w =>
      if negb (truthy w) then game
      else
        match getPlayerIndex game w with
        | None => game
        | Some winnerIdx =>
            let game1 :=
              upd_player winnerIdx (fun p => set_score (score p + 1) p) game in
            set_scores (js_set w (score (player_at winnerIdx game1))
                               (scores game1))
                       game1
        end
  end.

(** The game once the round is scored: the winner of the round has its
    point and the cards of both moves are used. *)
Definition scoreRound (game : Game) (moveA moveB : MoveSlot) : Game :=
  let od0 := odId (player0 game) in
  let od1 := odId (player1 game) in
  let game1 := awardRound (roundWinnerOf game moveA moveB) game in
  set_usedCards
    (addUsedCard (moves game1) od1
       (addUsedCard (moves game1) od0 (usedCards game1))) game1.

(** [game.roundNumber >= game.maxRounds]. *)
Definition isGameOverAt (game : Game) : bool :=
  Nat.leb (maxRounds game) (roundNumber game).

(** [if (!isGameOver) { game.roundNumber += 1; game.currentRound = ... }]. *)
Definition prepareNextRound (game : Game) : Game :=
  if isGameOverAt game then game
  else set_round (roundNumber game + 1)
                 (getRoundInfo (roundNumber game + 1)) game.

(** The payload is built after the next round is prepared: [game3] is the
    game as it is then. *)
Definition roundCompletedPayload (game : Game) (moveA moveB : MoveSlot)
    : RoundCompletedPayload :=
  let od0 := odId (player0 game) in
  let od1 := odId (player1 game) in
  let game2 := scoreRound game moveA moveB in
  let isGameOver := isGameOverAt game2 in
  let finalWinner := if isGameOver then winnerByScore game2 else None in
  let game3 := prepareNextRound game2 in
  let nextRound := if isGameOver then None else Some (currentRound game3) in
  mkRoundCompleted
    (round (currentRound game3))
    (stat (currentRound game3))
    (isGKRound (currentRound game3))
    (<[od1 := moveB]> (<[od0 := moveA]> ∅))
    (roundWinnerOf game moveA moveB) 0
    (computeScoresFromGame game2) isGameOver finalWinner nextRound.

Definition resolveRoundIfReady (s : State) (gid : nat) : State * list Emit :=
  match games s !! gid with
  | None => (s, [])
  | Some game =>
      if isFinished game then (s, [])
      else
        let od0 := odId (player0 game) in
        let od1 := odId (player1 game) in
        match moves_get (moves game) od0, moves_get (moves game) od1 with
        | Some moveA, Some moveB =>
            let game2 := scoreRound game moveA moveB in
            let isGameOver := isGameOverAt game2 in
            let finalWinner :=
              if isGameOver then winnerByScore game2 else None in
            let game3 := prepareNextRound game2 in
            let roundPayload := roundCompletedPayload game moveA moveB in
            let out := emit_players s game3 (RoundCompleted roundPayload) in
            let game4 := set_moves ∅ game3 in
            let s1 := put_game gid game4 s in
            if isGameOver then
              let '(s2, out2) :=
                finishGame s1 gid (mkFinishArgs "normal" finalWinner None None) in
              (s2, out ++ out2)
            else (s1, out ++ emitGameState s1 gid)
        | _, _ => (s, [])
        end
  end.

(** ** Socket events *)

Inductive Event :=
| Connect (sid : string)
| Disconnect (sid : string)
| JoinQueue (sid : string) (odId username : string)
| LeaveQueue (sid : string)
| PlayerAccepted (sid : string) (gameId : option nat)
| JoinGame (sid : string) (gameId : option nat) (odId username : string)
| LeaveGame (sid : string) (gameId : option nat)
| SubmitMove (sid : string) (gameId : option nat) (odId : string)
             (cardId : option Z) (statValue : option Q) (cardData : option string)
| TimerFire (gameId : nat).

Definition onConnect (sid : string) (s : State) : State * list Emit :=
  (set_sockets ({[sid]} ∪ sockets s) s, []).

(** The callback given to [setTimeout] in the disconnect handler, for the
    captured [idx]. *)
Definition graceCallback (gid idx : nat) (s : State) : State * list Emit :=
  match games s !! gid with
  | None => (s, [])
  | Some game =>
      let player := player_at idx game in
      let opponent := player_at (getOpponentIndex idx) game in
      let stillDisconnected := negb (connected player) in
      if stillDisconnected && negb (isFinished game) then
        finishGame s gid
          (mkFinishArgs "opponent-disconnected"
                        (Some (odId opponent)) (Some (odId player))
                        (Some (odId player)))
      else (s, [])
  end.

(** The grace period of the game [gid] elapses: the pending callback, if
    there is one, runs once. *)
Definition onTimerFire (gid : nat) (s : State) : State * list Emit :=
  match games s !! gid with
  | None => (s, [])
  | Some game =>
      match disconnectTimer game with
      | None => (s, [])
      | Some t =>
          if timer_pending t then
            let game1 :=
              set_disconnectTimer (Some (mkTimer (timer_idx t) false)) game in
            graceCallback gid (timer_idx t) (put_game gid game1 s)
          else (s, [])
      end
  end.

(** socket.io takes the socket out of [io.sockets.sockets] before it emits
    ['disconnect']. *)
Definition onDisconnect (sid : string) (s : State) : State * list Emit :=
  let s0 := set_sockets (sockets s ∖ {[sid]}) s in
  let s1 := set_queue (removeFromQueueBySocket sid (queue s0)) s0 in
  let u := socketToUser s1 !! sid in
  let gameId := socketToGameId s1 !! sid in
  let s2 := set_socketToUser (delete sid (socketToUser s1)) s1 in
  let s3 := set_socketToGameId (delete sid (socketToGameId s2)) s2 in
  let s4 := match u with
            | Some u' =>
                if truthy u'
                then set_userToSocket (delete u' (userToSocket s3)) s3
                else s3
            | None => s3
            end in
  match gameId with
  | None => (s4, [])
  | Some gid =>
      match games s4 !! gid with
      | None => (s4, [])
      | Some game =>
          if isFinished game then (s4, [])
          else
            match from_option (getPlayerIndex game) None u with
            | None => (s4, [])
            | Some idx =>
                let game1 := upd_player idx (set_connected false) game in
                let player := player_at idx game1 in
                let opponent := player_at (getOpponentIndex idx) game1 in
                let out :=
                  if socket_is_live s4 (socketId opponent)
                  then [(socketId opponent,
                         OpponentDisconnected (username player))]
                  else [] in
                let game2 :=
                  set_disconnectedPlayerOdId (Some (odId player)) game1 in
                let game3 :=
                  set_disconnectTimer (Some (mkTimer idx true)) game2 in
                (put_game gid game3 s4, out)
            end
      end
  end.

Definition onJoinQueue (sid u name : string) (s : State) : State * list Emit :=
  if negb (truthy u) || negb (truthy name) then
    (s, [(sid, GameError "Missing odId or username" "INVALID_QUEUE_PAYLOAD" None)])
  else
    let s1 := set_socketToUser (<[sid := u]> (socketToUser s)) s in
    let s2 := set_userToSocket (<[u := sid]> (userToSocket s1)) s1 in
    let q := removeFromQueueBySocket sid (queue s2) ++ [mkQueueEntry sid u name] in
    let s3 := set_queue q s2 in
    let position :=
      match findIndexBySocket sid q with
      | Some i => i + 1
      | None => 0
      end in
    let '(s4, out) := tryMatchPlayers s3 in
    (s4, (sid, QueueJoined position (length q)) :: out).

Definition onLeaveQueue (sid : string) (s : State) : State * list Emit :=
  (set_queue (removeFromQueueBySocket sid (queue s)) s, [(sid, QueueLeft)]).

Definition onPlayerAccepted (sid : string) (gameId : option nat) (s : State)
    : State * list Emit :=
  match gameId with
  | None => (s, [])
  | Some gid =>
      let notFound :=
        (s, [(sid, GameError "Game not found" "GAME_NOT_FOUND" gameId)]) in
      match games s !! gid with
      | None => notFound
      | Some game =>
          if isFinished game then notFound
          else
            match socketToUser s !! sid with
            | None => (s, [])
            | Some u =>
                if negb (truthy u) then (s, [])
                else
                  match getPlayerIndex game u with
                  | None => (s, [])
                  | Some idx =>
                      let game1 := upd_player idx (set_accepted true) game in
                      maybeStartGame (put_game gid game1 s) gid
                  end
            end
      end
  end.

Definition onJoinGame (sid : string) (gameId : option nat) (u name : string)
    (s : State) : State * list Emit :=
  match gameId with
  | None =>
      (s, [(sid, GameError "Missing gameId or odId"
                           "INVALID_JOIN_GAME_PAYLOAD" gameId)])
  | Some gid =>
      if negb (truthy u) then
        (s, [(sid, GameError "Missing gameId or odId"
                             "INVALID_JOIN_GAME_PAYLOAD" gameId)])
      else
        let notFound :=
          (s, [(sid, GameError "Game not found" "GAME_NOT_FOUND" gameId)]) in
        match games s !! gid with
        | None => notFound
        | Some game =>
            if isFinished game then notFound
            else
              let s1 := set_socketToUser (<[sid := u]> (socketToUser s)) s in
              let s2 := set_userToSocket (<[u := sid]> (userToSocket s1)) s1 in
              let s3 :=
                set_socketToGameId (<[sid := gid]> (socketToGameId s2)) s2 in
              let s4 := set_userToGameId (<[u := gid]> (userToGameId s3)) s3 in
              match getPlayerIndex game u with
              | None =>
                  (s4, [(sid, GameError "Player not part of this game"
                                        "NOT_IN_GAME" gameId)])
              | Some idx =>
                  let game1 :=
                    if truthy name then upd_player idx (set_username name) game
                    else game in
                  let game2 := upd_player idx (set_socketId sid) game1 in
                  let game3 := upd_player idx (set_connected true) game2 in
                  let s5 := put_game gid game3 s4 in
                  (s5, (sid, GameJoined gid u idx)
                       :: (if isStarted game3 && negb (isFinished game3)
                           then emitGameState s5 gid else []))
              end
        end
  end.

Definition onLeaveGame (sid : string) (gameId : option nat) (s : State)
    : State * list Emit :=
  match gameId with
  | None => (s, [])
  | Some gid =>
      match games s !! gid with
      | None => (s, [])
      | Some game =>
          if isFinished game then (s, [])
          else
            match socketToUser s !! sid with
            | None => (s, [])
            | Some u =>
                if negb (truthy u) then (s, [])
                else
                  match getPlayerIndex game u with
                  | None => (s, [])
                  | Some idx =>
                      finishGame s gid
                        (mkFinishArgs "forfeit" (getOpponentOdId game u)
                                      (Some u) None)
                  end
            end
      end
  end.

Definition onSubmitMove (sid : string) (gameId : option nat) (u : string)
    (card : option Z) (value : option Q) (data : option string) (s : State)
    : State * list Emit :=
  let invalid :=
    (s, [(sid, MoveError "Invalid move payload" "INVALID_MOVE_PAYLOAD")]) in
  let unavailable :=
    (s, [(sid, MoveError "Game not available" "GAME_NOT_AVAILABLE")]) in
  match gameId, card, value with
  | Some gid, Some c, Some v =>
      if negb (truthy u) then invalid
      else
        match games s !! gid with
        | None => unavailable
        | Some game =>
            if isFinished game || negb (isStarted game) then unavailable
            else
              match getPlayerIndex game u with
              | None =>
                  (s, [(sid, MoveError "Player not in game" "PLAYER_NOT_IN_GAME")])
              | Some idx =>
                  match moves_get (moves game) u with
                  | Some _ =>
                      (s, [(sid, MoveError "Move already submitted for this round"
                                           "MOVE_ALREADY_SUBMITTED")])
                  | None =>
                      (* the read was [undefined]: [u] is neither an own nor
                         an inherited key, and the assignment defines an own
                         property *)
                      let mv := mkMove u c v (or_null data) in
                      let game1 := set_moves (<[u := mv]> (moves game)) game in
                      let s1 := put_game gid game1 s in
                      let ack := [(sid, MoveReceived c)] in
                      let notify :=
                        match getOpponentOdId game1 u with
                        | None => []
                        | Some opp =>
                            if negb (truthy opp) then []
                            else
                              match userToSocket s1 !! opp with
                              | None => []
                              | Some oppSocketId =>
                                  if socket_is_live s1 oppSocketId
                                  then [(oppSocketId, OpponentMoved)]
                                  else []
                              end
                        end in
                      let '(s2, out) := resolveRoundIfReady s1 gid in
                      (s2, ack ++ notify ++ out)
                  end
              end
        end
  | _, _, _ => invalid
  end.

(** One handler run: the server is single-threaded, every event is handled
    to completion. *)
Definition step (s : State) (e : Event) : State * list Emit :=
  match e with
  | Connect sid => onConnect sid s
  | Disconnect sid => onDisconnect sid s
  | JoinQueue sid u name => onJoinQueue sid u name s
  | LeaveQueue sid => onLeaveQueue sid s
  | PlayerAccepted sid gameId => onPlayerAccepted sid gameId s
  | JoinGame sid gameId u name => onJoinGame sid gameId u name s
  | LeaveGame sid gameId => onLeaveGame sid gameId s
  | SubmitMove sid gameId u card value data =>
      onSubmitMove sid gameId u card value data s
  | TimerFire gid => onTimerFire gid s
  end.

(** A run of events from a state, with everything emitted on the way. *)
Fixpoint run (s : State) (es : list Event) : State * list Emit :=
  match es with
  | [] => (s, [])
  | e :: rest =>
      let '(s1, out1) := step s e in
      let '(s2, out2) := run s1 rest in
      (s2, out1 ++ out2)
  end.

(** The states the server can be in. *)
Inductive reachable : State -> Prop :=
| reachable_initial : reachable initial
| reachable_step s e : reachable s -> reachable (fst (step s e)).

(** ** Invariants of the reachable states *)

Definition game_ok (gid : nat) (game : Game) : Prop :=
  id game = gid ∧
  (isFinished game = true → disconnectTimer game = None) ∧
  truthy (odId (player0 game)) = true ∧
  truthy (odId (player1 game)) = true ∧
  maxRounds game = MAX_ROUNDS ∧
  (1 ≤ roundNumber game ≤ MAX_ROUNDS)%nat.

(** The games store: identifiers are below the supply, every game is
    well formed. *)
Definition GInv (s : State) : Prop :=
  ∀ gid game, games s !! gid = Some game →
    (gid < nextGameId s)%nat ∧ game_ok gid game.

(** The queue: validated entries, and never two of them waiting. *)
Definition QInv (q : list QueueEntry) : Prop :=
  Forall (λ p, truthy (q_odId p) = true) q ∧ (length q ≤ 1)%nat.

Definition Inv (s : State) : Prop := GInv s ∧ QInv (queue s).

(** No termination notice of the game [gid] among the emissions. *)
Definition quiet (gid : nat) (out : list Emit) : Prop :=
  ∀ sid p, (sid, GameEnded p) ∈ out → ge_gameId p ≠ gid.

(** What a piece of handler code may do: keep the games store well formed,
    leave every finished game as it is, and emit no termination notice for
    it. *)
Definition good (s s' : State) (out : list Emit) : Prop :=
  GInv s' ∧
  ∀ gid game, games s !! gid = Some game → isFinished game = true →
    games s' !! gid = Some game ∧ quiet gid out.


(** ** Reading the emissions *)

Definition game_ended_of (e : Emit) : option GameEndedPayload :=
  match snd e with
  | GameEnded p => Some p
  | _ => None
  end.

Definition round_completed_of (e : Emit) : option RoundCompletedPayload :=
  match snd e with
  | RoundCompleted p => Some p
  | _ => None
  end.

(** The round metadata of a round-completed payload. *)
Definition round_meta (p : RoundCompletedPayload) : RoundInfo :=
  mkRoundInfo (rc_round p) (rc_stat p) (rc_isGKRound p).

(** ** Statements about the registry *)

(** The player [u] holds a slot of the game. *)
Definition is_member (game : Game) (u : string) : Prop :=
  is_Some (getPlayerIndex game u).

(** Nothing routes to the session [gid] of the players [u0] and [u1] any
    more: not the session identifier, not a player identifier, not a
    connection. *)
Definition unrouted (s : State) (gid : nat) (u0 u1 : string) : Prop :=
  games s !! gid = None ∧
  userToGameId s !! u0 ≠ Some gid ∧
  userToGameId s !! u1 ≠ Some gid ∧
  ∀ sid, socketToGameId s !! sid ≠ Some gid.

(** Every player identifier is a member of at most one unfinished
    session. *)
Definition one_session_per_player (s : State) : Prop :=
  ∀ g1 g2 game1 game2 u,
    games s !! g1 = Some game1 → games s !! g2 = Some game2 →
    isFinished game1 = false → isFinished game2 = false →
    is_member game1 u → is_member game2 u → g1 = g2.

(** ** Scenarios

    Two connections [s1] and [s2] queue as the players [A] and [B] and are
    paired into the game [0]; a third connection [s3] stands by. *)

Definition paired : list Event :=
  [ Connect "s1"; Connect "s2"; Connect "s3";
    JoinQueue "s1" "A" "alice"; JoinQueue "s2" "B" "bob" ].

Definition accept_both : list Event :=
  [ PlayerAccepted "s1" (Some 0); PlayerAccepted "s2" (Some 0) ].

Definition moveOf (sid u : string) (card : Z) (value : Q) : Event :=
  SubmitMove sid (Some 0) u (Some card) (Some value) None.

(** One round: [A] plays first, then [B]. *)
Definition play (cardA : Z) (valueA : Q) (cardB : Z) (valueB : Q) : list Event :=
  [ moveOf "s1" "A" cardA valueA; moveOf "s2" "B" cardB valueB ].

Definition s_paired : State := fst (run initial paired).

Definition s_active : State := fst (run s_paired accept_both).

(** Five rounds: [A] takes three of them, [B] one, one is level. *)
Definition five_rounds : list Event :=
  play 7 85 12 60 ++ play 8 70 13 70 ++ play 9 40 14 90 ++
  play 10 77 15 20 ++ play 11 66 16 65.

(** The same pairing and handshake when the first player is named
    [constructor], a property name of [Object.prototype]. *)
Definition paired_constructor : list Event :=
  [ Connect "s1"; Connect "s2";
    JoinQueue "s1" "constructor" "alice"; JoinQueue "s2" "B" "bob" ].

Definition s_proto : State :=
  fst (run (fst (run initial paired_constructor)) accept_both).

(** The game [0] as it is in [s_paired] and in [s_active]. *)
Definition game0_paired : Game :=
  mkGame 0 (mkPlayer "A" "alice" "s1" false 0 0 true)
           (mkPlayer "B" "bob" "s2" false 0 0 true)
         (<["B" := 0]> (<["A" := 0]> ∅)) [] (mkRoundInfo 1 "pace" false)
         1 5 ∅ false false None None.

Definition game0_active : Game :=
  mkGame 0 (mkPlayer "A" "alice" "s1" true 0 0 true)
           (mkPlayer "B" "bob" "s2" true 0 0 true)
         (<["B" := 0]> (<["A" := 0]> ∅)) [] (mkRoundInfo 1 "pace" false)
         1 5 ∅ true false None None.

(** The game [0] after the first round of [five_rounds]: [A] has taken
    the point and the game is at round 2. *)
Definition game0_round2 : Game :=
  mkGame 0 (mkPlayer "A" "alice" "s1" true 1 0 true)
           (mkPlayer "B" "bob" "s2" true 0 0 true)
         (<["A" := 1]> (<["B" := 0]> (<["A" := 0]> ∅))) [7; 12]%Z
         (mkRoundInfo 2 "shooting" false)
         2 5 ∅ true false None None.

(** [A], a member of the active game [0], queues again on its connection
    and is paired with [C]. *)
Definition queue_again : list Event :=
  [ JoinQueue "s1" "A" "alice"; JoinQueue "s3" "C" "carol" ].

(** The game as the disconnect handler leaves it when the slot [idx] loses
    its connection: the slot is marked, the player is recorded, the grace
    timer is armed. *)
Definition disconnectedGame (idx : nat) (game : Game) : Game :=
  let game1 := upd_player idx (set_connected false) game in
  set_disconnectTimer (Some (mkTimer idx true))
    (set_disconnectedPlayerOdId (Some (odId (player_at idx game1))) game1).


(** The active game [0] once A has played 85 in round 1. *)
Definition game0_moved : Game :=
  set_moves (<["A" := mkMove "A" 7 85 None]> ∅) game0_active.

(** The game as join-game leaves it when the member in the slot [idx]
    rejoins on the connection [sid]. *)
Definition rejoinedGame (sid name : string) (idx : nat) (game : Game) : Game :=
  let game1 :=
    if truthy name then upd_player idx (set_username name) game else game in
  upd_player idx (set_connected true) (upd_player idx (set_socketId sid) game1).

(** The game as round resolution leaves it, termination at the last round
    included. *)
Definition resolvedGame (game : Game) (moveA moveB : MoveSlot) : Game :=
  let game4 := set_moves ∅ (prepareNextRound (scoreRound game moveA moveB)) in
  if isGameOverAt game
  then set_disconnectTimer None (set_isFinished true game4)
  else game4.

(** The two submit-move events of one round of the game [gid]: the player
    [u0] on the connection [sid0] plays the card and value [fst m], then
    the player [u1] on [sid1] plays [snd m]. *)
Definition playRound (gid : nat) (sid0 sid1 u0 u1 : string)
    (m : (Z * Q) * (Z * Q)) : list Event :=
  [ SubmitMove sid0 (Some gid) u0 (Some (fst (fst m))) (Some (snd (fst m))) None;
    SubmitMove sid1 (Some gid) u1 (Some (fst (snd m))) (Some (snd (snd m))) None ].

Definition playRounds (gid : nat) (sid0 sid1 u0 u1 : string)
    (ms : list ((Z * Q) * (Z * Q))) : list Event :=
  flat_map (playRound gid sid0 sid1 u0 u1) ms.

(** The cards and values of [five_rounds], round by round. *)
Definition five_moves : list ((Z * Q) * (Z * Q)) :=
  [ ((7%Z, 85%Q), (12%Z, 60%Q)); ((8%Z, 70%Q), (13%Z, 70%Q));
    ((9%Z, 40%Q), (14%Z, 90%Q)); ((10%Z, 77%Q), (15%Z, 20%Q));
    ((11%Z, 66%Q), (16%Z, 65%Q)) ].

(** ** The grace period over a run of events *)








(** One player on two connections, paired with itself. *)
Definition paired_alone : list Event :=
  [ Connect "s1"; Connect "s2";
    JoinQueue "s1" "A" "alice"; JoinQueue "s2" "A" "alice" ].

Definition s_alone : State := fst (run initial paired_alone).

(** ** The transitions of one game

    What the handlers do to a game object, one transition per handler
    path that writes to it. *)

(** The player-accepted handler on the slot [idx], with what
    [maybeStartGame] does right after. *)
Definition acceptedGame (idx : nat) (game : Game) : Game :=
  let game1 := upd_player idx (set_accepted true) game in
  if isStarted game1 || isFinished game1 then game1
  else if negb (accepted (player0 game1) && accepted (player1 game1)) then game1
  else set_isStarted true game1.

(** The submit-move handler stores the move of [u]. *)
Definition movedGame (u : string) (mv : Move) (game : Game) : Game :=
  set_moves (<[u := mv]> (moves game)) game.

(** The timer handle once its callback has run. *)
Definition firedGame (t : Timer) (game : Game) : Game :=
  set_disconnectTimer (Some (mkTimer (timer_idx t) false)) game.

(** [finishGame] on the game object. *)
Definition endedGame (game : Game) : Game :=
  set_disconnectTimer None (set_isFinished true game).

Inductive game_step : Game → Game → Prop :=
| gs_accept idx game :
    isFinished game = false →
    game_step game (acceptedGame idx game)
| gs_rejoin sid name idx game :
    isFinished game = false →
    game_step game (rejoinedGame sid name idx game)
| gs_disconnect idx game :
    isFinished game = false →
    game_step game (disconnectedGame idx game)
| gs_timer_idle t game :
    isFinished game = false → disconnectTimer game = Some t →
    game_step game (firedGame t game)
| gs_finish game :
    isFinished game = false →
    game_step game (endedGame game)
| gs_move_waits u mv game :
    isStarted game = true → isFinished game = false →
    is_member game u → moves_get (moves game) u = None → mv_odId mv = u →
    moves_get (moves (movedGame u mv game)) (odId (player0 game)) = None ∨
    moves_get (moves (movedGame u mv game)) (odId (player1 game)) = None →
    game_step game (movedGame u mv game)
| gs_move_resolves u mv moveA moveB game :
    isStarted game = true → isFinished game = false →
    is_member game u → moves_get (moves game) u = None → mv_odId mv = u →
    moves_get (moves (movedGame u mv game)) (odId (player0 game)) = Some moveA →
    moves_get (moves (movedGame u mv game)) (odId (player1 game)) = Some moveB →
    game_step game (resolvedGame (movedGame u mv game) moveA moveB).

(** The game an event is addressed to: the one it names, the one the
    lost connection is routed to, or the one that pairing would create. *)
Definition target (s : State) (e : Event) : option nat :=
  match e with
  | Connect _ | LeaveQueue _ => None
  | Disconnect sid => socketToGameId s !! sid
  | JoinQueue _ _ _ => Some (nextGameId s)
  | PlayerAccepted _ gameId | LeaveGame _ gameId
  | JoinGame _ gameId _ _ | SubmitMove _ gameId _ _ _ _ => gameId
  | TimerFire gid => Some gid
  end.

(** What one event does to the games store: nothing, one transition of the
    game [t] it is addressed to, or one new game under the next
    identifier. *)
Definition store_step (t : option nat) (s s' : State) : Prop :=
  (games s' = games s ∧ nextGameId s' = nextGameId s) ∨
  (∃ gid game game',
     t = Some gid ∧
     games s !! gid = Some game ∧ game_step game game' ∧
     games s' = <[gid := game']> (games s) ∧
     nextGameId s' = nextGameId s) ∨
  (∃ p1 p2,
     t = Some (nextGameId s) ∧
     truthy (q_odId p1) = true ∧ truthy (q_odId p2) = true ∧
     games s !! nextGameId s = None ∧
     games s' = <[nextGameId s := newGame (nextGameId s) p1 p2]> (games s) ∧
     nextGameId s' = S (nextGameId s)).

(** What never goes back in the life of a game. *)
Definition evolves (game game' : Game) : Prop :=
  id game' = id game ∧
  odId (player0 game') = odId (player0 game) ∧
  odId (player1 game') = odId (player1 game) ∧
  maxRounds game' = maxRounds game ∧
  (isStarted game = true → isStarted game' = true) ∧
  (isFinished game = true → isFinished game' = true) ∧
  (accepted (player0 game) = true → accepted (player0 game') = true) ∧
  (accepted (player1 game) = true → accepted (player1 game') = true) ∧
  (score (player0 game) ≤ score (player0 game'))%nat ∧
  (score (player1 game) ≤ score (player1 game'))%nat ∧
  (roundNumber game ≤ roundNumber game')%nat ∧
  usedCards game `prefix_of` usedCards game'.

(** What holds of every game between two events. *)
Definition game_wf (game : Game) : Prop :=
  (isStarted game = true →
     accepted (player0 game) = true ∧ accepted (player1 game) = true) ∧
  (isStarted game = false →
     moves game = ∅ ∧ roundNumber game = 1 ∧ usedCards game = [] ∧
     score (player0 game) = 0 ∧ score (player1 game) = 0) ∧
  (moves game !! odId (player0 game) = None ∨
   moves game !! odId (player1 game) = None) ∧
  (∀ u mv, moves game !! u = Some mv → mv_odId mv = u ∧ is_member game u) ∧
  (score (player0 game) + score (player1 game) + 1
     ≤ roundNumber game + (if isFinished game then 1 else 0))%nat ∧
  currentRound game = getRoundInfo (roundNumber game) ∧
  NoDup (usedCards game) ∧
  (length (usedCards game) + 2
     ≤ 2 * roundNumber game + (if isFinished game then 2 else 0))%nat.

(** Three entries waiting, in the order of their arrival. *)
Definition three_waiting : list QueueEntry :=
  [ mkQueueEntry "s1" "A" "alice"; mkQueueEntry "s2" "B" "bob";
    mkQueueEntry "s3" "C" "carol" ].

(** What the start of a game emits: game-started, then the first
    game-state, each to the players whose connections are live. *)
Definition startNotices (s : State) (game : Game) : list Emit :=
  emit_players s game
    (GameStarted (id game)
       [ (odId (player0 game), username (player0 game));
         (odId (player1 game), username (player1 game)) ]
       (currentRound game))
  ++ emit_players s game
       (GameState (id game) (currentRound game)
                  (computeScoresFromGame game) (usedCards game)).

(** The two error notices. *)
Definition is_error (n : Notification) : bool :=
  match n with
  | GameError _ _ _ | MoveError _ _ => true
  | _ => false
  end.

(** No error notice among the emissions. *)
Definition no_errors (out : list Emit) : Prop :=
  ∀ a, a ∈ out → is_error (snd a) = false.

(** The connection an event comes from; the elapse of a grace period comes
    from none. *)
Definition sender (e : Event) : option string :=
  match e with
  | Connect sid | Disconnect sid | JoinQueue sid _ _ | LeaveQueue sid
  | PlayerAccepted sid _ | JoinGame sid _ _ _ | LeaveGame sid _
  | SubmitMove sid _ _ _ _ _ => Some sid
  | TimerFire _ => None
  end.

(** Four rounds of [five_rounds], then the first move of the fifth. *)
Definition last_move_pending : list Event :=
  play 7 85 12 60 ++ play 8 70 13 70 ++ play 9 40 14 90 ++
  play 10 77 15 20 ++ [ moveOf "s1" "A" 11 66 ].

(** ** The invariants hold in every reachable state *)

Lemma quiet_nil gid : quiet gid [].
Proof. intros sid p H. by apply elem_of_nil in H. Qed.

Lemma quiet_app gid o1 o2 : quiet gid o1 → quiet gid o2 → quiet gid (o1 ++ o2).
Proof.
  intros H1 H2 sid p H. apply elem_of_app in H as [H|H]; eauto.
Qed.

Lemma quiet_cons gid sid n o :
  (∀ p, n ≠ GameEnded p) → quiet gid o → quiet gid ((sid, n) :: o).
Proof.
  intros Hn Ho sid' p H. apply elem_of_cons in H as [H|H]; [|eauto].
  inversion H; subst. by destruct (Hn p).
Qed.

Lemma emit_players_elem s game n e :
  e ∈ emit_players s game n → snd e = n.
Proof.
  unfold emit_players. intros H. apply elem_of_app in H as [H|H];
    case_match; try (by apply elem_of_nil in H);
    apply list_elem_of_singleton in H; by subst.
Qed.

Lemma quiet_emit_players gid s game n :
  (∀ p, n = GameEnded p → ge_gameId p ≠ gid) → quiet gid (emit_players s game n).
Proof.
  intros Hn sid p H. apply emit_players_elem in H. simpl in H. by apply Hn.
Qed.

Lemma quiet_emitGameState gid s g : quiet gid (emitGameState s g).
Proof.
  unfold emitGameState. case_match; [|apply quiet_nil].
  apply quiet_emit_players. intros p Hp. discriminate.
Qed.

(** Emissions built from notices that are not termination notices. *)
Ltac quiet_tac :=
  repeat first
    [ apply quiet_nil
    | apply quiet_emitGameState
    | apply quiet_app
    | apply quiet_cons; [intros ?; discriminate|]
    | apply quiet_emit_players; intros ? ?; discriminate
    | case_match ].

Lemma good_refl s : GInv s → good s s [].
Proof.
  intros HI. split; [done|].
  intros gid game Hg _. split; [done|apply quiet_nil].
Qed.

Lemma good_trans s s1 s2 o1 o2 :
  good s s1 o1 → good s1 s2 o2 → good s s2 (o1 ++ o2).
Proof.
  intros (HI1 & H1) (HI2 & H2). split; [done|].
  intros gid game Hg Hf. destruct (H1 _ _ Hg Hf) as [Hg1 Hq1].
  destruct (H2 _ _ Hg1 Hf) as [Hg2 Hq2]. split; [done|by apply quiet_app].
Qed.

(** Emissions other than termination notices do not matter. *)
Lemma good_out s s' o o' :
  good s s' o → (∀ gid, quiet gid o') → good s s' o'.
Proof.
  intros (HI & H) Hq. split; [done|].
  intros gid game Hg Hf. destruct (H _ _ Hg Hf). split; [done|apply Hq].
Qed.

(** A state that differs in the helper maps or the live sockets only. *)
Lemma good_same s s' :
  GInv s → games s' = games s → nextGameId s' = nextGameId s → good s s' [].
Proof.
  intros Hg E1 E3. split.
  - intros gid game. rewrite E1, E3. apply Hg.
  - intros gid game Hgame _. rewrite E1. split; [done|apply quiet_nil].
Qed.

(** Writing back an unfinished game, with emissions that are quiet for
    every other game. *)
Lemma good_put s s' gid game game' out :
  GInv s → games s !! gid = Some game → isFinished game = false →
  game_ok gid game' →
  games s' = <[gid := game']> (games s) →
  nextGameId s' = nextGameId s →
  (∀ gid0, gid0 ≠ gid → quiet gid0 out) →
  good s s' out.
Proof.
  intros Hg Hgame Hnf Hok E1 E3 Hq. split.
  - intros gid' g'. rewrite E1, E3.
    destruct (decide (gid = gid')) as [->|Hne].
    + rewrite lookup_insert_eq. intros [= <-]. split; [|done].
      by destruct (Hg _ _ Hgame).
    + rewrite lookup_insert_ne by done. apply Hg.
  - intros gid' g' Hg' Hf.
    assert (gid' ≠ gid) by (intros ->; congruence).
    split; [|by apply Hq]. rewrite E1. by rewrite lookup_insert_ne.
Qed.

Lemma cleanPlayer_games p s : games (cleanPlayer p s) = games s.
Proof. unfold cleanPlayer. by case_match. Qed.

Lemma cleanPlayer_queue p s : queue (cleanPlayer p s) = queue s.
Proof. unfold cleanPlayer. by case_match. Qed.

Lemma cleanPlayer_nextGameId p s : nextGameId (cleanPlayer p s) = nextGameId s.
Proof. unfold cleanPlayer. by case_match. Qed.

Lemma finishGame_good s gid a :
  GInv s → good s (fst (finishGame s gid a)) (snd (finishGame s gid a)).
Proof.
  intros HI. unfold finishGame.
  destruct (games s !! gid) as [game|] eqn:Hgame; [|by apply good_refl].
  destruct (isFinished game) eqn:Hf; [by apply good_refl|]. cbn [fst snd].
  destruct (HI _ _ Hgame) as [_ (Hid & _ & H0 & H1 & Hm & Hr)].
  apply (good_put s _ gid game
           (set_disconnectTimer None (set_isFinished true game))); try done.
  - by rewrite !cleanPlayer_games.
  - by rewrite !cleanPlayer_nextGameId.
  - intros gid0 Hne. apply quiet_emit_players. intros p [= <-]. cbn. congruence.
Qed.

Lemma maybeStartGame_good s gid :
  GInv s → good s (fst (maybeStartGame s gid)) (snd (maybeStartGame s gid)).
Proof.
  intros HI. unfold maybeStartGame.
  destruct (games s !! gid) as [game|] eqn:Hgame; [|by apply good_refl].
  destruct (isStarted game) eqn:Hs; [by apply good_refl|].
  destruct (isFinished game) eqn:Hf; [by apply good_refl|]. cbn [orb].
  case_match; [by apply good_refl|]. cbn [fst snd].
  destruct (HI _ _ Hgame) as [_ (Hid & Ht & H0 & H1 & Hm & Hr)].
  apply (good_put s _ gid game (set_isStarted true game)); try done.
  intros gid0 _. quiet_tac.
Qed.

Lemma awardRound_ok gid w game : game_ok gid game → game_ok gid (awardRound w game).
Proof.
  intros Hok. unfold awardRound. destruct w as [w|]; [|done].
  case_match; [done|]. destruct (getPlayerIndex game w) as [idx|]; [|done].
  destruct Hok as (Hid & Ht & H0 & H1 & Hm & Hr).
  unfold game_ok. cbn. by destruct (Nat.eqb idx 0).
Qed.

Lemma awardRound_isFinished w game : isFinished (awardRound w game) = isFinished game.
Proof.
  unfold awardRound. destruct w as [w|]; [|done]. case_match; [done|].
  by destruct (getPlayerIndex game w).
Qed.

Lemma scoreRound_ok gid game moveA moveB :
  game_ok gid game → game_ok gid (scoreRound game moveA moveB).
Proof.
  intros Hok. by apply (awardRound_ok gid (roundWinnerOf game moveA moveB)) in Hok.
Qed.

Lemma scoreRound_isFinished game moveA moveB :
  isFinished (scoreRound game moveA moveB) = isFinished game.
Proof. unfold scoreRound. cbn. apply awardRound_isFinished. Qed.

Lemma prepareNextRound_ok gid game :
  game_ok gid game → game_ok gid (prepareNextRound game).
Proof.
  intros Hok. unfold prepareNextRound, isGameOverAt.
  destruct (maxRounds game <=? roundNumber game)%nat eqn:Hle; [done|].
  apply Nat.leb_gt in Hle. destruct Hok as (Hid & Ht & H0 & H1 & Hm & Hr).
  unfold game_ok. cbn. repeat split; try done; lia.
Qed.

Lemma prepareNextRound_isFinished game :
  isFinished (prepareNextRound game) = isFinished game.
Proof. unfold prepareNextRound. by case_match. Qed.

(** The game that round resolution writes back, before termination. *)
Lemma resolved_ok gid game moveA moveB :
  game_ok gid game →
  game_ok gid (set_moves ∅ (prepareNextRound (scoreRound game moveA moveB))).
Proof.
  intros Hok. apply (scoreRound_ok gid game moveA moveB) in Hok.
  by apply prepareNextRound_ok in Hok.
Qed.

Lemma resolveRoundIfReady_good s gid :
  GInv s →
  good s (fst (resolveRoundIfReady s gid)) (snd (resolveRoundIfReady s gid)).
Proof.
  intros HI. unfold resolveRoundIfReady.
  destruct (games s !! gid) as [game|] eqn:Hgame; [|by apply good_refl].
  destruct (isFinished game) eqn:Hf; [by apply good_refl|].
  destruct (moves_get (moves game) (odId (player0 game))) as [moveA|];
    [|by apply good_refl].
  destruct (moves_get (moves game) (odId (player1 game))) as [moveB|];
    [|by apply good_refl].
  destruct (HI _ _ Hgame) as [_ Hok]. cbn zeta.
  set (game4 := set_moves ∅ (prepareNextRound (scoreRound game moveA moveB))).
  assert (good s (put_game gid game4 s) []) as Hput.
  { apply (good_put s _ gid game game4); try done.
    - by apply resolved_ok.
    - intros gid0 _. apply quiet_nil. }
  assert (∀ gid0 g n, quiet gid0 (emit_players s g (RoundCompleted n))) as Hq
    by (intros; quiet_tac).
  destruct (isGameOverAt (scoreRound game moveA moveB)).
  - pose proof (finishGame_good (put_game gid game4 s) gid
        (mkFinishArgs "normal" (winnerByScore (scoreRound game moveA moveB))
                      None None) (proj1 Hput)) as Hg.
    destruct (finishGame (put_game gid game4 s) gid _) as [s2 out2].
    cbn [fst snd] in *.
    eapply good_trans; [|apply Hg]. eapply good_out; [apply Hput|].
    intros gid0. apply Hq.
  - cbn [fst snd]. eapply good_out; [apply Hput|].
    intros gid0. quiet_tac.
Qed.

Lemma finishGame_queue s gid a : queue (fst (finishGame s gid a)) = queue s.
Proof.
  unfold finishGame. repeat case_match; try done.
  cbn [fst]. by rewrite !cleanPlayer_queue.
Qed.

Lemma maybeStartGame_queue s gid : queue (fst (maybeStartGame s gid)) = queue s.
Proof. unfold maybeStartGame. by repeat case_match. Qed.

Lemma resolveRoundIfReady_queue s gid :
  queue (fst (resolveRoundIfReady s gid)) = queue s.
Proof.
  unfold resolveRoundIfReady. repeat case_match; try done.
  match goal with
  | H : finishGame ?s1 ?g ?a = _ |- _ =>
      pose proof (finishGame_queue s1 g a) as Hq; rewrite H in Hq
  end.
  cbn [fst] in *. by rewrite Hq.
Qed.

(** A single emission that is not a termination notice. *)
Lemma good_reject s sid n :
  GInv s → (∀ p, n ≠ GameEnded p) → good s s [(sid, n)].
Proof.
  intros HI Hn. eapply good_out; [by apply good_refl|].
  intros gid. apply quiet_cons; [done|quiet_tac].
Qed.

Lemma graceCallback_good gid idx s :
  GInv s → good s (fst (graceCallback gid idx s)) (snd (graceCallback gid idx s)).
Proof.
  intros HI. unfold graceCallback. repeat case_match; try by apply good_refl.
  by apply finishGame_good.
Qed.

Lemma onTimerFire_good gid s :
  GInv s → good s (fst (onTimerFire gid s)) (snd (onTimerFire gid s)).
Proof.
  intros HI. unfold onTimerFire.
  destruct (games s !! gid) as [game|] eqn:Hgame; [|by apply good_refl].
  destruct (disconnectTimer game) as [t|] eqn:Ht; [|by apply good_refl].
  destruct (timer_pending t); [|by apply good_refl].
  destruct (HI _ _ Hgame) as [_ (Hid & Hfin & H0 & H1 & Hm & Hr)].
  assert (isFinished game = false) as Hf.
  { destruct (isFinished game); [|done]. rewrite Hfin in Ht; done. }
  set (game1 := set_disconnectTimer _ game).
  assert (good s (put_game gid game1 s) []) as Hput.
  { apply (good_put s _ gid game game1); try done.
    - unfold game_ok; cbn. repeat split; try done; try lia. congruence.
    - intros. apply quiet_nil. }
  apply (good_trans s _ _ [] _ Hput). apply graceCallback_good, Hput.
Qed.

Lemma upd_player_ok gid idx f game :
  (∀ p, odId (f p) = odId p) →
  game_ok gid game → game_ok gid (upd_player idx f game).
Proof.
  intros Hf (Hid & Ht & H0 & H1 & Hm & Hr). unfold game_ok. cbn.
  destruct (Nat.eqb idx 0); rewrite ?Hf; done.
Qed.

Lemma onConnect_good sid s :
  GInv s → good s (fst (onConnect sid s)) (snd (onConnect sid s)).
Proof. intros HI. by apply good_same. Qed.

Lemma onLeaveQueue_good sid s :
  GInv s → good s (fst (onLeaveQueue sid s)) (snd (onLeaveQueue sid s)).
Proof.
  intros HI. cbn. eapply good_out; [by apply (good_same s)|].
  intros gid. quiet_tac.
Qed.

Lemma onDisconnect_good sid s :
  GInv s → good s (fst (onDisconnect sid s)) (snd (onDisconnect sid s)).
Proof.
  intros HI. unfold onDisconnect.
  match goal with |- context [match ?o with Some _ => _ | None => (?s4, [])end] =>
    set (s4' := s4); assert (good s s4' []) as H4
  end.
  { apply good_same; try done; subst s4'; by repeat case_match. }
  assert (games s4' = games s) as Eg by (subst s4'; by repeat case_match).
  assert (nextGameId s4' = nextGameId s) as En by (subst s4'; by repeat case_match).
  clearbody s4'. cbn [socketToGameId set_queue set_sockets socketToUser].
  destruct (socketToGameId s !! sid) as [gid|]; [|done].
  destruct (games s4' !! gid) as [game|] eqn:Hgame; [|done].
  destruct (isFinished game) eqn:Hf; [done|].
  destruct (from_option _ _ _) as [idx|]; [|done].
  cbn [fst snd]. destruct H4 as [HI4 _].
  destruct (HI4 _ _ Hgame) as [_ Hok].
  apply (good_trans s s4' _ []); [by apply good_same|].
  match goal with |- good _ (put_game _ ?g _) _ =>
    apply (good_put s4' _ gid game g); try done
  end.
  - apply (upd_player_ok gid idx (set_connected false)) in Hok; [|done].
    destruct Hok as (Hid & Ht & H0 & H1 & Hm & Hr).
    unfold game_ok; cbn. cbn in Hid, H0, H1, Hm, Hr.
    repeat split; try done; try lia. congruence.
  - intros gid0 _. quiet_tac.
Qed.

Lemma onPlayerAccepted_good sid gameId s :
  GInv s →
  good s (fst (onPlayerAccepted sid gameId s)) (snd (onPlayerAccepted sid gameId s)).
Proof.
  intros HI. unfold onPlayerAccepted.
  destruct gameId as [gid|]; [|by apply good_refl].
  destruct (games s !! gid) as [game|] eqn:Hgame; [|by apply good_reject].
  destruct (isFinished game) eqn:Hf; [by apply good_reject|].
  destruct (socketToUser s !! sid) as [u|]; [|by apply good_refl].
  destruct (truthy u); [|by apply good_refl]. cbn [negb].
  destruct (getPlayerIndex game u) as [idx|]; [|by apply good_refl].
  destruct (HI _ _ Hgame) as [_ Hok].
  assert (good s (put_game gid (upd_player idx (set_accepted true) game) s) [])
    as Hput.
  { apply (good_put s _ gid game (upd_player idx (set_accepted true) game));
      try done; [by apply upd_player_ok|intros; apply quiet_nil]. }
  apply (good_trans s _ _ [] _ Hput). apply maybeStartGame_good, Hput.
Qed.

Lemma onJoinGame_good sid gameId u name s :
  GInv s →
  good s (fst (onJoinGame sid gameId u name s))
         (snd (onJoinGame sid gameId u name s)).
Proof.
  intros HI. unfold onJoinGame.
  destruct gameId as [gid|]; [|by apply good_reject].
  destruct (truthy u); [|by apply good_reject]. cbn [negb].
  destruct (games s !! gid) as [game|] eqn:Hgame; [|by apply good_reject].
  destruct (isFinished game) eqn:Hf; [by apply good_reject|].
  destruct (HI _ _ Hgame) as [_ Hok].
  destruct (getPlayerIndex game u) as [idx|].
  - cbn [fst snd].
    match goal with |- good _ (put_game _ ?g _) _ =>
      apply (good_put s _ gid game g); try done
    end.
    + repeat apply upd_player_ok; try done. by case_match; [apply upd_player_ok|].
    + intros gid0 _. quiet_tac.
  - cbn [fst snd]. eapply good_out; [by apply (good_same s)|].
    intros gid0. quiet_tac.
Qed.

Lemma onLeaveGame_good sid gameId s :
  GInv s → good s (fst (onLeaveGame sid gameId s)) (snd (onLeaveGame sid gameId s)).
Proof.
  intros HI. unfold onLeaveGame. repeat case_match; try by apply good_refl.
  by apply finishGame_good.
Qed.

Lemma onSubmitMove_good sid gameId u card value data s :
  GInv s →
  good s (fst (onSubmitMove sid gameId u card value data s))
         (snd (onSubmitMove sid gameId u card value data s)).
Proof.
  intros HI. unfold onSubmitMove.
  destruct gameId as [gid|]; [|by apply good_reject].
  destruct card as [c|]; [|by apply good_reject].
  destruct value as [v|]; [|by apply good_reject].
  destruct (truthy u); [|by apply good_reject]. cbn [negb].
  destruct (games s !! gid) as [game|] eqn:Hgame; [|by apply good_reject].
  destruct (isFinished game) eqn:Hf; [by apply good_reject|].
  destruct (isStarted game); [|by apply good_reject]. cbn [negb orb].
  destruct (getPlayerIndex game u) as [idx|]; [|by apply good_reject].
  destruct (moves_get (moves game) u); [by apply good_reject|].
  destruct (HI _ _ Hgame) as [_ Hok].
  match goal with |- context [resolveRoundIfReady (put_game gid ?g s) gid] =>
    set (game1 := g) end.
  assert (good s (put_game gid game1 s) []) as Hput.
  { apply (good_put s _ gid game game1); try done. intros; apply quiet_nil. }
  pose proof (resolveRoundIfReady_good (put_game gid game1 s) gid (proj1 Hput))
    as Hres.
  destruct (resolveRoundIfReady (put_game gid game1 s) gid) as [s2 out] eqn:E.
  cbn [fst snd] in *.
  pose proof (good_trans _ _ _ _ _ Hput Hres) as [HI2 H2]. split; [done|].
  intros gid0 game0 Hg0 Hf0. destruct (H2 _ _ Hg0 Hf0) as [? Hq]. split; [done|].
  apply quiet_cons; [done|]. apply quiet_app; [quiet_tac|done].
Qed.

(** *** Matchmaking *)

Lemma matchPair_good p1 p2 s :
  GInv s → truthy (q_odId p1) = true → truthy (q_odId p2) = true →
  good s (fst (matchPair p1 p2 s)) (snd (matchPair p1 p2 s)).
Proof.
  intros HI H1 H2. unfold matchPair. cbn [fst snd]. split.
  - intros gid game. cbn.
    destruct (decide (nextGameId s = gid)) as [<-|Hne].
    + rewrite lookup_insert_eq. intros [= <-]. split; [lia|].
      unfold game_ok, newGame, MAX_ROUNDS; cbn. repeat split; try done; lia.
    + rewrite lookup_insert_ne by done. intros Hg.
      destruct (HI _ _ Hg). split; [lia|done].
  - intros gid game Hg _. split.
    + cbn. rewrite lookup_insert_ne; [done|].
      destruct (HI _ _ Hg). lia.
    + quiet_tac.
Qed.

Lemma tryMatchPlayers_from_good q s :
  GInv s → Forall (λ p, truthy (q_odId p) = true) q →
  good s (fst (tryMatchPlayers_from q s)) (snd (tryMatchPlayers_from q s)) ∧
  QInv (queue (fst (tryMatchPlayers_from q s))).
Proof.
  revert s.
  assert (∀ n (q : list QueueEntry) s, (length q ≤ n)%nat → GInv s →
            Forall (λ p, truthy (q_odId p) = true) q →
            good s (fst (tryMatchPlayers_from q s))
                   (snd (tryMatchPlayers_from q s)) ∧
            QInv (queue (fst (tryMatchPlayers_from q s)))) as H.
  { clear q. induction n as [|n IH]; intros q s Hlen HI Hq.
    - destruct q; [|cbn in Hlen; lia]. cbn. split; [by apply good_same|].
      split; [done|cbn; lia].
    - destruct q as [|p1 [|p2 rest]].
      + cbn. split; [by apply good_same|]. split; [done|cbn; lia].
      + cbn. split; [by apply good_same|]. split; [done|cbn; lia].
      + cbn [tryMatchPlayers_from].
        inversion Hq as [|? ? Hp1 Hq1]; subst.
        inversion Hq1 as [|? ? Hp2 Hq2]; subst.
        pose proof (matchPair_good p1 p2 s HI Hp1 Hp2) as Hm.
        destruct (matchPair p1 p2 s) as [s1 out1]. cbn [fst snd] in Hm.
        destruct (IH rest s1) as [Hr Hqr]; [cbn in Hlen; lia|apply Hm|done|].
        destruct (tryMatchPlayers_from rest s1) as [s2 out2].
        cbn [fst snd] in *. split; [|done]. by eapply good_trans. }
  intros s. by apply (H (length q)).
Qed.

Lemma removeFromQueueBySocket_Forall (P : QueueEntry → Prop) sid q :
  Forall P q → Forall P (removeFromQueueBySocket sid q).
Proof.
  induction 1 as [|p q Hp Hq IH]; cbn; [done|]. case_match; [done|].
  by constructor.
Qed.

Lemma removeFromQueueBySocket_length sid q :
  (length (removeFromQueueBySocket sid q) ≤ length q)%nat.
Proof. induction q as [|p q IH]; cbn; [done|]. case_match; cbn; lia. Qed.

Lemma removeFromQueueBySocket_QInv sid q :
  QInv q → QInv (removeFromQueueBySocket sid q).
Proof.
  intros [H1 H2]. split; [by apply removeFromQueueBySocket_Forall|].
  pose proof (removeFromQueueBySocket_length sid q). lia.
Qed.

Lemma onJoinQueue_good sid u name s :
  Inv s →
  good s (fst (onJoinQueue sid u name s)) (snd (onJoinQueue sid u name s)) ∧
  QInv (queue (fst (onJoinQueue sid u name s))).
Proof.
  intros [HI HQ]. unfold onJoinQueue.
  destruct (truthy u) eqn:Hu; [|split; [by apply good_reject|done]].
  destruct (truthy name) eqn:Hn; [|split; [by apply good_reject|done]].
  cbn [negb orb]. unfold tryMatchPlayers.
  match goal with |- context [tryMatchPlayers_from ?q ?s3] =>
    assert (good s s3 []) as H3 by (by apply good_same);
    destruct (tryMatchPlayers_from_good q s3) as [Hg Hq];
      [apply H3| |destruct (tryMatchPlayers_from q s3) as [s4 out]]
  end.
  - cbn. apply Forall_app. split; [|by repeat constructor].
    apply removeFromQueueBySocket_Forall, HQ.
  - cbn [fst snd] in *. split; [|done].
    pose proof (good_trans _ _ _ _ _ H3 Hg) as [HI4 H4]. split; [done|].
    intros gid game Hgame Hf. destruct (H4 _ _ Hgame Hf). split; [done|].
    by apply quiet_cons.
Qed.

(** *** Every event *)

Lemma step_good s e :
  Inv s → good s (fst (step s e)) (snd (step s e)).
Proof.
  intros HI. pose proof HI as [HG HQ]. destruct e; cbn [step].
  - by apply onConnect_good.
  - by apply onDisconnect_good.
  - by apply onJoinQueue_good.
  - by apply onLeaveQueue_good.
  - by apply onPlayerAccepted_good.
  - by apply onJoinGame_good.
  - by apply onLeaveGame_good.
  - by apply onSubmitMove_good.
  - by apply onTimerFire_good.
Qed.

Lemma onDisconnect_queue sid s :
  queue (fst (onDisconnect sid s)) = removeFromQueueBySocket sid (queue s).
Proof. unfold onDisconnect. by repeat case_match. Qed.

Lemma graceCallback_queue gid idx s :
  queue (fst (graceCallback gid idx s)) = queue s.
Proof.
  unfold graceCallback. repeat case_match; try done. apply finishGame_queue.
Qed.

Lemma step_queue s e :
  Inv s → QInv (queue (fst (step s e))).
Proof.
  intros HI. pose proof HI as [HG HQ]. destruct e; cbn [step].
  - done.
  - rewrite onDisconnect_queue. by apply removeFromQueueBySocket_QInv.
  - by apply onJoinQueue_good.
  - by apply removeFromQueueBySocket_QInv.
  - unfold onPlayerAccepted. repeat case_match; try done.
    by rewrite maybeStartGame_queue.
  - unfold onJoinGame. by repeat case_match.
  - unfold onLeaveGame. repeat case_match; try done. by rewrite finishGame_queue.
  - unfold onSubmitMove. repeat case_match; try done;
      match goal with
      | H : resolveRoundIfReady ?s1 ?g = _ |- _ =>
          pose proof (resolveRoundIfReady_queue s1 g) as Hq; rewrite H in Hq
      end;
      cbn [fst] in *; by rewrite Hq.
  - unfold onTimerFire. repeat case_match; try done.
    by rewrite graceCallback_queue.
Qed.

Lemma step_Inv s e : Inv s → Inv (fst (step s e)).
Proof.
  intros HI. split; [apply (step_good s e HI)|by apply step_queue].
Qed.

Lemma initial_Inv : Inv initial.
Proof.
  split; [|split; [constructor|cbn; lia]].
  intros gid game Hg. cbn in Hg. by rewrite lookup_empty in Hg.
Qed.

Theorem reachable_Inv s : reachable s → Inv s.
Proof.
  induction 1 as [|s e _ IH]; [apply initial_Inv|by apply step_Inv].
Qed.

Lemma reachable_run s es : reachable s → reachable (fst (run s es)).
Proof.
  revert s. induction es as [|e es IH]; intros s Hs; [done|].
  cbn [run]. pose proof (reachable_step s e Hs) as H1.
  destruct (step s e) as [s1 out1]. cbn [fst] in H1.
  specialize (IH s1 H1). destruct (run s1 es) as [s2 out2]. done.
Qed.

(** ** Reading and writing a plain object *)

Lemma moves_get_own mvs k mv :
  mvs !! k = Some mv → moves_get mvs k = Some (OwnMove mv).
Proof. intros H. unfold moves_get. by rewrite H. Qed.

Lemma moves_get_None mvs k :
  moves_get mvs k = None → mvs !! k = None ∧ inherited k = false.
Proof.
  unfold moves_get. destruct (mvs !! k); [done|].
  by destruct (inherited k).
Qed.

Lemma moves_get_plain mvs k :
  inherited k = false → moves_get mvs k = OwnMove <$> mvs !! k.
Proof. intros H. unfold moves_get. rewrite H. by destruct (mvs !! k). Qed.

Lemma moves_get_inherited mvs k :
  inherited k = true → ∃ slot, moves_get mvs k = Some slot.
Proof.
  intros H. unfold moves_get. rewrite H. destruct (mvs !! k); by eexists.
Qed.

(** Only a stored move has a card to use. *)
Lemma addUsedCard_own mvs u used :
  addUsedCard mvs u used =
    match mvs !! u with
    | None => used
    | Some mv =>
        if existsb (Z.eqb (cardId mv)) used then used else used ++ [cardId mv]
    end.
Proof.
  unfold addUsedCard, moves_get. destruct (mvs !! u); [done|].
  by destruct (inherited u).
Qed.

Lemma js_set_insert {A} k (v : A) m :
  k ≠ "__proto__" → js_set k v m = <[k := v]> m.
Proof.
  intros Hk. unfold js_set. destruct (m !! k); [done|].
  by destruct (String.eqb_spec k "__proto__").
Qed.

Lemma js_set_proto {A} (v : A) m :
  m !! "__proto__" = None → js_set "__proto__" v m = m.
Proof. intros H. unfold js_set. by rewrite H. Qed.

Lemma js_set_lookup_ne {A} k k' (v : A) m :
  k ≠ k' → js_set k v m !! k' = m !! k'.
Proof.
  intros Hne. unfold js_set.
  destruct (m !! k); [by rewrite lookup_insert_ne|].
  destruct (String.eqb k "__proto__"); [done|]. by rewrite lookup_insert_ne.
Qed.

Lemma js_set_lookup {A} k (v : A) m :
  k ≠ "__proto__" → js_set k v m !! k = Some v.
Proof. intros Hk. rewrite js_set_insert by done. apply lookup_insert_eq. Qed.

Lemma js_set_proto_absent {A} k (v : A) m :
  m !! "__proto__" = None → js_set k v m !! "__proto__" = None.
Proof.
  intros H. destruct (String.eqb_spec k "__proto__") as [->|Hne].
  - by rewrite js_set_proto.
  - by rewrite js_set_lookup_ne.
Qed.

(** ** What termination does to the state *)

Lemma finishGame_unfold s gid game a :
  games s !! gid = Some game → isFinished game = false →
  finishGame s gid a =
    (let ended := set_disconnectTimer None (set_isFinished true game) in
     cleanPlayer (player1 ended) (cleanPlayer (player0 ended) (put_game gid ended s)),
     emit_players s (set_isFinished true game)
       (GameEnded (gameEndedPayload (set_isFinished true game) a))).
Proof. intros Hg Hf. unfold finishGame. by rewrite Hg, Hf. Qed.

Lemma finishGame_finished s gid game a :
  games s !! gid = Some game → isFinished game = true →
  finishGame s gid a = (s, []).
Proof. intros Hg Hf. unfold finishGame. by rewrite Hg, Hf. Qed.

Lemma finishGame_lookup s gid game a :
  games s !! gid = Some game → isFinished game = false →
  games (fst (finishGame s gid a)) !! gid =
    Some (set_disconnectTimer None (set_isFinished true game)).
Proof.
  intros Hg Hf. rewrite (finishGame_unfold _ _ _ _ Hg Hf). cbn [fst].
  rewrite !cleanPlayer_games. cbn. apply lookup_insert_eq.
Qed.

Lemma emit_players_ext s s' game game' n :
  sockets s' = sockets s →
  socketId (player0 game') = socketId (player0 game) →
  socketId (player1 game') = socketId (player1 game) →
  emit_players s' game' n = emit_players s game n.
Proof.
  intros E E0 E1. unfold emit_players, socket_is_live. by rewrite E, E0, E1.
Qed.

(** Who receives what [emit_players] sends: the players whose connection
    identifier is set and live. *)
Lemma emit_players_spec s game n a :
  a ∈ emit_players s game n ↔
  ∃ pl, (pl = player0 game ∨ pl = player1 game) ∧
        truthy (socketId pl) = true ∧ socketId pl ∈ sockets s ∧
        a = (socketId pl, n).
Proof.
  unfold emit_players, socket_is_live. rewrite elem_of_app. split.
  - intros [H|H].
    + destruct (truthy (socketId (player0 game))) eqn:T;
        [|by apply elem_of_nil in H].
      destruct (bool_decide (socketId (player0 game) ∈ sockets s)) eqn:B;
        [|by apply elem_of_nil in H].
      apply bool_decide_eq_true in B. apply list_elem_of_singleton in H.
      exists (player0 game). by auto.
    + destruct (truthy (socketId (player1 game))) eqn:T;
        [|by apply elem_of_nil in H].
      destruct (bool_decide (socketId (player1 game) ∈ sockets s)) eqn:B;
        [|by apply elem_of_nil in H].
      apply bool_decide_eq_true in B. apply list_elem_of_singleton in H.
      exists (player1 game). by auto.
  - intros (pl & [->| ->] & T & B & ->); [left|right];
      rewrite T, bool_decide_eq_true_2 by done;
      by apply list_elem_of_singleton.
Qed.

Lemma run_Inv s es : Inv s → Inv (fst (run s es)).
Proof.
  revert s. induction es as [|e es IH]; intros s HI; [done|].
  cbn [run]. pose proof (step_Inv s e HI) as H1.
  destruct (step s e) as [s1 out1]. cbn [fst] in H1.
  specialize (IH s1 H1). by destruct (run s1 es).
Qed.

Lemma run_good s es : Inv s → good s (fst (run s es)) (snd (run s es)).
Proof.
  revert s. induction es as [|e es IH]; intros s HI.
  - apply good_refl, HI.
  - cbn [run]. pose proof (step_Inv s e HI) as H1.
    pose proof (step_good s e HI) as G1.
    destruct (step s e) as [s1 out1]. cbn [fst snd] in *.
    specialize (IH s1 H1). destruct (run s1 es) as [s2 out2].
    cbn [fst snd] in *. by eapply good_trans.
Qed.

(** ** The reason of a termination notice *)

Lemma reasonTagOf_cases reason :
  reasonTagOf reason = "forfeit" ∨ reasonTagOf reason = "opponent-disconnected".
Proof. unfold reasonTagOf. repeat case_match; auto. Qed.

(** ** Round resolution, step by step *)

Lemma awardRound_sockets w game :
  socketId (player0 (awardRound w game)) = socketId (player0 game) ∧
  socketId (player1 (awardRound w game)) = socketId (player1 game).
Proof.
  unfold awardRound. destruct w as [w|]; [|done]. case_match; [done|].
  destruct (getPlayerIndex game w) as [idx|]; [|done].
  cbn. by destruct (Nat.eqb idx 0).
Qed.

Lemma resolved_sockets game moveA moveB :
  let game3 := prepareNextRound (scoreRound game moveA moveB) in
  socketId (player0 game3) = socketId (player0 game) ∧
  socketId (player1 game3) = socketId (player1 game).
Proof.
  cbn zeta. unfold prepareNextRound.
  destruct (awardRound_sockets (roundWinnerOf game moveA moveB) game).
  by case_match.
Qed.

Lemma resolveRoundIfReady_unfold s gid game moveA moveB :
  games s !! gid = Some game → isFinished game = false →
  moves_get (moves game) (odId (player0 game)) = Some moveA →
  moves_get (moves game) (odId (player1 game)) = Some moveB →
  resolveRoundIfReady s gid =
    let game2 := scoreRound game moveA moveB in
    let game4 := set_moves ∅ (prepareNextRound game2) in
    let s1 := put_game gid game4 s in
    let out :=
      emit_players s game
        (RoundCompleted (roundCompletedPayload game moveA moveB)) in
    if isGameOverAt game2 then
      let ended := set_isFinished true game4 in
      let a := mkFinishArgs "normal" (winnerByScore game2) None None in
      (fst (finishGame s1 gid a),
       out ++ emit_players s game (GameEnded (gameEndedPayload ended a)))
    else (s1, out ++ emitGameState s1 gid).
Proof.
  intros Hg Hf HA HB. unfold resolveRoundIfReady. rewrite Hg, Hf, HA, HB.
  cbn zeta. destruct (resolved_sockets game moveA moveB) as [E0 E1].
  rewrite (emit_players_ext s s _ game) by done.
  destruct (isGameOverAt _); [|done].
  match goal with |- context [finishGame ?s1 gid ?a] =>
    rewrite (finishGame_unfold s1 gid
      (set_moves ∅ (prepareNextRound (scoreRound game moveA moveB))) a)
  end.
  - cbn [fst snd]. f_equal. f_equal. by apply emit_players_ext.
  - cbn. apply lookup_insert_eq.
  - cbn. by rewrite prepareNextRound_isFinished, scoreRound_isFinished.
Qed.

Lemma emitGameState_not_ended s gid e :
  e ∈ emitGameState s gid → game_ended_of e = None.
Proof.
  unfold emitGameState, game_ended_of.
  destruct (games s !! gid); [|by intros ?%elem_of_nil].
  by intros ->%emit_players_elem.
Qed.

(** Whatever round resolution announces as the end of a game is announced
    as a forfeit. *)
Lemma resolveRoundIfReady_ending s gid e p :
  e ∈ snd (resolveRoundIfReady s gid) → game_ended_of e = Some p →
  ge_reason p = "forfeit".
Proof.
  destruct (games s !! gid) as [game|] eqn:Hg;
    [|unfold resolveRoundIfReady; rewrite Hg; by intros ?%elem_of_nil].
  destruct (isFinished game) eqn:Hf;
    [unfold resolveRoundIfReady; rewrite Hg, Hf; by intros ?%elem_of_nil|].
  destruct (moves_get (moves game) (odId (player0 game))) as [moveA|] eqn:HA;
    [|unfold resolveRoundIfReady; rewrite Hg, Hf, HA; by intros ?%elem_of_nil].
  destruct (moves_get (moves game) (odId (player1 game))) as [moveB|] eqn:HB;
    [|unfold resolveRoundIfReady; rewrite Hg, Hf, HA, HB; by intros ?%elem_of_nil].
  rewrite (resolveRoundIfReady_unfold _ _ _ _ _ Hg Hf HA HB). cbn zeta.
  unfold game_ended_of.
  destruct (isGameOverAt _); cbn [snd]; intros [H|H]%elem_of_app Hp.
  - apply emit_players_elem in H. rewrite H in Hp. discriminate.
  - apply emit_players_elem in H. rewrite H in Hp. by injection Hp as <-.
  - apply emit_players_elem in H. rewrite H in Hp. discriminate.
  - apply emitGameState_not_ended in H. unfold game_ended_of in H. congruence.
Qed.

(** C1 (code at the failing input).  Players A and B are paired, both
    accept and five rounds are played to the end: A wins three rounds to
    one.  The game ends by normal completion, with the ranking points of a
    normal win and loss, yet both termination notices carry the reason tag
    of a forfeit. *)
Theorem normal_completion_is_tagged_forfeit :
  let out := snd (run s_active five_rounds) in
  let notices := omap game_ended_of out in
  ge_reason <$> notices = ["forfeit"; "forfeit"] ∧
  ge_winner <$> notices = ["A"; "A"] ∧
  (λ p, ge_rpChange p !! "A") <$> notices = [Some RP_WIN; Some RP_WIN] ∧
  (λ p, ge_rpChange p !! "B") <$> notices = [Some RP_LOSS; Some RP_LOSS] ∧
  (λ p, ge_scores p !! "A") <$> notices = [Some 3; Some 3] ∧
  (λ p, ge_scores p !! "B") <$> notices = [Some 1; Some 1].
Proof. vm_compute. repeat split; reflexivity. Qed.

(** ** The round metadata of a round-completed notice *)

Lemma awardRound_roundNumber w game :
  roundNumber (awardRound w game) = roundNumber game ∧
  maxRounds (awardRound w game) = maxRounds game ∧
  currentRound (awardRound w game) = currentRound game.
Proof.
  unfold awardRound. destruct w as [w|]; [|done]. case_match; [done|].
  by destruct (getPlayerIndex game w).
Qed.

Lemma isGameOverAt_scoreRound game moveA moveB :
  isGameOverAt (scoreRound game moveA moveB) = isGameOverAt game.
Proof.
  unfold isGameOverAt, scoreRound. cbn.
  by destruct (awardRound_roundNumber (roundWinnerOf game moveA moveB) game)
    as (-> & -> & _).
Qed.

Lemma scoreRound_round game moveA moveB :
  roundNumber (scoreRound game moveA moveB) = roundNumber game ∧
  currentRound (scoreRound game moveA moveB) = currentRound game.
Proof.
  unfold scoreRound. cbn.
  by destruct (awardRound_roundNumber (roundWinnerOf game moveA moveB) game)
    as (-> & _ & ->).
Qed.

(** While the game goes on, the metadata of the payload is the round that
    comes next, the same as its [nextRound]; at the last round it is the
    round just resolved. *)
Lemma roundCompletedPayload_meta game moveA moveB :
  let p := roundCompletedPayload game moveA moveB in
  if isGameOverAt game
  then round_meta p = currentRound game ∧ rc_nextRound p = None
  else round_meta p = getRoundInfo (roundNumber game + 1) ∧
       rc_nextRound p = Some (getRoundInfo (roundNumber game + 1)).
Proof.
  cbn zeta. unfold roundCompletedPayload, round_meta, prepareNextRound.
  cbn zeta. rewrite !isGameOverAt_scoreRound.
  destruct (scoreRound_round game moveA moveB) as (Hr & Hc).
  destruct (isGameOverAt game);
    cbn [rc_round rc_stat rc_isGKRound rc_nextRound currentRound set_round].
  - rewrite Hc. by destruct (currentRound game).
  - rewrite Hr. by destruct (getRoundInfo (roundNumber game + 1)).
Qed.

(** C2 (code at the failing input).  In the active game, round 1 is the
    round of the stat pace.  A has played 85 and B now plays 60, which
    resolves round 1 in favour of A: the round-completed notices describe
    round 2, the stat shooting, in their round metadata, the same round as
    in their [nextRound]. *)
Theorem round_completed_describes_the_next_round :
  let s := fst (run s_active [moveOf "s1" "A" 7 85]) in
  let out := snd (step s (moveOf "s2" "B" 12 60)) in
  let notices := omap round_completed_of out in
  currentRound <$> games s !! 0 = Some (mkRoundInfo 1 "pace" false) ∧
  round_meta <$> notices =
    [mkRoundInfo 2 "shooting" false; mkRoundInfo 2 "shooting" false] ∧
  rc_nextRound <$> notices =
    [Some (mkRoundInfo 2 "shooting" false); Some (mkRoundInfo 2 "shooting" false)] ∧
  rc_roundWinner <$> notices = [Some "A"; Some "A"] ∧
  rc_isGameOver <$> notices = [false; false].
Proof. vm_compute. repeat split; reflexivity. Qed.

(** ** The registry after a termination *)

Lemma cleanPlayer_userToGameId p s :
  userToGameId (cleanPlayer p s) = delete (odId p) (userToGameId s).
Proof. unfold cleanPlayer. by case_match. Qed.

Lemma cleanPlayer_socketToGameId p s :
  socketToGameId (cleanPlayer p s) =
    if truthy (socketId p) then delete (socketId p) (socketToGameId s)
    else socketToGameId s.
Proof. unfold cleanPlayer. by case_match. Qed.

(** A join-game that names no game of the store, or a finished one, is
    answered with the error and changes nothing. *)
Lemma join_game_unknown_session s sid gid u name :
  truthy u = true →
  (games s !! gid = None ∨
   ∃ game, games s !! gid = Some game ∧ isFinished game = true) →
  step s (JoinGame sid (Some gid) u name) =
    (s, [(sid, GameError "Game not found" "GAME_NOT_FOUND" (Some gid))]).
Proof.
  intros Hu H. cbn [step]. unfold onJoinGame. rewrite Hu. cbn [negb].
  destruct H as [->|(game & -> & ->)]; done.
Qed.

(** C3 (counterexample).  B forfeits the active game [0]: the game is
    terminated, and the session identifier [0] still maps to the game
    object. *)
Lemma finished_session_stays_in_games :
  ¬ unrouted (fst (run s_active [LeaveGame "s2" (Some 0)])) 0 "A" "B".
Proof. intros [H _]. vm_compute in H. discriminate. Qed.

(** C3 (amended).  Termination of an unfinished session removes the
    player-to-session entries of its two players and the
    connection-to-session entries of their current connections; the session
    object stays in [games] under its identifier, finished and without a
    timer, and the handlers that are given its identifier answer as for an
    unknown game; a second termination request changes nothing and emits
    nothing. *)
Theorem finishGame_removes_the_players_routes
    (s : State) (gid : nat) (game : Game) (a a' : FinishArgs) :
  games s !! gid = Some game → isFinished game = false →
  let s1 := fst (finishGame s gid a) in
  games s1 !! gid = Some (set_disconnectTimer None (set_isFinished true game)) ∧
  userToGameId s1 !! odId (player0 game) = None ∧
  userToGameId s1 !! odId (player1 game) = None ∧
  (truthy (socketId (player0 game)) = true →
     socketToGameId s1 !! socketId (player0 game) = None) ∧
  (truthy (socketId (player1 game)) = true →
     socketToGameId s1 !! socketId (player1 game) = None) ∧
  finishGame s1 gid a' = (s1, []) ∧
  ∀ sid u name card value data,
    truthy u = true →
    step s1 (JoinGame sid (Some gid) u name) =
      (s1, [(sid, GameError "Game not found" "GAME_NOT_FOUND" (Some gid))]) ∧
    step s1 (PlayerAccepted sid (Some gid)) =
      (s1, [(sid, GameError "Game not found" "GAME_NOT_FOUND" (Some gid))]) ∧
    step s1 (LeaveGame sid (Some gid)) = (s1, []) ∧
    step s1 (SubmitMove sid (Some gid) u (Some card) (Some value) data) =
      (s1, [(sid, MoveError "Game not available" "GAME_NOT_AVAILABLE")]).
Proof.
  intros Hg Hf s1.
  pose proof (finishGame_lookup s gid game a Hg Hf) as Hl. fold s1 in Hl.
  split; [done|].
  assert (userToGameId s1 =
            delete (odId (player1 game))
              (delete (odId (player0 game)) (userToGameId s))) as Eu.
  { subst s1. rewrite (finishGame_unfold _ _ _ _ Hg Hf). cbn [fst].
    by rewrite !cleanPlayer_userToGameId. }
  assert (socketToGameId s1 =
            let m0 := if truthy (socketId (player0 game))
                      then delete (socketId (player0 game)) (socketToGameId s)
                      else socketToGameId s in
            if truthy (socketId (player1 game))
            then delete (socketId (player1 game)) m0 else m0) as Es.
  { subst s1. rewrite (finishGame_unfold _ _ _ _ Hg Hf). cbn [fst].
    by rewrite !cleanPlayer_socketToGameId. }
  rewrite Eu, Es. cbn zeta.
  split; [rewrite lookup_delete; case_decide; [done|apply lookup_delete_eq]|].
  split; [apply lookup_delete_eq|].
  split.
  { intros H0. rewrite H0.
    destruct (truthy (socketId (player1 game))); [|apply lookup_delete_eq].
    rewrite lookup_delete. case_decide; [done|apply lookup_delete_eq]. }
  split.
  { intros H1. rewrite H1. apply lookup_delete_eq. }
  split; [by apply (finishGame_finished s1 gid _ a' Hl)|].
  intros sid u name card value data Hu.
  split; [apply join_game_unknown_session; [done|right; eauto]|].
  cbn [step]. unfold onPlayerAccepted, onLeaveGame, onSubmitMove.
  by rewrite Hl, Hu.
Qed.

Lemma s_active_game0 : games s_active !! 0 = Some game0_active.
Proof. vm_compute. reflexivity. Qed.

Lemma s_paired_game0 : games s_paired !! 0 = Some game0_paired.
Proof. vm_compute. reflexivity. Qed.

Lemma finishGame_removes_the_players_routes_witness :
  games s_active !! 0 = Some game0_active ∧
  isFinished game0_active = false ∧
  let s1 := fst (finishGame s_active 0 (mkFinishArgs "forfeit" (Some "A") (Some "B") None)) in
  userToGameId s1 !! "A" = None ∧ userToGameId s1 !! "B" = None ∧
  socketToGameId s1 !! "s1" = None ∧ socketToGameId s1 !! "s2" = None.
Proof.
  split; [exact s_active_game0|]. split; [reflexivity|].
  destruct (finishGame_removes_the_players_routes s_active 0 game0_active
              (mkFinishArgs "forfeit" (Some "A") (Some "B") None)
              (mkFinishArgs "forfeit" (Some "A") (Some "B") None)
              s_active_game0 eq_refl) as (_ & HA & HB & H1 & H2 & _ & _).
  intros s1. exact (conj HA (conj HB (conj (H1 eq_refl) (H2 eq_refl)))).
Defined.

(** ** Queueing while in a session *)

Lemma reachable_s_paired : reachable s_paired.
Proof. apply reachable_run, reachable_initial. Qed.

Lemma reachable_s_active : reachable s_active.
Proof. apply reachable_run, reachable_s_paired. Qed.

(** C4 (counterexample).  A is a member of the active game [0], queues
    again and is paired with C into the game [1]: both games are
    unfinished and A holds a slot in each. *)
Lemma player_in_two_unfinished_sessions :
  ¬ (∀ s, reachable s → one_session_per_player s).
Proof.
  intros H.
  specialize (H (fst (run s_active queue_again))
                (reachable_run _ _ reachable_s_active)).
  assert (∃ g0 g1,
            games (fst (run s_active queue_again)) !! 0 = Some g0 ∧
            games (fst (run s_active queue_again)) !! 1 = Some g1 ∧
            isFinished g0 = false ∧ isFinished g1 = false ∧
            getPlayerIndex g0 "A" = Some 0 ∧ getPlayerIndex g1 "A" = Some 0)
    as (g0 & g1 & H0 & H1 & F0 & F1 & M0 & M1).
  { do 2 eexists. split; [vm_compute; reflexivity|].
    split; [vm_compute; reflexivity|]. repeat split. }
  specialize (H 0 1 g0 g1 "A" H0 H1 F0 F1).
  unfold is_member in H. rewrite M0, M1 in H.
  discriminate H; by eexists.
Qed.

Lemma removeFromQueueBySocket_short sid q :
  (length q ≤ 1)%nat →
  removeFromQueueBySocket sid q = [] ∨
  ∃ p, q = [p] ∧ removeFromQueueBySocket sid q = [p].
Proof.
  destruct q as [|p [|p' q]]; cbn; [auto| |lia]. intros _.
  case_match; eauto.
Qed.

(** C4 (amended).  In every reachable state at most one entry waits in
    the queue.  A join-queue that carries a player identifier and a user
    name is always accepted: the previous entry of the connection is
    dropped, and when the entry [p] of another connection is waiting the
    two are paired at once into a new session, under a fresh identifier,
    with no look at the sessions either player already belongs to. *)
Theorem join_queue_pairs_without_membership_test
    (s : State) (sid u name : string) :
  reachable s → truthy u = true → truthy name = true →
  let s' := fst (step s (JoinQueue sid u name)) in
  let me := mkQueueEntry sid u name in
  (length (queue s) ≤ 1)%nat ∧
  match removeFromQueueBySocket sid (queue s) with
  | [] => queue s' = [me] ∧ games s' = games s
  | p :: _ =>
      queue s' = [] ∧
      games s !! nextGameId s = None ∧
      games s' = <[nextGameId s := newGame (nextGameId s) p me]> (games s)
  end.
Proof.
  intros Hr Hu Hn s' me. destruct (reachable_Inv s Hr) as [HG [_ Hlen]].
  split; [done|]. subst s'. cbn [step]. unfold onJoinQueue.
  rewrite Hu, Hn. cbn [negb orb]. unfold tryMatchPlayers.
  cbn [queue set_queue set_userToSocket set_socketToUser].
  destruct (removeFromQueueBySocket_short sid (queue s) Hlen)
    as [->|(p & _ & ->)]; cbn; [done|].
  split; [done|]. split; [|done].
  destruct (games s !! nextGameId s) as [g|] eqn:Hg; [|done].
  destruct (HG _ _ Hg). lia.
Qed.

Lemma join_queue_pairs_without_membership_test_witness :
  let s := fst (run s_active [JoinQueue "s1" "A" "alice"]) in
  let s' := fst (step s (JoinQueue "s3" "C" "carol")) in
  reachable s ∧ truthy "C" = true ∧ truthy "carol" = true ∧
  queue s' = [] ∧
  games s' = <[1 := newGame 1 (mkQueueEntry "s1" "A" "alice")
                              (mkQueueEntry "s3" "C" "carol")]> (games s).
Proof.
  intros s s'.
  assert (reachable s) as Hr by apply reachable_run, reachable_s_active.
  split; [exact Hr|]. split; [reflexivity|]. split; [reflexivity|].
  destruct (join_queue_pairs_without_membership_test s "s3" "C" "carol"
              Hr eq_refl eq_refl) as [_ Hq].
  exact (conj (proj1 Hq) (proj2 (proj2 Hq))).
Defined.

(** ** Rejoining *)

(** C5 (code at the failing input).  The connection [s3] asks to join the
    game [0] of A and B as the player C, who holds no slot of it.  The
    answer is the error NOT_IN_GAME, and the four helper maps now bind the
    connection [s3], the player C and the game [0] to one another. *)
Theorem join_game_by_a_stranger_binds_the_helper_maps :
  let r := step s_paired (JoinGame "s3" (Some 0) "C" "carol") in
  snd r = [("s3", GameError "Player not part of this game" "NOT_IN_GAME" (Some 0))] ∧
  games (fst r) = games s_paired ∧
  (socketToUser s_paired !! "s3" = None ∧ socketToUser (fst r) !! "s3" = Some "C") ∧
  (userToSocket s_paired !! "C" = None ∧ userToSocket (fst r) !! "C" = Some "s3") ∧
  (socketToGameId s_paired !! "s3" = None ∧ socketToGameId (fst r) !! "s3" = Some 0) ∧
  (userToGameId s_paired !! "C" = None ∧ userToGameId (fst r) !! "C" = Some 0) ∧
  fst r ≠ s_paired.
Proof.
  cbn zeta. split; [vm_compute; reflexivity|]. split; [vm_compute; reflexivity|].
  do 4 (split; [split; vm_compute; reflexivity|]).
  intros E. apply (f_equal (λ s, userToGameId s !! "C")) in E.
  vm_compute in E. discriminate.
Qed.

(** ** Termination is a latch *)

Lemma finishGame_Inv s gid a : Inv s → Inv (fst (finishGame s gid a)).
Proof.
  intros [HG HQ]. split; [by apply finishGame_good|].
  by rewrite finishGame_queue.
Qed.

(** C6.  The first termination of a session emits one termination payload,
    to the players whose connections are live.  Any further termination
    request leaves the state as it is and emits nothing; and whatever events
    follow (moves, forfeits, disconnects, timers), the finished session
    object is never changed again and no second termination notice of the
    session is emitted. *)
Theorem termination_is_idempotent
    (s : State) (gid : nat) (game : Game) (a a' : FinishArgs) (es : list Event) :
  reachable s → games s !! gid = Some game → isFinished game = false →
  let s1 := fst (finishGame s gid a) in
  let ended := set_isFinished true game in
  snd (finishGame s gid a) =
    emit_players s ended (GameEnded (gameEndedPayload ended a)) ∧
  finishGame s1 gid a' = (s1, []) ∧
  ∃ game1,
    games s1 !! gid = Some game1 ∧ isFinished game1 = true ∧
    games (fst (run s1 es)) !! gid = Some game1 ∧
    ∀ sid p, (sid, GameEnded p) ∈ snd (run s1 es) → ge_gameId p ≠ gid.
Proof.
  intros Hr Hg Hf s1 ended.
  pose proof (finishGame_lookup s gid game a Hg Hf) as Hl. fold s1 in Hl.
  split; [by rewrite (finishGame_unfold _ _ _ _ Hg Hf)|].
  split; [by apply (finishGame_finished s1 gid _ a' Hl)|].
  eexists. split; [exact Hl|]. split; [done|].
  assert (Inv s1) as HI by apply finishGame_Inv, reachable_Inv, Hr.
  destruct (run_good s1 es HI) as [_ Hfrozen].
  destruct (Hfrozen _ _ Hl eq_refl) as [Hk Hq]. split; [exact Hk|exact Hq].
Qed.

Lemma termination_is_idempotent_witness :
  let a := mkFinishArgs "forfeit" (Some "A") (Some "B") None in
  let s1 := fst (finishGame s_active 0 a) in
  let es := [ TimerFire 0; Disconnect "s1"; TimerFire 0;
              LeaveGame "s1" (Some 0); moveOf "s2" "B" 12 60 ] in
  reachable s_active ∧ games s_active !! 0 = Some game0_active ∧
  isFinished game0_active = false ∧
  finishGame s1 0 a = (s1, []) ∧
  games (fst (run s1 es)) !! 0 = games s1 !! 0.
Proof.
  intros a s1 es.
  split; [exact reachable_s_active|]. split; [exact s_active_game0|].
  split; [reflexivity|].
  destruct (termination_is_idempotent s_active 0 game0_active a a es
              reachable_s_active s_active_game0 eq_refl)
    as (_ & Hagain & game1 & Hl & _ & Hk & _).
  split; [exact Hagain|]. exact (eq_trans Hk (eq_sym Hl)).
Defined.

(** ** Members of a game *)

Lemma getPlayerIndex_Some game u idx :
  getPlayerIndex game u = Some idx → odId (player_at idx game) = u.
Proof.
  unfold getPlayerIndex.
  destruct (String.eqb_spec (odId (player0 game)) u) as [E0|_];
    [by intros [= <-]|].
  destruct (String.eqb_spec (odId (player1 game)) u) as [E1|_];
    [by intros [= <-]|done].
Qed.

Lemma member_truthy gid game u idx :
  game_ok gid game → getPlayerIndex game u = Some idx → truthy u = true.
Proof.
  intros (_ & _ & H0 & H1 & _) Hi. rewrite <- (getPlayerIndex_Some _ _ _ Hi).
  unfold player_at. by destruct (Nat.eqb idx 0).
Qed.

Lemma truthy_false s : truthy s = false → s = "".
Proof.
  unfold truthy. destruct (String.eqb_spec s ""); [done|discriminate].
Qed.

(** ** A move already pending *)

(** C9.  In an active session, a submit-move of a member who already holds
    a pending move for the round is answered with the error
    MOVE_ALREADY_SUBMITTED and changes nothing: the whole state, and with it
    the pending move, is as before. *)
Theorem second_move_is_rejected
    (s : State) (sid : string) (gid : nat) (game : Game) (u : string)
    (idx : nat) (mv : Move) (card : Z) (value : Q) (data : option string) :
  reachable s → games s !! gid = Some game →
  isStarted game = true → isFinished game = false →
  getPlayerIndex game u = Some idx → moves game !! u = Some mv →
  step s (SubmitMove sid (Some gid) u (Some card) (Some value) data) =
    (s, [(sid, MoveError "Move already submitted for this round"
                         "MOVE_ALREADY_SUBMITTED")]).
Proof.
  intros Hr Hg Hs Hf Hi Hm. destruct (reachable_Inv s Hr) as [HG _].
  destruct (HG _ _ Hg) as [_ Hok].
  cbn [step]. unfold onSubmitMove.
  rewrite (member_truthy _ _ _ _ Hok Hi), Hg, Hf, Hs, Hi.
  by rewrite (moves_get_own _ _ _ Hm).
Qed.

Lemma second_move_is_rejected_witness :
  let s := fst (run s_active [moveOf "s1" "A" 7 85]) in
  reachable s ∧ games s !! 0 = Some game0_moved ∧
  isStarted game0_moved = true ∧ isFinished game0_moved = false ∧
  getPlayerIndex game0_moved "A" = Some 0 ∧
  moves game0_moved !! "A" = Some (mkMove "A" 7 85 None) ∧
  step s (moveOf "s1" "A" 9 99) =
    (s, [("s1", MoveError "Move already submitted for this round"
                          "MOVE_ALREADY_SUBMITTED")]).
Proof.
  intros s.
  assert (reachable s) as Hr by apply reachable_run, reachable_s_active.
  assert (games s !! 0 = Some game0_moved) as Hg by (vm_compute; reflexivity).
  assert (moves game0_moved !! "A" = Some (mkMove "A" 7 85 None)) as Hm
    by (vm_compute; reflexivity).
  split; [exact Hr|]. split; [exact Hg|]. do 3 (split; [reflexivity|]).
  split; [exact Hm|].
  exact (second_move_is_rejected s "s1" 0 game0_moved "A" 0
           (mkMove "A" 7 85 None) 9 99 None Hr Hg eq_refl eq_refl eq_refl Hm).
Defined.

(** ** Losing a connection *)

Lemma player_at_upd_same idx f game :
  player_at idx (upd_player idx f game) = f (player_at idx game).
Proof. unfold player_at, upd_player. cbn. by destruct (Nat.eqb idx 0). Qed.

Lemma player_at_upd_opponent idx f game :
  player_at (getOpponentIndex idx) (upd_player idx f game) =
    player_at (getOpponentIndex idx) game.
Proof.
  unfold player_at, upd_player, getOpponentIndex. cbn.
  by destruct (Nat.eqb idx 0).
Qed.




Lemma upd_player_sockets idx f game :
  (∀ p, socketId (f p) = socketId p) →
  socketId (player0 (upd_player idx f game)) = socketId (player0 game) ∧
  socketId (player1 (upd_player idx f game)) = socketId (player1 game).
Proof. intros Hf. cbn. destruct (Nat.eqb idx 0); by rewrite ?Hf. Qed.




Lemma s_paired_socket_s2 :
  socketToGameId s_paired !! "s2" = Some 0 ∧
  socketToUser s_paired !! "s2" = Some "B".
Proof. split; vm_compute; reflexivity. Qed.

(** ** Round resolution and scoring *)

Lemma roundWinnerOf_cases game (moveA moveB : Move) :
  (statValue moveB < statValue moveA ∧
   roundWinnerOf game (OwnMove moveA) (OwnMove moveB)
     = Some (odId (player0 game)))%Q ∨
  (statValue moveA < statValue moveB ∧
   roundWinnerOf game (OwnMove moveA) (OwnMove moveB)
     = Some (odId (player1 game)))%Q ∨
  (statValue moveA == statValue moveB ∧
   roundWinnerOf game (OwnMove moveA) (OwnMove moveB) = None)%Q.
Proof.
  unfold roundWinnerOf, js_eq, js_gt, slot_statValue, Qgtb.
  destruct (Qeq_bool (statValue moveA) (statValue moveB)) eqn:He.
  - right. right. split; [by apply Qeq_bool_iff|done].
  - destruct (Qle_bool (statValue moveA) (statValue moveB)) eqn:Hle; cbn [negb].
    + right. left. split; [|done]. apply Qle_bool_iff in Hle.
      apply Qle_lteq in Hle as [Hlt|Heq]; [done|].
      apply Qeq_bool_iff in Heq. congruence.
    + left. split; [|done]. apply Qnot_le_lt. intros Hle'.
      apply Qle_bool_iff in Hle'. congruence.
Qed.

Lemma awardRound_player0 game :
  truthy (odId (player0 game)) = true →
  let game1 := awardRound (Some (odId (player0 game))) game in
  score (player0 game1) = score (player0 game) + 1 ∧
  score (player1 game1) = score (player1 game).
Proof.
  intros H0. unfold awardRound, getPlayerIndex.
  rewrite H0, String.eqb_refl. done.
Qed.

Lemma awardRound_player1 game :
  truthy (odId (player1 game)) = true →
  odId (player0 game) ≠ odId (player1 game) →
  let game1 := awardRound (Some (odId (player1 game))) game in
  score (player1 game1) = score (player1 game) + 1 ∧
  score (player0 game1) = score (player0 game).
Proof.
  intros H1 Hne. unfold awardRound, getPlayerIndex.
  rewrite H1, String.eqb_refl.
  destruct (String.eqb_spec (odId (player0 game)) (odId (player1 game)));
    done.
Qed.

(** The point of the round goes to the holder of the strictly greater
    value, and to nobody when the values are equal. *)
Lemma scoreRound_scores gid game (moveA moveB : Move) :
  game_ok gid game →
  moves game !! odId (player0 game) = Some moveA →
  moves game !! odId (player1 game) = Some moveB →
  let game2 := scoreRound game (OwnMove moveA) (OwnMove moveB) in
  let w := roundWinnerOf game (OwnMove moveA) (OwnMove moveB) in
  ((statValue moveB < statValue moveA)%Q →
     score (player0 game2) = score (player0 game) + 1 ∧
     score (player1 game2) = score (player1 game) ∧
     w = Some (odId (player0 game))) ∧
  ((statValue moveA < statValue moveB)%Q →
     score (player1 game2) = score (player1 game) + 1 ∧
     score (player0 game2) = score (player0 game) ∧
     w = Some (odId (player1 game))) ∧
  ((statValue moveA == statValue moveB)%Q →
     score (player0 game2) = score (player0 game) ∧
     score (player1 game2) = score (player1 game) ∧
     w = None).
Proof.
  intros (_ & _ & H0 & H1 & _) HA HB game2 w.
  assert (game2 = set_usedCards (usedCards game2) (awardRound w game)) as E
    by done.
  assert (score (player0 game2) = score (player0 (awardRound w game)) ∧
          score (player1 game2) = score (player1 (awardRound w game)))
    as [E0 E1] by done.
  rewrite E0, E1. clear E E0 E1.
  destruct (roundWinnerOf_cases game moveA moveB) as [[Hlt Hw]|[[Hlt Hw]|[Heq Hw]]];
    fold w in Hw; rewrite Hw.
  - destruct (awardRound_player0 game H0) as [S0 S1].
    split; [done|]. split; intros Hc; exfalso.
    + exact (Qlt_irrefl _ (Qlt_trans _ _ _ Hc Hlt)).
    + rewrite Hc in Hlt. by apply Qlt_irrefl in Hlt.
  - assert (odId (player0 game) ≠ odId (player1 game)) as Hne.
    { intros Hid. rewrite Hid, HB in HA. injection HA as ->.
      by apply Qlt_irrefl in Hlt. }
    destruct (awardRound_player1 game H1 Hne) as [S1 S0].
    split; [|split; [done|]]; intros Hc; exfalso.
    + exact (Qlt_irrefl _ (Qlt_trans _ _ _ Hc Hlt)).
    + rewrite Hc in Hlt. by apply Qlt_irrefl in Hlt.
  - split; [|split; [|done]]; intros Hc; exfalso;
      rewrite Heq in Hc; by apply Qlt_irrefl in Hc.
Qed.

Lemma awardRound_fields w game :
  odId (player0 (awardRound w game)) = odId (player0 game) ∧
  odId (player1 (awardRound w game)) = odId (player1 game) ∧
  isStarted (awardRound w game) = isStarted game ∧
  disconnectTimer (awardRound w game) = disconnectTimer game.
Proof.
  unfold awardRound. destruct w as [w|]; [|done]. case_match; [done|].
  destruct (getPlayerIndex game w) as [idx|]; [|done].
  cbn. by destruct (Nat.eqb idx 0).
Qed.

Lemma resolvedGame_facts game moveA moveB :
  isFinished game = false →
  let game' := resolvedGame game moveA moveB in
  moves game' = ∅ ∧
  score (player0 game') = score (player0 (scoreRound game moveA moveB)) ∧
  score (player1 game') = score (player1 (scoreRound game moveA moveB)) ∧
  odId (player0 game') = odId (player0 game) ∧
  odId (player1 game') = odId (player1 game) ∧
  isStarted game' = isStarted game ∧
  maxRounds game' = maxRounds game ∧
  isFinished game' = isGameOverAt game ∧
  roundNumber game' =
    (if isGameOverAt game then roundNumber game else roundNumber game + 1).
Proof.
  intros Hf. cbn zeta. unfold resolvedGame, prepareNextRound.
  rewrite isGameOverAt_scoreRound.
  destruct (awardRound_fields (roundWinnerOf game moveA moveB) game)
    as (E0 & E1 & Es & _).
  destruct (awardRound_roundNumber (roundWinnerOf game moveA moveB) game)
    as (Er & Em & _).
  pose proof (awardRound_isFinished (roundWinnerOf game moveA moveB) game) as Ef.
  destruct (isGameOverAt game); cbn; rewrite ?Ef, ?Er; done.
Qed.

(** The game that round resolution leaves in the store. *)
Lemma resolveRoundIfReady_lookup s gid game moveA moveB :
  games s !! gid = Some game → isFinished game = false →
  moves_get (moves game) (odId (player0 game)) = Some moveA →
  moves_get (moves game) (odId (player1 game)) = Some moveB →
  games (fst (resolveRoundIfReady s gid)) !! gid =
    Some (resolvedGame game moveA moveB).
Proof.
  intros Hg Hf HA HB.
  rewrite (resolveRoundIfReady_unfold _ _ _ _ _ Hg Hf HA HB). cbn zeta.
  unfold resolvedGame. rewrite isGameOverAt_scoreRound.
  destruct (isGameOverAt game); cbn [fst].
  - apply finishGame_lookup; [cbn; apply lookup_insert_eq|].
    cbn. by rewrite prepareNextRound_isFinished, scoreRound_isFinished.
  - cbn. apply lookup_insert_eq.
Qed.

Lemma winnerByScore_cases game :
  (score (player1 game) < score (player0 game) ∧
   winnerByScore game = Some (odId (player0 game)))%nat ∨
  (score (player0 game) < score (player1 game) ∧
   winnerByScore game = Some (odId (player1 game)))%nat ∨
  (score (player0 game) = score (player1 game) ∧ winnerByScore game = None).
Proof.
  unfold winnerByScore.
  destruct (Nat.ltb_spec (score (player1 game)) (score (player0 game)));
    [by left|].
  destruct (Nat.ltb_spec (score (player0 game)) (score (player1 game)));
    [by right; left|].
  right. right. split; [lia|done].
Qed.

(** The winner announced at a normal completion is the winner by score. *)
Lemma normal_completion_winner gid game game' :
  game_ok gid game →
  player0 game' = player0 game → player1 game' = player1 game →
  ge_winner (gameEndedPayload game'
               (mkFinishArgs "normal" (winnerByScore game) None None)) =
    or_empty (winnerByScore game).
Proof.
  intros (_ & _ & H0 & H1 & _) E0 E1.
  unfold gameEndedPayload, finalWinnerOf.
  cbn [ge_winner fa_winnerOdId fa_reason].
  assert (winnerByScore game' = winnerByScore game) as ->
    by (unfold winnerByScore; by rewrite E0, E1).
  destruct (truthy_opt (winnerByScore game)) eqn:Ht; cbn [negb andb];
    [by rewrite Ht|].
  rewrite String.eqb_refl, Ht.
  destruct (winnerByScore_cases game) as [[_ Hw]|[[_ Hw]|[_ Hw]]];
    rewrite Hw in *; cbn in Ht; first [done|congruence].
Qed.

(** ** Playing the rounds of a game *)

Lemma run_cons_fst s e es :
  fst (run s (e :: es)) = fst (run (fst (step s e)) es).
Proof.
  cbn [run]. destruct (step s e) as [s1 o1]. cbn [fst].
  by destruct (run s1 es).
Qed.

Lemma run_app_fst s es1 es2 :
  fst (run s (es1 ++ es2)) = fst (run (fst (run s es1)) es2).
Proof.
  revert s. induction es1 as [|e es1 IH]; intros s; [done|].
  by rewrite <- app_comm_cons, !run_cons_fst, IH.
Qed.

Lemma resolveRoundIfReady_not_ready s gid game :
  games s !! gid = Some game →
  moves_get (moves game) (odId (player0 game)) = None ∨
  moves_get (moves game) (odId (player1 game)) = None →
  resolveRoundIfReady s gid = (s, []).
Proof.
  intros Hg H. unfold resolveRoundIfReady. rewrite Hg.
  destruct (isFinished game); [done|].
  destruct H as [-> | ->]; [done|]. by destruct (moves_get (moves game) _).
Qed.

(** An accepted move is stored, then round resolution is tried. *)
Lemma onSubmitMove_accepted s sid gid game u idx card value :
  truthy u = true → games s !! gid = Some game →
  isStarted game = true → isFinished game = false →
  getPlayerIndex game u = Some idx → moves_get (moves game) u = None →
  fst (onSubmitMove sid (Some gid) u (Some card) (Some value) None s) =
    fst (resolveRoundIfReady
           (put_game gid
              (set_moves (<[u := mkMove u card value None]> (moves game)) game)
              s) gid).
Proof.
  intros Hu Hg Hs Hf Hi Hm. unfold onSubmitMove.
  rewrite Hu, Hg, Hs, Hf, Hi, Hm. cbn [negb orb or_null truthy_opt].
  by destruct (resolveRoundIfReady _ gid).
Qed.

(** One round played by both players of an active game with no pending
    move: the first move waits, the second one resolves the round. *)
Lemma one_round_played s gid game sid0 sid1 m :
  GInv s → games s !! gid = Some game →
  isStarted game = true → isFinished game = false → moves game = ∅ →
  odId (player0 game) ≠ odId (player1 game) →
  inherited (odId (player0 game)) = false →
  inherited (odId (player1 game)) = false →
  let u0 := odId (player0 game) in
  let u1 := odId (player1 game) in
  let moveA := mkMove u0 (fst (fst m)) (snd (fst m)) None in
  let moveB := mkMove u1 (fst (snd m)) (snd (snd m)) None in
  let waiting := set_moves (<[u0 := moveA]> ∅) game in
  let ready := set_moves (<[u1 := moveB]> (<[u0 := moveA]> ∅)) game in
  games (fst (step s (SubmitMove sid0 (Some gid) u0 (Some (fst (fst m)))
                        (Some (snd (fst m))) None))) !! gid = Some waiting ∧
  games (fst (run s (playRound gid sid0 sid1 u0 u1 m))) !! gid =
    Some (resolvedGame ready (OwnMove moveA) (OwnMove moveB)).
Proof.
  intros HG Hg Hs Hf Hm Hne Hp0 Hp1 u0 u1 moveA moveB waiting ready.
  destruct (HG _ _ Hg) as [_ (_ & _ & H0 & H1 & _)].
  assert (getPlayerIndex game u0 = Some 0) as Hi0
    by (unfold getPlayerIndex; subst u0; by rewrite String.eqb_refl).
  assert (getPlayerIndex game u1 = Some 1) as Hi1.
  { unfold getPlayerIndex. subst u1. rewrite String.eqb_refl.
    by destruct (String.eqb_spec (odId (player0 game)) (odId (player1 game))). }
  assert (fst (step s (SubmitMove sid0 (Some gid) u0 (Some (fst (fst m)))
                         (Some (snd (fst m))) None)) =
          put_game gid waiting s) as E1.
  { cbn [step].
    rewrite (onSubmitMove_accepted s sid0 gid game u0 0); try done;
      [|by rewrite moves_get_plain, Hm].
    rewrite Hm. fold moveA. fold waiting.
    rewrite (resolveRoundIfReady_not_ready _ gid waiting); [done| |].
    - cbn. apply lookup_insert_eq.
    - right. cbn. fold u1. rewrite moves_get_plain by done.
      rewrite lookup_insert_ne by done. by rewrite lookup_empty. }
  split; [rewrite E1; cbn; apply lookup_insert_eq|].
  unfold playRound. rewrite run_cons_fst, E1, run_cons_fst. cbn [run fst step].
  rewrite (onSubmitMove_accepted _ sid1 gid waiting u1 1); try done.
  - cbn [moves set_moves waiting]. fold moveB.
    assert (put_game gid (set_moves (<[u1:=moveB]> (<[u0:=moveA]> ∅)) waiting)
              (put_game gid waiting s) =
            put_game gid ready (put_game gid waiting s)) as -> by done.
    apply resolveRoundIfReady_lookup.
    + cbn. apply lookup_insert_eq.
    + done.
    + cbn. fold u0 u1. apply moves_get_own.
      rewrite lookup_insert_ne by done. apply lookup_insert_eq.
    + cbn. fold u1. apply moves_get_own, lookup_insert_eq.
  - cbn. apply lookup_insert_eq.
  - cbn. rewrite moves_get_plain by done.
    rewrite lookup_insert_ne by done. by rewrite lookup_empty.
Qed.

(** The number of rounds a game has left decides whether it is finished
    after [length ms] rounds are played: it is finished exactly when the
    round counter would pass [MAX_ROUNDS]. *)
Lemma rounds_played gid sid0 sid1 u0 u1 ms :
  ∀ s game,
    Inv s → games s !! gid = Some game →
    isStarted game = true → isFinished game = false → moves game = ∅ →
    odId (player0 game) = u0 → odId (player1 game) = u1 → u0 ≠ u1 →
    inherited u0 = false → inherited u1 = false →
    ∃ game',
      games (fst (run s (playRounds gid sid0 sid1 u0 u1 ms))) !! gid
        = Some game' ∧
      isFinished game' = (MAX_ROUNDS <? roundNumber game + length ms)%nat ∧
      (isFinished game' = false →
         roundNumber game' = roundNumber game + length ms ∧ moves game' = ∅).
Proof.
  induction ms as [|m ms IH]; intros s game HI Hg Hs Hf Hm E0 E1 Hne Hp0 Hp1.
  - exists game. cbn [playRounds flat_map run fst length].
    destruct (proj1 HI _ _ Hg) as [_ (_ & _ & _ & _ & _ & Hr)].
    rewrite Nat.add_0_r. split; [done|]. split; [|done].
    rewrite Hf. symmetry. apply Nat.ltb_ge. lia.
  - cbn [playRounds flat_map]. fold (playRounds gid sid0 sid1 u0 u1 ms).
    rewrite run_app_fst.
    assert (odId (player0 game) ≠ odId (player1 game)) as Hne'
      by (by rewrite E0, E1).
    assert (inherited (odId (player0 game)) = false) as Hp0'
      by (by rewrite E0).
    assert (inherited (odId (player1 game)) = false) as Hp1'
      by (by rewrite E1).
    pose proof (one_round_played s gid game sid0 sid1 m (proj1 HI) Hg Hs Hf
                  Hm Hne' Hp0' Hp1') as [_ H1].
    cbn zeta in H1. rewrite E0, E1 in H1.
    set (s' := fst (run s (playRound gid sid0 sid1 u0 u1 m))) in *.
    assert (Inv s') as HI' by (by apply run_Inv).
    match type of H1 with _ = Some (resolvedGame ?r ?a ?b) =>
      set (ready := r) in *; set (moveA := a) in *; set (moveB := b) in *
    end.
    destruct (resolvedGame_facts ready moveA moveB Hf)
      as (Rm & _ & _ & R0 & R1 & Rs & Rx & Rf & Rn).
    destruct (proj1 HI _ _ Hg) as [_ (_ & _ & _ & _ & Hmax & Hr)].
    assert (isGameOverAt ready = (MAX_ROUNDS <=? roundNumber game)%nat) as Ho
      by (unfold isGameOverAt; cbn; by rewrite Hmax).
    rewrite Ho in Rf, Rn. cbn [length].
    destruct (Nat.leb_spec MAX_ROUNDS (roundNumber game)) as [Hle|Hlt].
    + destruct (run_good s' (playRounds gid sid0 sid1 u0 u1 ms) HI')
        as [_ Hfrozen].
      destruct (Hfrozen _ _ H1 Rf) as [Hk _].
      eexists. split; [exact Hk|]. rewrite Rf.
      split; [symmetry; apply Nat.ltb_lt; lia|done].
    + destruct (IH s' _ HI' H1) as (game' & Hk & Hfin & Hround); try done.
      { by rewrite Rs. }
      { by rewrite R0. }
      { by rewrite R1. }
      exists game'. split; [exact Hk|]. rewrite Rn in Hfin, Hround.
      cbn [roundNumber ready set_moves] in Hfin, Hround.
      replace (roundNumber game + S (length ms))
        with (roundNumber game + 1 + length ms) by lia.
      done.
Qed.

Lemma prepareNextRound_players game :
  player0 (prepareNextRound game) = player0 game ∧
  player1 (prepareNextRound game) = player1 game.
Proof. unfold prepareNextRound. by case_match. Qed.

(** Round resolution on a game in which both moves are pending: the
    scores, the notices and the progress of the rounds. *)
Lemma resolveRoundIfReady_spec s gid game (moveA moveB : Move) :
  game_ok gid game → games s !! gid = Some game → isFinished game = false →
  moves game !! odId (player0 game) = Some moveA →
  moves game !! odId (player1 game) = Some moveB →
  let u0 := odId (player0 game) in
  let u1 := odId (player1 game) in
  let r := resolveRoundIfReady s gid in
  let game' := resolvedGame game (OwnMove moveA) (OwnMove moveB) in
  let payload := roundCompletedPayload game (OwnMove moveA) (OwnMove moveB) in
  ∃ rest,
    games (fst r) !! gid = Some game' ∧
    snd r = emit_players s game (RoundCompleted payload) ++ rest ∧
    moves game' = ∅ ∧
    ((statValue moveB < statValue moveA)%Q →
       score (player0 game') = score (player0 game) + 1 ∧
       score (player1 game') = score (player1 game) ∧
       rc_roundWinner payload = Some u0) ∧
    ((statValue moveA < statValue moveB)%Q →
       score (player1 game') = score (player1 game) + 1 ∧
       score (player0 game') = score (player0 game) ∧
       rc_roundWinner payload = Some u1) ∧
    ((statValue moveA == statValue moveB)%Q →
       score (player0 game') = score (player0 game) ∧
       score (player1 game') = score (player1 game) ∧
       rc_roundWinner payload = None) ∧
    ((roundNumber game < MAX_ROUNDS)%nat →
       isFinished game' = false ∧
       roundNumber game' = roundNumber game + 1 ∧
       rc_isGameOver payload = false ∧ rest = emitGameState (fst r) gid) ∧
    (roundNumber game = MAX_ROUNDS →
       isFinished game' = true ∧ rc_isGameOver payload = true ∧
       ((score (player1 game') < score (player0 game'))%nat →
          rc_finalWinner payload = Some u0) ∧
       ((score (player0 game') < score (player1 game'))%nat →
          rc_finalWinner payload = Some u1) ∧
       (score (player0 game') = score (player1 game') →
          rc_finalWinner payload = None) ∧
       ∃ ended,
         rest = emit_players s game (GameEnded ended) ∧
         ge_winner ended = or_empty (rc_finalWinner payload)).
Proof.
  intros Hok Hg Hf HA' HB' u0 u1 r game' payload.
  pose proof (moves_get_own _ _ _ HA') as HA.
  pose proof (moves_get_own _ _ _ HB') as HB.
  pose proof Hok as (_ & _ & H0 & H1 & Hmax & Hround).
  set (game2 := scoreRound game (OwnMove moveA) (OwnMove moveB)).
  destruct (resolvedGame_facts game (OwnMove moveA) (OwnMove moveB) Hf)
    as (Rm & S0 & S1 & R0 & R1 & _ & _ & Rf & Rn).
  destruct (scoreRound_scores gid game moveA moveB Hok HA' HB')
    as (Hgt & Hlt & Heq).
  assert (isGameOverAt game = (MAX_ROUNDS <=? roundNumber game)%nat) as Ho
    by (unfold isGameOverAt; by rewrite Hmax).
  assert (rc_isGameOver payload = isGameOverAt game) as Hpo
    by apply isGameOverAt_scoreRound.
  assert (rc_finalWinner payload =
            if isGameOverAt game then winnerByScore game2 else None) as Hpw
    by (unfold payload, roundCompletedPayload; cbn [rc_finalWinner];
        by rewrite isGameOverAt_scoreRound).
  subst r game'. rewrite (resolveRoundIfReady_lookup _ _ _ _ _ Hg Hf HA HB).
  rewrite (resolveRoundIfReady_unfold _ _ _ _ _ Hg Hf HA HB). cbn zeta.
  rewrite isGameOverAt_scoreRound. fold game2 payload.
  rewrite S0, S1, Rf, Rn, Hpo, Hpw, Ho. fold game2.
  destruct (Nat.leb_spec MAX_ROUNDS (roundNumber game)) as [Hle|Hlt'].
  - eexists. split; [done|]. cbn [snd]. split; [reflexivity|].
    split; [done|]. split; [exact Hgt|]. split; [exact Hlt|].
    split; [exact Heq|]. split; [lia|]. intros _.
    split; [done|]. split; [done|].
    destruct (awardRound_fields
                (roundWinnerOf game (OwnMove moveA) (OwnMove moveB)) game)
      as (I0 & I1 & _).
    assert (odId (player0 game2) = u0 ∧ odId (player1 game2) = u1)
      as [J0 J1] by done.
    pose proof (normal_completion_winner gid game2
                  (set_isFinished true (set_moves ∅ (prepareNextRound game2)))
                  (scoreRound_ok gid game (OwnMove moveA) (OwnMove moveB) Hok)
                  (proj1 (prepareNextRound_players game2))
                  (proj2 (prepareNextRound_players game2))) as Hend.
    destruct (winnerByScore_cases game2) as [[Hs Hw]|[[Hs Hw]|[Hs Hw]]];
      rewrite Hw in Hend |- *; rewrite ?J0, ?J1 in Hend |- *.
    + split; [done|]. split; [lia|]. split; [lia|].
      eexists. split; [reflexivity|exact Hend].
    + split; [lia|]. split; [done|]. split; [lia|].
      eexists. split; [reflexivity|exact Hend].
    + split; [lia|]. split; [lia|]. split; [done|].
      eexists. split; [reflexivity|exact Hend].
  - eexists. split; [done|]. cbn [snd fst]. split; [reflexivity|].
    split; [done|]. split; [exact Hgt|]. split; [exact Hlt|].
    split; [exact Heq|]. split; [done|]. lia.
Qed.

Lemma getPlayerIndex_inv game u idx :
  getPlayerIndex game u = Some idx →
  (idx = 0 ∧ odId (player0 game) = u) ∨
  (idx = 1 ∧ odId (player1 game) = u ∧ odId (player0 game) ≠ u).
Proof.
  unfold getPlayerIndex.
  destruct (String.eqb_spec (odId (player0 game)) u) as [E0|N0];
    [intros [= <-]; by left|].
  destruct (String.eqb_spec (odId (player1 game)) u) as [E1|N1];
    [intros [= <-]; by right|done].
Qed.

(** An accepted move: the acknowledgement, the notice to the opponent if
    its connection is known and live, then whatever round resolution
    emits. *)
Lemma onSubmitMove_unfold s sid gid game u idx card value data :
  truthy u = true → games s !! gid = Some game →
  isStarted game = true → isFinished game = false →
  getPlayerIndex game u = Some idx → moves_get (moves game) u = None →
  let game1 :=
    set_moves (<[u := mkMove u card value (or_null data)]> (moves game)) game in
  let s1 := put_game gid game1 s in
  ∃ notify,
    (∀ e, e ∈ notify → snd e = OpponentMoved) ∧
    onSubmitMove sid (Some gid) u (Some card) (Some value) data s =
      (fst (resolveRoundIfReady s1 gid),
       (sid, MoveReceived card) :: notify ++ snd (resolveRoundIfReady s1 gid)).
Proof.
  intros Hu Hg Hs Hf Hi Hm game1 s1. unfold onSubmitMove.
  rewrite Hu, Hg, Hs, Hf, Hi, Hm. cbn [negb orb]. fold game1. fold s1.
  destruct (resolveRoundIfReady s1 gid) as [s2 out]. cbn [fst snd].
  eexists. split; [|reflexivity].
  intros e He. repeat case_match; try (by apply elem_of_nil in He).
  by apply list_elem_of_singleton in He as ->.
Qed.

(** C7 (code at the failing input).  The players [constructor] and B are
    paired and both accept; no move is pending.  B submits one move: the
    round is resolved at once on that move alone, B takes the point and the
    game is at round 2 with no move pending.  A move of the player
    [constructor], who holds none, is answered with MOVE_ALREADY_SUBMITTED
    and changes nothing.  Five moves of B alone end the game, B winning
    five to nil. *)
Theorem a_round_is_resolved_on_one_move :
  let moveB := SubmitMove "s2" (Some 0) "B" (Some 12%Z) (Some 60%Q) None in
  let moveA :=
    SubmitMove "s1" (Some 0) "constructor" (Some 7%Z) (Some 85%Q) None in
  let alone := run s_proto (repeat moveB 5) in
  (∃ game,
     games s_proto !! 0 = Some game ∧
     odId (player0 game) = "constructor" ∧ odId (player1 game) = "B" ∧
     isStarted game = true ∧ isFinished game = false ∧
     moves game = ∅ ∧ roundNumber game = 1) ∧
  (∃ game',
     games (fst (step s_proto moveB)) !! 0 = Some game' ∧
     roundNumber game' = 2 ∧ moves game' = ∅ ∧
     score (player0 game') = 0 ∧ score (player1 game') = 1) ∧
  rc_roundWinner <$> omap round_completed_of (snd (step s_proto moveB))
    = [Some "B"; Some "B"] ∧
  step s_proto moveA =
    (s_proto, [("s1", MoveError "Move already submitted for this round"
                                "MOVE_ALREADY_SUBMITTED")]) ∧
  (∃ game',
     games (fst alone) !! 0 = Some game' ∧ isFinished game' = true ∧
     score (player0 game') = 0 ∧ score (player1 game') = 5) ∧
  ge_winner <$> omap game_ended_of (snd alone) = ["B"; "B"].
Proof.
  cbn zeta.
  split; [eexists; split; [vm_compute; reflexivity|]; repeat split|].
  split; [eexists; split; [vm_compute; reflexivity|]; repeat split|].
  split; [vm_compute; reflexivity|]. split; [vm_compute; reflexivity|].
  split; [eexists; split; [vm_compute; reflexivity|]; repeat split|].
  vm_compute. reflexivity.
Qed.

(** * Further properties of the server *)

(** ** One event, one game *)

Lemma finishGame_games s gid game a :
  games s !! gid = Some game → isFinished game = false →
  games (fst (finishGame s gid a)) = <[gid := endedGame game]> (games s) ∧
  nextGameId (fst (finishGame s gid a)) = nextGameId s.
Proof.
  intros Hg Hf. rewrite (finishGame_unfold _ _ _ _ Hg Hf). cbn [fst].
  by rewrite !cleanPlayer_games, !cleanPlayer_nextGameId.
Qed.

Lemma maybeStartGame_accepted s gid idx game :
  let s1 := put_game gid (upd_player idx (set_accepted true) game) s in
  games (fst (maybeStartGame s1 gid)) = <[gid := acceptedGame idx game]> (games s) ∧
  nextGameId (fst (maybeStartGame s1 gid)) = nextGameId s.
Proof.
  intros s1. unfold maybeStartGame, acceptedGame. subst s1.
  cbn [games put_game set_games]. rewrite lookup_insert_eq. cbn zeta.
  destruct (isStarted _ || isFinished _); [done|].
  destruct (negb _); [done|]. cbn. by rewrite insert_insert_eq.
Qed.

Lemma resolveRoundIfReady_games s gid game moveA moveB :
  games s !! gid = Some game → isFinished game = false →
  moves_get (moves game) (odId (player0 game)) = Some moveA →
  moves_get (moves game) (odId (player1 game)) = Some moveB →
  games (fst (resolveRoundIfReady s gid)) =
    <[gid := resolvedGame game moveA moveB]> (games s) ∧
  nextGameId (fst (resolveRoundIfReady s gid)) = nextGameId s.
Proof.
  intros Hg Hf HA HB.
  rewrite (resolveRoundIfReady_unfold _ _ _ _ _ Hg Hf HA HB). cbn zeta.
  unfold resolvedGame. rewrite isGameOverAt_scoreRound.
  destruct (isGameOverAt game); cbn [fst]; [|done].
  match goal with |- context [finishGame ?s1 gid ?a] =>
    destruct (finishGame_games s1 gid
                (set_moves ∅ (prepareNextRound (scoreRound game moveA moveB))) a)
      as [-> ->]
  end.
  - cbn. apply lookup_insert_eq.
  - cbn. by rewrite prepareNextRound_isFinished, scoreRound_isFinished.
  - cbn [games put_game set_games nextGameId]. by rewrite insert_insert_eq.
Qed.

Lemma store_step_same t s s' :
  games s' = games s → nextGameId s' = nextGameId s → store_step t s s'.
Proof. intros. by left. Qed.

Lemma store_step_game s s' gid game game' :
  games s !! gid = Some game → game_step game game' →
  games s' = <[gid := game']> (games s) → nextGameId s' = nextGameId s →
  store_step (Some gid) s s'.
Proof. intros. right. left. by exists gid, game, game'. Qed.

Lemma onDisconnect_store sid s :
  store_step (socketToGameId s !! sid) s (fst (onDisconnect sid s)).
Proof.
  unfold onDisconnect.
  match goal with |- context [match ?o with Some _ => _ | None => (?s4, [])end] =>
    set (s4' := s4)
  end.
  assert (games s4' = games s) as Eg by (subst s4'; by repeat case_match).
  assert (nextGameId s4' = nextGameId s) as En
    by (subst s4'; by repeat case_match).
  clearbody s4'. cbn [socketToGameId socketToUser set_queue set_sockets].
  destruct (socketToGameId s !! sid) as [gid|]; [|by apply store_step_same].
  rewrite Eg.
  destruct (games s !! gid) as [game|] eqn:Hg; [|by apply store_step_same].
  destruct (isFinished game) eqn:Hf; [by apply store_step_same|].
  destruct (from_option _ _ _) as [idx|]; [|by apply store_step_same].
  cbn [fst].
  apply (store_step_game _ _ gid game (disconnectedGame idx game)); try done.
  - by constructor.
  - cbn. by rewrite Eg.
Qed.

Lemma onPlayerAccepted_store sid gameId s :
  store_step gameId s (fst (onPlayerAccepted sid gameId s)).
Proof.
  unfold onPlayerAccepted.
  destruct gameId as [gid|]; [|by apply store_step_same].
  destruct (games s !! gid) as [game|] eqn:Hg; [|by apply store_step_same].
  destruct (isFinished game) eqn:Hf; [by apply store_step_same|].
  destruct (socketToUser s !! sid) as [u|]; [|by apply store_step_same].
  destruct (truthy u); [|by apply store_step_same]. cbn [negb].
  destruct (getPlayerIndex game u) as [idx|]; [|by apply store_step_same].
  destruct (maybeStartGame_accepted s gid idx game) as [Eg En].
  apply (store_step_game _ _ gid game (acceptedGame idx game)); try done.
  by constructor.
Qed.

Lemma onJoinGame_store sid gameId u name s :
  store_step gameId s (fst (onJoinGame sid gameId u name s)).
Proof.
  unfold onJoinGame.
  destruct gameId as [gid|]; [|by apply store_step_same].
  destruct (truthy u); [|by apply store_step_same]. cbn [negb].
  destruct (games s !! gid) as [game|] eqn:Hg; [|by apply store_step_same].
  destruct (isFinished game) eqn:Hf; [by apply store_step_same|].
  destruct (getPlayerIndex game u) as [idx|]; [|by apply store_step_same].
  cbn [fst].
  apply (store_step_game _ _ gid game (rejoinedGame sid name idx game));
    try done.
  by constructor.
Qed.

Lemma onLeaveGame_store sid gameId s :
  store_step gameId s (fst (onLeaveGame sid gameId s)).
Proof.
  unfold onLeaveGame.
  destruct gameId as [gid|]; [|by apply store_step_same].
  destruct (games s !! gid) as [game|] eqn:Hg; [|by apply store_step_same].
  destruct (isFinished game) eqn:Hf; [by apply store_step_same|].
  destruct (socketToUser s !! sid) as [u|]; [|by apply store_step_same].
  destruct (truthy u); [|by apply store_step_same]. cbn [negb].
  destruct (getPlayerIndex game u) as [idx|]; [|by apply store_step_same].
  match goal with |- context [finishGame s gid ?a] =>
    destruct (finishGame_games s gid game a Hg Hf) as [Eg En]
  end.
  apply (store_step_game _ _ gid game (endedGame game)); try done.
  by constructor.
Qed.

Lemma onTimerFire_store gid s :
  GInv s → store_step (Some gid) s (fst (onTimerFire gid s)).
Proof.
  intros HI. unfold onTimerFire.
  destruct (games s !! gid) as [game|] eqn:Hg; [|by apply store_step_same].
  destruct (disconnectTimer game) as [t|] eqn:Ht; [|by apply store_step_same].
  destruct (timer_pending t); [|by apply store_step_same].
  destruct (HI _ _ Hg) as [_ (_ & Hfin & _)].
  assert (isFinished game = false) as Hf.
  { destruct (isFinished game); [|done]. rewrite Hfin in Ht; done. }
  unfold graceCallback. cbn [games put_game set_games].
  rewrite lookup_insert_eq. fold (firedGame t game).
  destruct (negb _ && negb _).
  - match goal with |- context [finishGame ?s1 gid ?a] =>
      destruct (finishGame_games s1 gid (firedGame t game) a) as [Eg En]
    end.
    + cbn. apply lookup_insert_eq.
    + done.
    + apply (store_step_game _ _ gid game (endedGame game)); try done.
      * by constructor.
      * rewrite Eg. cbn. by rewrite insert_insert_eq.
  - cbn [fst].
    apply (store_step_game _ _ gid game (firedGame t game)); try done.
    by constructor.
Qed.

Lemma onSubmitMove_store sid gameId u card value data s :
  store_step gameId s (fst (onSubmitMove sid gameId u card value data s)).
Proof.
  destruct gameId as [gid|]; [|by apply store_step_same].
  destruct card as [c|]; [|by apply store_step_same].
  destruct value as [v|]; [|by apply store_step_same].
  destruct (truthy u) eqn:Hu;
    [|unfold onSubmitMove; rewrite Hu; by apply store_step_same].
  destruct (games s !! gid) as [game|] eqn:Hg;
    [|unfold onSubmitMove; rewrite Hu, Hg; by apply store_step_same].
  destruct (isFinished game) eqn:Hf;
    [unfold onSubmitMove; rewrite Hu, Hg, Hf; by apply store_step_same|].
  destruct (isStarted game) eqn:Hs;
    [|unfold onSubmitMove; rewrite Hu, Hg, Hf, Hs; by apply store_step_same].
  destruct (getPlayerIndex game u) as [idx|] eqn:Hi;
    [|unfold onSubmitMove; rewrite Hu, Hg, Hf, Hs, Hi; by apply store_step_same].
  destruct (moves_get (moves game) u) as [mv0|] eqn:Hm;
    [unfold onSubmitMove; rewrite Hu, Hg, Hf, Hs, Hi, Hm;
     by apply store_step_same|].
  destruct (onSubmitMove_unfold s sid gid game u idx c v data Hu Hg Hs Hf Hi Hm)
    as (notify & _ & ->). cbn [fst].
  set (mv := mkMove u c v (or_null data)).
  fold (movedGame u mv game).
  set (s1 := put_game gid (movedGame u mv game) s).
  assert (games s1 !! gid = Some (movedGame u mv game)) as Hg1
    by (cbn; apply lookup_insert_eq).
  assert (is_member game u) as Hmem by (unfold is_member; by rewrite Hi).
  destruct (moves_get (moves (movedGame u mv game)) (odId (player0 game)))
    as [moveA|] eqn:HA.
  - destruct (moves_get (moves (movedGame u mv game)) (odId (player1 game)))
      as [moveB|] eqn:HB.
    + destruct (resolveRoundIfReady_games s1 gid _ moveA moveB Hg1 Hf HA HB)
        as [Eg En].
      apply (store_step_game _ _ gid game
               (resolvedGame (movedGame u mv game) moveA moveB)); try done.
      * by apply (gs_move_resolves u mv moveA moveB).
      * rewrite Eg. cbn. by rewrite insert_insert_eq.
    + rewrite (resolveRoundIfReady_not_ready s1 gid _ Hg1) by (by right).
      apply (store_step_game _ _ gid game (movedGame u mv game)); try done.
      apply gs_move_waits; try done. by right.
  - rewrite (resolveRoundIfReady_not_ready s1 gid _ Hg1) by (by left).
    apply (store_step_game _ _ gid game (movedGame u mv game)); try done.
    apply gs_move_waits; try done. by left.
Qed.

Lemma onJoinQueue_store sid u name s :
  Inv s → store_step (Some (nextGameId s)) s (fst (onJoinQueue sid u name s)).
Proof.
  intros [HG [HQ Hlen]]. unfold onJoinQueue.
  destruct (truthy u) eqn:Hu; [|by apply store_step_same].
  destruct (truthy name) eqn:Hn; [|by apply store_step_same].
  cbn [negb orb]. unfold tryMatchPlayers.
  cbn [queue set_queue set_userToSocket set_socketToUser].
  destruct (removeFromQueueBySocket_short sid (queue s) Hlen)
    as [->|(p & Hq & ->)]; cbn; [by apply store_step_same|].
  right. right. exists p, (mkQueueEntry sid u name).
  rewrite Hq in HQ. apply Forall_inv in HQ.
  repeat split; try done.
  destruct (games s !! nextGameId s) as [g|] eqn:Hg; [|done].
  destruct (HG _ _ Hg). lia.
Qed.

(** Every event leaves the games store as it is, moves one game by one
    transition, or adds one game under the next identifier. *)
Lemma step_store s e : Inv s → store_step (target s e) s (fst (step s e)).
Proof.
  intros HI. destruct e; cbn [step target].
  - by apply store_step_same.
  - apply onDisconnect_store.
  - by apply onJoinQueue_store.
  - by apply store_step_same.
  - apply onPlayerAccepted_store.
  - apply onJoinGame_store.
  - apply onLeaveGame_store.
  - apply onSubmitMove_store.
  - apply onTimerFire_store, HI.
Qed.

(** ** What the transitions keep *)

Lemma awardRound_more w game :
  accepted (player0 (awardRound w game)) = accepted (player0 game) ∧
  accepted (player1 (awardRound w game)) = accepted (player1 game) ∧
  usedCards (awardRound w game) = usedCards game ∧
  moves (awardRound w game) = moves game ∧
  id (awardRound w game) = id game ∧
  (score (player0 game) ≤ score (player0 (awardRound w game)))%nat ∧
  (score (player1 game) ≤ score (player1 (awardRound w game)))%nat ∧
  (score (player0 (awardRound w game)) + score (player1 (awardRound w game))
     ≤ score (player0 game) + score (player1 game) + 1)%nat.
Proof.
  unfold awardRound. destruct w as [w|]; [|repeat split; lia].
  case_match; [repeat split; lia|].
  destruct (getPlayerIndex game w) as [idx|]; [|repeat split; lia].
  cbn. destruct (Nat.eqb idx 0); cbn; repeat split; lia.
Qed.

Lemma addUsedCard_prefix mvs u used : used `prefix_of` addUsedCard mvs u used.
Proof.
  rewrite addUsedCard_own. destruct (mvs !! u) as [mv|]; [|done].
  case_match; [done|]. by apply prefix_app_r.
Qed.

Lemma addUsedCard_length mvs u used :
  (length (addUsedCard mvs u used) ≤ length used + 1)%nat.
Proof.
  rewrite addUsedCard_own. destruct (mvs !! u) as [mv|]; [|lia].
  case_match; [lia|]. rewrite length_app. cbn. lia.
Qed.

Lemma addUsedCard_NoDup mvs u used :
  NoDup used → NoDup (addUsedCard mvs u used).
Proof.
  intros Hn. rewrite addUsedCard_own. destruct (mvs !! u) as [mv|]; [|done].
  destruct (existsb (Z.eqb (cardId mv)) used) eqn:He; [done|].
  apply NoDup_app. split; [done|]. split; [|apply NoDup_singleton].
  intros c Hc ->%list_elem_of_singleton.
  assert (existsb (Z.eqb (cardId mv)) used = true); [|congruence].
  apply existsb_exists. exists (cardId mv).
  split; [by apply list_elem_of_In|apply Z.eqb_refl].
Qed.

(** The card of a pending move is among the used cards once it is
    added. *)
Lemma addUsedCard_elem mvs u mv used :
  mvs !! u = Some mv → cardId mv ∈ addUsedCard mvs u used.
Proof.
  intros Hm. rewrite addUsedCard_own, Hm.
  destruct (existsb (Z.eqb (cardId mv)) used) eqn:He.
  - apply existsb_exists in He as (c & Hc & Heq).
    apply Z.eqb_eq in Heq as ->. by apply list_elem_of_In.
  - apply elem_of_app. right. by apply list_elem_of_singleton.
Qed.

Lemma is_member_ext game game' u :
  odId (player0 game') = odId (player0 game) →
  odId (player1 game') = odId (player1 game) →
  is_member game u → is_member game' u.
Proof.
  unfold is_member, getPlayerIndex. intros -> ->. done.
Qed.

Lemma game_step_evolves game game' : game_step game game' → evolves game game'.
Proof.
  destruct 1 as [idx game Hf|sid name idx game Hf|idx game Hf|t game Hf Ht
                 |game Hf|u mv game Hs Hf Hmem Hm Hmv Hnr
                 |u mv moveA moveB game Hs Hf Hmem Hm Hmv HA HB];
    unfold evolves.
  - unfold acceptedGame. cbn zeta.
    destruct (isStarted _ || isFinished _); [|destruct (negb _)];
      cbn; destruct (Nat.eqb idx 0); cbn; repeat split; try done; congruence.
  - unfold rejoinedGame. destruct (truthy name);
      cbn; destruct (Nat.eqb idx 0); cbn; repeat split; done.
  - unfold disconnectedGame. cbn.
    destruct (Nat.eqb idx 0); cbn; repeat split; done.
  - cbn. repeat split; done.
  - cbn. repeat split; done.
  - cbn. repeat split; done.
  - set (g1 := movedGame u mv game).
    destruct (resolvedGame_facts g1 moveA moveB Hf)
      as (_ & S0 & S1 & R0 & R1 & Rs & Rx & Rf & Rn).
    destruct (awardRound_more (roundWinnerOf g1 moveA moveB) g1)
      as (A0 & A1 & U & M & I & L0 & L1 & _).
    rewrite R0, R1, Rs, Rx, Rf, Rn, S0, S1.
    assert (id (resolvedGame g1 moveA moveB) = id game) as ->
      by (unfold resolvedGame, prepareNextRound;
          repeat case_match; cbn; exact I).
    assert (accepted (player0 (resolvedGame g1 moveA moveB)) =
              accepted (player0 game) ∧
            accepted (player1 (resolvedGame g1 moveA moveB)) =
              accepted (player1 game)) as [-> ->]
      by (unfold resolvedGame, prepareNextRound;
          repeat case_match; cbn; by rewrite A0, A1).
    assert (usedCards game `prefix_of` usedCards (resolvedGame g1 moveA moveB)).
    { assert (usedCards (resolvedGame g1 moveA moveB) =
                usedCards (scoreRound g1 moveA moveB)) as ->
        by (unfold resolvedGame, prepareNextRound; by repeat case_match).
      unfold scoreRound. cbn [usedCards set_usedCards]. rewrite U.
      etrans; [|apply addUsedCard_prefix]. apply addUsedCard_prefix. }
    repeat split; try done; try (cbn; congruence).
    destruct (isGameOverAt g1); subst g1; cbn; lia.
Qed.

Lemma newGame_wf gameId p1 p2 : game_wf (newGame gameId p1 p2).
Proof.
  unfold game_wf, newGame. cbn.
  repeat split; try done; try lia; try (by left); try apply NoDup_nil_2.
Qed.

(** A game that differs only in what the invariant does not read. *)
Lemma game_wf_ext game game' :
  game_wf game → isFinished game = false →
  isStarted game' = isStarted game → moves game' = moves game →
  roundNumber game' = roundNumber game → usedCards game' = usedCards game →
  currentRound game' = currentRound game →
  odId (player0 game') = odId (player0 game) →
  odId (player1 game') = odId (player1 game) →
  score (player0 game') = score (player0 game) →
  score (player1 game') = score (player1 game) →
  accepted (player0 game') = accepted (player0 game) →
  accepted (player1 game') = accepted (player1 game) →
  game_wf game'.
Proof.
  intros (W1 & W2 & W3 & W4 & W5 & W6 & W7 & W8) Hf Es Em Er Eu Ec E0 E1 S0 S1
         A0 A1.
  unfold game_wf. rewrite Es, Em, Er, Eu, Ec, E0, E1, S0, S1, A0, A1.
  rewrite Hf in W5, W8.
  split; [done|]. split; [done|]. split; [done|].
  split.
  { intros u mv Hu. destruct (W4 _ _ Hu). split; [done|].
    by apply (is_member_ext game). }
  split; [destruct (isFinished game'); lia|]. split; [done|].
  split; [done|]. destruct (isFinished game'); lia.
Qed.

Lemma game_step_wf game game' : game_wf game → game_step game game' → game_wf game'.
Proof.
  intros (W1 & W2 & W3 & W4 & W5 & W6 & W7 & W8).
  destruct 1 as [idx game Hf|sid name idx game Hf|idx game Hf|t game Hf Ht
                 |game Hf|u mv game Hs Hf Hmem Hm Hmv Hnr
                 |u mv moveA moveB game Hs Hf Hmem Hm Hmv HA HB];
    unfold game_wf.
  - (* accept *)
    set (g1 := upd_player idx (set_accepted true) game).
    assert (isStarted g1 = isStarted game ∧ isFinished g1 = false ∧
            moves g1 = moves game ∧ roundNumber g1 = roundNumber game ∧
            usedCards g1 = usedCards game ∧ currentRound g1 = currentRound game ∧
            odId (player0 g1) = odId (player0 game) ∧
            odId (player1 g1) = odId (player1 game) ∧
            score (player0 g1) = score (player0 game) ∧
            score (player1 g1) = score (player1 game) ∧
            (accepted (player0 game) = true → accepted (player0 g1) = true) ∧
            (accepted (player1 game) = true → accepted (player1 g1) = true))
      as (Es & Ef & Em & Er & Eu & Ec & E0 & E1 & S0 & S1 & A0 & A1).
    { subst g1. cbn. destruct (Nat.eqb idx 0); cbn; repeat split; done. }
    assert (∀ g, isFinished g = false → moves g = moves game →
                 roundNumber g = roundNumber game →
                 usedCards g = usedCards game →
                 currentRound g = currentRound game →
                 player0 g = player0 g1 → player1 g = player1 g1 →
                 (isStarted g = true →
                    accepted (player0 g) = true ∧ accepted (player1 g) = true) →
                 (isStarted g = false → isStarted game = false) →
                 game_wf g) as Hgen.
    { intros g Gf Gm Gr Gu Gc G0 G1 Ga Gs. unfold game_wf.
      rewrite Gf, Gm, Gr, Gu, Gc, G0, G1, E0, E1, S0, S1.
      rewrite Hf in W5, W8.
      split; [by rewrite <- G0, <- G1|]. split; [intros Hg; by apply W2, Gs|].
      split; [done|]. split; [|done].
      intros u mv Hu. destruct (W4 _ _ Hu) as [? Hmem]. split; [done|].
      apply (is_member_ext game); [by rewrite G0|by rewrite G1|done]. }
    unfold acceptedGame. cbn zeta. fold g1. rewrite Es, Ef, orb_false_r.
    destruct (isStarted game) eqn:Hs.
    + apply Hgen; try done; [|congruence].
      intros _. destruct (W1 eq_refl). split; auto.
    + destruct (negb _) eqn:Hb.
      * apply Hgen; try done. congruence.
      * apply negb_false_iff, andb_true_iff in Hb.
        apply Hgen; try done.
  - (* rejoin *)
    apply (game_wf_ext game); try done;
      unfold rejoinedGame; destruct (truthy name); cbn;
      by destruct (Nat.eqb idx 0).
  - (* disconnect *)
    apply (game_wf_ext game); try done;
      unfold disconnectedGame; cbn; by destruct (Nat.eqb idx 0).
  - apply (game_wf_ext game); done.
  - (* finish *)
    apply (game_wf_ext game); done.
  - (* a move waits *)
    split; [exact W1|]. split; [cbn; congruence|].
    split; [destruct Hnr as [Hn|Hn]; apply moves_get_None in Hn as [Hn _];
            [by left|by right]|].
    split; [|exact (conj W5 (conj W6 (conj W7 W8)))].
    intros u' mv'. cbn. intros Hu.
    destruct (decide (u = u')) as [<-|Hne].
    + rewrite lookup_insert_eq in Hu. by injection Hu as <-.
    + rewrite lookup_insert_ne in Hu by done. by apply W4 in Hu.
  - (* a move resolves the round *)
    set (g1 := movedGame u mv game).
    destruct (resolvedGame_facts g1 moveA moveB Hf)
      as (Rm & S0 & S1 & R0 & R1 & Rs & Rx & Rf & Rn).
    destruct (awardRound_more (roundWinnerOf g1 moveA moveB) g1)
      as (A0 & A1 & U & M & I & L0 & L1 & L).
    assert (accepted (player0 (resolvedGame g1 moveA moveB)) =
              accepted (player0 game) ∧
            accepted (player1 (resolvedGame g1 moveA moveB)) =
              accepted (player1 game)) as [-> ->]
      by (unfold resolvedGame, prepareNextRound;
          repeat case_match; cbn; by rewrite A0, A1).
    assert (usedCards (resolvedGame g1 moveA moveB) =
              usedCards (scoreRound g1 moveA moveB)) as EU
      by (unfold resolvedGame, prepareNextRound; by repeat case_match).
    assert (currentRound (resolvedGame g1 moveA moveB) =
              getRoundInfo (roundNumber (resolvedGame g1 moveA moveB))) as EC.
    { rewrite Rn. unfold resolvedGame, prepareNextRound.
      rewrite isGameOverAt_scoreRound.
      destruct (scoreRound_round g1 moveA moveB) as [Er Ec].
      destruct (isGameOverAt g1);
        cbn [currentRound set_disconnectTimer set_isFinished set_moves set_round];
        rewrite ?Er, ?Ec; [subst g1; exact W6|done]. }
    rewrite Rm, Rs, Rf, Rn, S0, S1, EU.
    split; [intros _; by apply W1|]. split; [subst g1; cbn; congruence|].
    split; [left; apply lookup_empty|].
    split; [intros u' mv'; by rewrite lookup_empty|].
    rewrite Hf in W5, W8.
    rewrite Rn in EC.
    assert (roundNumber g1 = roundNumber game) as Eg1 by done.
    rewrite Eg1 in EC |- *.
    assert (score (player0 g1) = score (player0 game) ∧
            score (player1 g1) = score (player1 game)) as [E0 E1] by done.
    rewrite E0, E1 in L.
    assert (score (player0 (scoreRound g1 moveA moveB)) =
              score (player0 (awardRound (roundWinnerOf g1 moveA moveB) g1)) ∧
            score (player1 (scoreRound g1 moveA moveB)) =
              score (player1 (awardRound (roundWinnerOf g1 moveA moveB) g1)))
      as [-> ->] by done.
    split; [destruct (isGameOverAt g1); lia|].
    split; [exact EC|].
    unfold scoreRound. cbn [usedCards set_usedCards]. rewrite U, M.
    assert (usedCards g1 = usedCards game) as -> by done.
    split; [by do 2 apply addUsedCard_NoDup|].
    pose proof (addUsedCard_length (moves g1) (odId (player1 g1))
                  (addUsedCard (moves g1) (odId (player0 g1)) (usedCards game))).
    pose proof (addUsedCard_length (moves g1) (odId (player0 g1)) (usedCards game)).
    destruct (isGameOverAt g1); lia.
Qed.

Lemma evolves_refl game : evolves game game.
Proof. unfold evolves. repeat split; done. Qed.

Lemma evolves_trans g1 g2 g3 : evolves g1 g2 → evolves g2 g3 → evolves g1 g3.
Proof.
  intros (A1 & A2 & A3 & A4 & A5 & A6 & A7 & A8 & A9 & A10 & A11 & A12)
         (B1 & B2 & B3 & B4 & B5 & B6 & B7 & B8 & B9 & B10 & B11 & B12).
  unfold evolves. repeat split; try congruence; try lia; try tauto.
  by etrans.
Qed.

(** Through one event a game stays in the store and only moves forward. *)
Lemma store_step_evolves t s s' gid game :
  store_step t s s' → games s !! gid = Some game →
  ∃ game', games s' !! gid = Some game' ∧ evolves game game'.
Proof.
  intros [[Eg _]|[(gid0 & g & g' & _ & Hg & Hstep & Eg & _)
                 |(p1 & p2 & _ & _ & _ & Hfresh & Eg & _)]] Hgame; rewrite Eg.
  - exists game. split; [done|apply evolves_refl].
  - destruct (decide (gid0 = gid)) as [->|Hne].
    + exists g'. rewrite lookup_insert_eq. split; [done|].
      rewrite Hg in Hgame. injection Hgame as <-. by apply game_step_evolves.
    + exists game. rewrite lookup_insert_ne by done.
      split; [done|apply evolves_refl].
  - exists game. rewrite lookup_insert_ne by congruence.
    split; [done|apply evolves_refl].
Qed.

Lemma store_step_wf t s s' :
  store_step t s s' →
  (∀ gid game, games s !! gid = Some game → game_wf game) →
  ∀ gid game, games s' !! gid = Some game → game_wf game.
Proof.
  intros [[Eg _]|[(gid0 & g & g' & _ & Hg & Hstep & Eg & _)
                 |(p1 & p2 & _ & _ & _ & Hfresh & Eg & _)]] Hwf gid game;
    rewrite Eg.
  - apply Hwf.
  - destruct (decide (gid0 = gid)) as [->|Hne].
    + rewrite lookup_insert_eq. intros [= <-].
      apply (game_step_wf g); [by apply (Hwf gid)|done].
    + rewrite lookup_insert_ne by done. apply Hwf.
  - destruct (decide (nextGameId s = gid)) as [<-|Hne].
    + rewrite lookup_insert_eq. intros [= <-]. apply newGame_wf.
    + rewrite lookup_insert_ne by done. apply Hwf.
Qed.

Lemma reachable_wf s gid game :
  reachable s → games s !! gid = Some game → game_wf game.
Proof.
  intros Hr. revert gid game. induction Hr as [|s e Hr IH].
  - intros gid game Hg. cbn in Hg. by rewrite lookup_empty in Hg.
  - apply (store_step_wf (target s e) s); [|done].
    apply step_store, reachable_Inv, Hr.
Qed.

Lemma run_evolves s es gid game :
  Inv s → games s !! gid = Some game →
  ∃ game', games (fst (run s es)) !! gid = Some game' ∧ evolves game game'.
Proof.
  revert s game. induction es as [|e es IH]; intros s game HI Hg.
  - exists game. split; [done|apply evolves_refl].
  - rewrite run_cons_fst.
    destruct (store_step_evolves _ s _ gid game (step_store s e HI) Hg)
      as (g1 & Hg1 & E1).
    destruct (IH _ g1 (step_Inv s e HI) Hg1) as (g2 & Hg2 & E2).
    exists g2. split; [done|by apply (evolves_trans _ g1)].
Qed.

(** ** Sessions do not interfere *)

(** X1.  An event changes no game but the one it is addressed to: the game
    it names, the game the lost connection is routed to, or the game that
    pairing creates.  Every other game of the store is exactly as
    before. *)
Theorem other_games_are_untouched (s : State) (e : Event) (gid : nat) (game : Game) :
  reachable s → games s !! gid = Some game → target s e ≠ Some gid →
  games (fst (step s e)) !! gid = Some game.
Proof.
  intros Hr Hg Ht.
  destruct (step_store s e (reachable_Inv s Hr))
    as [[Eg _]|[(gid0 & g & g' & Et & _ & _ & Eg & _)
               |(p1 & p2 & Et & _ & _ & _ & Eg & _)]]; rewrite Eg.
  - done.
  - rewrite lookup_insert_ne; [done|]. congruence.
  - rewrite lookup_insert_ne; [done|]. congruence.
Qed.

Lemma other_games_are_untouched_witness :
  let s := fst (run s_active queue_again) in
  let e := moveOf "s1" "A" 7 85 in
  reachable s ∧ (∃ game1, games s !! 1 = Some game1 ∧
                          games (fst (step s e)) !! 1 = Some game1).
Proof.
  intros s e.
  assert (reachable s) as Hr by apply reachable_run, reachable_s_active.
  split; [exact Hr|].
  assert (games s !! 1 =
            Some (newGame 1 (mkQueueEntry "s1" "A" "alice")
                            (mkQueueEntry "s3" "C" "carol"))) as Hg
    by (vm_compute; reflexivity).
  eexists. split; [exact Hg|].
  apply (other_games_are_untouched s e 1 _ Hr Hg). discriminate.
Defined.

(** X2.  No sequence of events removes a game or changes who plays it:
    the game stays in the store with its identifier, its two player
    identifiers and its number of rounds; once started, finished or
    accepted it stays so; scores and the round number never decrease, and
    the list of used cards only grows at its end. *)
Theorem games_only_move_forward
    (s : State) (es : list Event) (gid : nat) (game : Game) :
  reachable s → games s !! gid = Some game →
  ∃ game', games (fst (run s es)) !! gid = Some game' ∧ evolves game game'.
Proof. intros Hr Hg. by apply run_evolves; [apply reachable_Inv|]. Qed.

Lemma games_only_move_forward_witness :
  reachable s_active ∧ games s_active !! 0 = Some game0_active ∧
  ∃ game', games (fst (run s_active five_rounds)) !! 0 = Some game' ∧
           evolves game0_active game'.
Proof.
  split; [exact reachable_s_active|]. split; [exact s_active_game0|].
  exact (games_only_move_forward s_active five_rounds 0 game0_active
           reachable_s_active s_active_game0).
Defined.

(** ** What holds of every game between two events *)

(** X3.  A game is started only when both players have accepted. *)
Theorem started_only_when_both_accepted (s : State) (gid : nat) (game : Game) :
  reachable s → games s !! gid = Some game → isStarted game = true →
  accepted (player0 game) = true ∧ accepted (player1 game) = true.
Proof. intros Hr Hg. by destruct (reachable_wf s gid game Hr Hg) as (W1 & _). Qed.

Lemma started_only_when_both_accepted_witness :
  reachable s_active ∧ games s_active !! 0 = Some game0_active ∧
  isStarted game0_active = true ∧
  accepted (player0 game0_active) = true ∧ accepted (player1 game0_active) = true.
Proof.
  split; [exact reachable_s_active|]. split; [exact s_active_game0|].
  split; [reflexivity|].
  exact (started_only_when_both_accepted s_active 0 game0_active
           reachable_s_active s_active_game0 eq_refl).
Defined.

(** X4.  Until it is started a game is as pairing created it: no move is
    pending, it is at round 1 (the round of the stat pace), no card is
    used and both scores are 0, whatever rejoins, disconnects or forfeits
    it has seen. *)
Theorem unstarted_game_is_at_its_beginning (s : State) (gid : nat) (game : Game) :
  reachable s → games s !! gid = Some game → isStarted game = false →
  moves game = ∅ ∧ roundNumber game = 1 ∧
  currentRound game = mkRoundInfo 1 "pace" false ∧
  usedCards game = [] ∧
  score (player0 game) = 0 ∧ score (player1 game) = 0.
Proof.
  intros Hr Hg Hs.
  destruct (reachable_wf s gid game Hr Hg) as (_ & W2 & _ & _ & _ & W6 & _).
  destruct (W2 Hs) as (Em & Er & Eu & S0 & S1). rewrite W6, Er. done.
Qed.

Lemma unstarted_game_is_at_its_beginning_witness :
  let s := fst (run s_paired [Disconnect "s2"; JoinGame "s3" (Some 0) "B" "bobby";
                              PlayerAccepted "s3" (Some 0)]) in
  reachable s ∧
  ∃ game, games s !! 0 = Some game ∧ isStarted game = false ∧
          moves game = ∅ ∧ roundNumber game = 1 ∧ usedCards game = [].
Proof.
  intros s.
  assert (reachable s) as Hr by apply reachable_run, reachable_s_paired.
  split; [exact Hr|].
  assert (∃ game, games s !! 0 = Some game ∧ isStarted game = false)
    as (game & Hg & Hs)
    by (eexists; split; [vm_compute; reflexivity|reflexivity]).
  exists game.
  destruct (unstarted_game_is_at_its_beginning s 0 game Hr Hg Hs)
    as (Em & Er & _ & Eu & _).
  exact (conj Hg (conj Hs (conj Em (conj Er Eu)))).
Defined.

(** X5.  Between two events the two players never both hold a pending
    move: the second move of a round resolves it within its own event.
    Every pending move is filed under the identifier of a member of the
    game, the one it carries. *)
Theorem at_most_one_move_is_pending (s : State) (gid : nat) (game : Game) :
  reachable s → games s !! gid = Some game →
  (moves game !! odId (player0 game) = None ∨
   moves game !! odId (player1 game) = None) ∧
  ∀ u mv, moves game !! u = Some mv → mv_odId mv = u ∧ is_member game u.
Proof.
  intros Hr Hg.
  by destruct (reachable_wf s gid game Hr Hg) as (_ & _ & W3 & W4 & _).
Qed.

Lemma at_most_one_move_is_pending_witness :
  let s := fst (run s_active [moveOf "s1" "A" 7 85]) in
  reachable s ∧ games s !! 0 = Some game0_moved ∧
  (moves game0_moved !! "A" = None ∨ moves game0_moved !! "B" = None).
Proof.
  intros s.
  assert (reachable s) as Hr by apply reachable_run, reachable_s_active.
  assert (games s !! 0 = Some game0_moved) as Hg by (vm_compute; reflexivity).
  split; [exact Hr|]. split; [exact Hg|].
  exact (proj1 (at_most_one_move_is_pending s 0 game0_moved Hr Hg)).
Defined.

(** X6.  The two scores of a game add up to at most the number of resolved
    rounds: less than the round number while the game goes on, and never
    more than [MAX_ROUNDS]. *)
Theorem scores_are_bounded_by_the_rounds (s : State) (gid : nat) (game : Game) :
  reachable s → games s !! gid = Some game →
  (score (player0 game) + score (player1 game) ≤ MAX_ROUNDS)%nat ∧
  (isFinished game = false →
     (score (player0 game) + score (player1 game) < roundNumber game)%nat).
Proof.
  intros Hr Hg.
  destruct (reachable_wf s gid game Hr Hg) as (_ & _ & _ & _ & W5 & _).
  destruct (proj1 (reachable_Inv s Hr) _ _ Hg) as [_ (_ & _ & _ & _ & _ & Hround)].
  split; [destruct (isFinished game); lia|]. intros Hf. rewrite Hf in W5. lia.
Qed.

Lemma scores_are_bounded_by_the_rounds_witness :
  let s := fst (run s_active five_rounds) in
  reachable s ∧
  ∃ game, games s !! 0 = Some game ∧
          (score (player0 game) + score (player1 game) ≤ MAX_ROUNDS)%nat.
Proof.
  intros s.
  assert (reachable s) as Hr by apply reachable_run, reachable_s_active.
  split; [exact Hr|].
  assert (∃ game, games s !! 0 = Some game) as (game & Hg)
    by (eexists; vm_compute; reflexivity).
  exists game. split; [exact Hg|].
  exact (proj1 (scores_are_bounded_by_the_rounds s 0 game Hr Hg)).
Defined.

Lemma getRoundInfo_in_game n :
  (1 ≤ n ≤ MAX_ROUNDS)%nat →
  round (getRoundInfo n) = n ∧ (isGKRound (getRoundInfo n) = true ↔ n = 4).
Proof.
  unfold MAX_ROUNDS. intros Hn.
  assert (n = 1 ∨ n = 2 ∨ n = 3 ∨ n = 4 ∨ n = 5) as [->|[->|[->|[->| ->]]]]
    by lia; cbn; split; try done; split; (done || lia).
Qed.

(** X7.  The current round of a game is always the catalogue entry of its
    round number: its [round] field is the round number, and it is the
    goalkeeper round exactly at round 4. *)
Theorem current_round_follows_the_round_number
    (s : State) (gid : nat) (game : Game) :
  reachable s → games s !! gid = Some game →
  currentRound game = getRoundInfo (roundNumber game) ∧
  round (currentRound game) = roundNumber game ∧
  (isGKRound (currentRound game) = true ↔ roundNumber game = 4).
Proof.
  intros Hr Hg.
  destruct (reachable_wf s gid game Hr Hg) as (_ & _ & _ & _ & _ & W6 & _).
  destruct (proj1 (reachable_Inv s Hr) _ _ Hg) as [_ (_ & _ & _ & _ & _ & Hround)].
  split; [done|]. rewrite W6. by apply getRoundInfo_in_game.
Qed.

Lemma current_round_follows_the_round_number_witness :
  let s := fst (run s_active (take 6 five_rounds)) in
  reachable s ∧
  ∃ game, games s !! 0 = Some game ∧ roundNumber game = 4 ∧
          isGKRound (currentRound game) = true.
Proof.
  intros s.
  assert (reachable s) as Hr by apply reachable_run, reachable_s_active.
  split; [exact Hr|].
  assert (∃ game, games s !! 0 = Some game ∧ roundNumber game = 4)
    as (game & Hg & Hn)
    by (eexists; split; [vm_compute; reflexivity|reflexivity]).
  exists game. split; [exact Hg|]. split; [exact Hn|].
  destruct (current_round_follows_the_round_number s 0 game Hr Hg)
    as (_ & _ & Hgk).
  exact (proj2 Hgk Hn).
Defined.

(** X8.  The used cards of a game hold no card twice, and at most two
    cards per resolved round: never more than [2 * MAX_ROUNDS]. *)
Theorem used_cards_are_distinct (s : State) (gid : nat) (game : Game) :
  reachable s → games s !! gid = Some game →
  NoDup (usedCards game) ∧
  (length (usedCards game) ≤ 2 * MAX_ROUNDS)%nat ∧
  (isFinished game = false →
     (length (usedCards game) ≤ 2 * (roundNumber game - 1))%nat).
Proof.
  intros Hr Hg.
  destruct (reachable_wf s gid game Hr Hg) as (_ & _ & _ & _ & _ & _ & W7 & W8).
  destruct (proj1 (reachable_Inv s Hr) _ _ Hg) as [_ (_ & _ & _ & _ & _ & Hround)].
  split; [done|]. split; [destruct (isFinished game); lia|].
  intros Hf. rewrite Hf in W8. lia.
Qed.

Lemma used_cards_are_distinct_witness :
  let s := fst (run s_active five_rounds) in
  reachable s ∧
  ∃ game, games s !! 0 = Some game ∧ NoDup (usedCards game) ∧
          (length (usedCards game) ≤ 2 * MAX_ROUNDS)%nat.
Proof.
  intros s.
  assert (reachable s) as Hr by apply reachable_run, reachable_s_active.
  split; [exact Hr|].
  assert (∃ game, games s !! 0 = Some game) as (game & Hg)
    by (eexists; vm_compute; reflexivity).
  exists game. split; [exact Hg|].
  destruct (used_cards_are_distinct s 0 game Hr Hg) as (Hn & Hl & _).
  exact (conj Hn Hl).
Defined.

(** ** The round catalogue *)

(** X9.  The round catalogue is cyclic with period 7: for every round
    number from 1 on, the entry of [n + 7] is the entry of [n], its [round]
    field is the place of [n] in the cycle, and it is the goalkeeper round
    exactly at the fourth place of the cycle. *)
Theorem getRoundInfo_is_cyclic (n : nat) :
  (1 ≤ n)%nat →
  getRoundInfo (n + 7) = getRoundInfo n ∧
  round (getRoundInfo n) = (n - 1) mod 7 + 1 ∧
  (isGKRound (getRoundInfo n) = true ↔ (n - 1) mod 7 = 3).
Proof.
  intros Hn. unfold getRoundInfo. cbn [length roundStats].
  split.
  - replace (n + 7 - 1) with (n - 1 + 1 * 7) by lia.
    by rewrite Nat.Div0.mod_add.
  - pose proof (Nat.mod_upper_bound (n - 1) 7 ltac:(lia)) as Hlt.
    destruct ((n - 1) mod 7) as [|[|[|[|[|[|[|k]]]]]]]; cbn;
      try (split; [done|split; (done || lia)]).
    lia.
Qed.

Lemma getRoundInfo_is_cyclic_witness :
  (1 ≤ 11)%nat ∧ getRoundInfo (11 + 7) = getRoundInfo 11 ∧
  isGKRound (getRoundInfo 11) = true.
Proof.
  split; [lia|].
  destruct (getRoundInfo_is_cyclic 11 ltac:(lia)) as (Hc & _ & Hgk).
  split; [exact Hc|]. exact (proj2 Hgk eq_refl).
Defined.

(** ** Ranking points *)

(** Two assignments of numbers, under different keys, to a new object. *)
Lemma js_set_pair {A} (w l : string) (a b : A) :
  w ≠ l →
  let m := js_set l b (js_set w a (∅ : gmap string A)) in
  m !! w = (if String.eqb w "__proto__" then None else Some a) ∧
  m !! l = (if String.eqb l "__proto__" then None else Some b) ∧
  ∀ k, k ≠ w → k ≠ l → m !! k = None.
Proof.
  intros Hne m. subst m. split; [|split].
  - rewrite js_set_lookup_ne by done.
    destruct (String.eqb_spec w "__proto__") as [->|Hw].
    + by rewrite js_set_proto.
    + by apply js_set_lookup.
  - destruct (String.eqb_spec l "__proto__") as [->|Hl].
    + apply js_set_proto_absent, js_set_proto_absent, lookup_empty.
    + by apply js_set_lookup.
  - intros k Hw Hl. rewrite !js_set_lookup_ne by done. apply lookup_empty.
Qed.

(** X10.  Without a winner or without a loser there are no ranking-point
    deltas.  With a winner and a loser that differ, the deltas are theirs
    and nobody else's: the winner gains [RP_WIN], or
    [RP_OPP_DISCONNECT_WIN] when the opponent disconnected; the loser loses
    [RP_FORFEIT_LOSS] after a forfeit or a disconnect and [RP_LOSS]
    otherwise; the winner's delta is positive and the loser's negative.
    The one exception is a player named [__proto__]: assigning its delta
    defines no key, and the deltas have no entry for it. *)
Theorem rp_change_by_reason (w l reason : string) :
  truthy w = true → truthy l = true → w ≠ l →
  let m := calculateRpChange (Some w) (Some l) reason in
  let dw := if String.eqb reason "opponent-disconnected"
            then RP_OPP_DISCONNECT_WIN else RP_WIN in
  let dl := if String.eqb reason "forfeit"
               || String.eqb reason "opponent-disconnected"
            then RP_FORFEIT_LOSS else RP_LOSS in
  m !! w = (if String.eqb w "__proto__" then None else Some dw) ∧
  m !! l = (if String.eqb l "__proto__" then None else Some dl) ∧
  (∀ k, k ≠ w → k ≠ l → m !! k = None) ∧
  (0 < dw)%Z ∧ (dl < 0)%Z ∧
  calculateRpChange None (Some l) reason = ∅ ∧
  calculateRpChange (Some w) None reason = ∅ ∧
  calculateRpChange (Some "") (Some l) reason = ∅ ∧
  calculateRpChange (Some w) (Some "") reason = ∅.
Proof.
  intros Hw Hl Hne m dw dl. subst m dw dl. unfold calculateRpChange.
  rewrite Hw, Hl. cbn [negb orb].
  destruct (String.eqb reason "forfeit") eqn:Hf.
  - apply String.eqb_eq in Hf as ->. cbn [String.eqb Ascii.eqb Bool.eqb orb].
    destruct (js_set_pair w l RP_WIN RP_FORFEIT_LOSS Hne) as (A & B & C).
    repeat split; done.
  - destruct (String.eqb reason "opponent-disconnected"); cbn [orb].
    + destruct (js_set_pair w l RP_OPP_DISCONNECT_WIN RP_FORFEIT_LOSS Hne)
        as (A & B & C).
      repeat split; done.
    + destruct (js_set_pair w l RP_WIN RP_LOSS Hne) as (A & B & C).
      repeat split; done.
Qed.

Lemma rp_change_by_reason_witness :
  truthy "A" = true ∧ truthy "__proto__" = true ∧ "A" ≠ "__proto__" ∧
  calculateRpChange (Some "A") (Some "__proto__") "opponent-disconnected"
    !! "A" = Some RP_OPP_DISCONNECT_WIN ∧
  calculateRpChange (Some "A") (Some "__proto__") "opponent-disconnected"
    !! "__proto__" = None.
Proof.
  assert ("A" ≠ "__proto__") as Hne by discriminate.
  split; [reflexivity|]. split; [reflexivity|]. split; [exact Hne|].
  destruct (rp_change_by_reason "A" "__proto__" "opponent-disconnected"
              eq_refl eq_refl Hne) as (Hw & Hl & _).
  exact (conj Hw Hl).
Defined.

(** ** Pairing *)

Lemma pair_induction (P : list QueueEntry → Prop) :
  P [] → (∀ p, P [p]) → (∀ p1 p2 q, P q → P (p1 :: p2 :: q)) → ∀ q, P q.
Proof.
  intros H0 H1 H2 q.
  assert (P q ∧ ∀ p, P (p :: q)) as [H _]; [|done].
  induction q as [|p q [IH1 IH2]]; [by split|].
  split; [apply IH2|]. intros p0. by apply H2.
Qed.

(** X11.  [tryMatchPlayers] pairs the waiting entries in the order of
    their arrival: the entries at the places [2i] and [2i+1] of the queue
    make the [i]-th new game, the earlier of the two as its host, and each
    of the two is told of the match with the identity of the other.  One
    game is created per pair, an entry is left waiting exactly when the
    queue was of odd length, and the games that existed are not touched. *)
Theorem pairing_is_first_in_first_out (q : list QueueEntry) (s : State) :
  let r := tryMatchPlayers_from q s in
  let n := length q / 2 in
  nextGameId (fst r) = nextGameId s + n ∧
  queue (fst r) = drop (2 * n) q ∧
  length (queue (fst r)) = length q mod 2 ∧
  (∀ k, (k < nextGameId s)%nat → games (fst r) !! k = games s !! k) ∧
  ∀ i p1 p2,
    q !! (2 * i) = Some p1 → q !! (2 * i + 1) = Some p2 →
    games (fst r) !! (nextGameId s + i)
      = Some (newGame (nextGameId s + i) p1 p2) ∧
    (q_socketId p1,
     MatchFound (nextGameId s + i) (q_odId p2) (q_username p2) true) ∈ snd r ∧
    (q_socketId p2,
     MatchFound (nextGameId s + i) (q_odId p1) (q_username p1) false) ∈ snd r.
Proof.
  revert s. induction q as [|p|p1 p2 q IH] using pair_induction; intros s.
  - cbn. rewrite Nat.add_0_r. do 4 (split; [done|]).
    intros i p1 p2 H1. done.
  - cbn. rewrite Nat.add_0_r. do 4 (split; [done|]).
    intros i p1 p2 _ H2. by destruct i.
  - cbn zeta. cbn [tryMatchPlayers_from].
    assert (length (p1 :: p2 :: q) / 2 = S (length q / 2)) as ->.
    { cbn [length]. replace (S (S (length q))) with (length q + 1 * 2) by lia.
      rewrite Nat.div_add by lia. lia. }
    assert (length (p1 :: p2 :: q) mod 2 = length q mod 2) as ->.
    { cbn [length]. replace (S (S (length q))) with (length q + 1 * 2) by lia.
      by rewrite Nat.Div0.mod_add. }
    replace (2 * S (length q / 2)) with (S (S (2 * (length q / 2)))) by lia.
    cbn [drop].
    assert (nextGameId (fst (matchPair p1 p2 s)) = S (nextGameId s)) as Hn1
      by done.
    assert (games (fst (matchPair p1 p2 s)) =
              <[nextGameId s := newGame (nextGameId s) p1 p2]> (games s)) as Hg1
      by done.
    assert (snd (matchPair p1 p2 s) =
              [ (q_socketId p1,
                 MatchFound (nextGameId s) (q_odId p2) (q_username p2) true);
                (q_socketId p2,
                 MatchFound (nextGameId s) (q_odId p1) (q_username p1) false) ])
      as Ho1 by done.
    destruct (matchPair p1 p2 s) as [s1 out1]. cbn [fst snd] in *.
    specialize (IH s1). cbn zeta in IH.
    destruct (tryMatchPlayers_from q s1) as [s2 out2]. cbn [fst snd] in *.
    destruct IH as (In & Iq & Il & Ik & Ip).
    split; [lia|]. split; [done|]. split; [done|].
    split.
    { intros k Hk. rewrite Ik by lia. rewrite Hg1.
      apply lookup_insert_ne. lia. }
    intros i q1 q2 H1 H2. destruct i as [|i].
    + cbn in H1, H2. injection H1 as <-. injection H2 as <-.
      rewrite Nat.add_0_r. rewrite Ik by lia. rewrite Hg1, Ho1.
      split; [apply lookup_insert_eq|].
      split; apply elem_of_app; left; [left|right; left].
    + replace (2 * S i) with (S (S (2 * i))) in H1 by lia.
      replace (2 * S i + 1) with (S (S (2 * i + 1))) in H2 by lia.
      cbn in H1, H2. destruct (Ip i q1 q2 H1 H2) as (Hg & Ha & Hb).
      replace (nextGameId s + S i) with (nextGameId s1 + i) by lia.
      split; [done|]. split; apply elem_of_app; by right.
Qed.

Lemma pairing_is_first_in_first_out_witness :
  let r := tryMatchPlayers_from three_waiting s_active in
  three_waiting !! 0 = Some (mkQueueEntry "s1" "A" "alice") ∧
  three_waiting !! 1 = Some (mkQueueEntry "s2" "B" "bob") ∧
  queue (fst r) = [mkQueueEntry "s3" "C" "carol"] ∧
  games (fst r) !! 1 = Some (newGame 1 (mkQueueEntry "s1" "A" "alice")
                                       (mkQueueEntry "s2" "B" "bob")).
Proof.
  intros r.
  destruct (pairing_is_first_in_first_out three_waiting s_active)
    as (_ & Hq & _ & _ & Hp).
  split; [reflexivity|]. split; [reflexivity|]. split; [exact Hq|].
  exact (proj1 (Hp 0 _ _ eq_refl eq_refl)).
Defined.

(** ** Joining and leaving the queue *)

(** X12.  An accepted join-queue answers first, to the joining connection,
    with its place in the queue, which is always the last one: the place
    and the queue size it reports are both the number of entries then
    waiting, the joining one included, 1 or 2.  The connection and the
    player identifier are bound to each other. *)
Theorem queue_joined_reports_the_last_place (s : State) (sid u name : string) :
  reachable s → truthy u = true → truthy name = true →
  let r := step s (JoinQueue sid u name) in
  let n := length (removeFromQueueBySocket sid (queue s)) + 1 in
  (1 ≤ n ≤ 2)%nat ∧
  (∃ out, snd r = (sid, QueueJoined n n) :: out) ∧
  socketToUser (fst r) !! sid = Some u ∧
  userToSocket (fst r) !! u = Some sid.
Proof.
  intros Hr Hu Hn r n. destruct (reachable_Inv s Hr) as [_ [_ Hlen]].
  subst r n. cbn [step]. unfold onJoinQueue. rewrite Hu, Hn. cbn [negb orb].
  unfold tryMatchPlayers.
  cbn [queue set_queue set_userToSocket set_socketToUser].
  destruct (removeFromQueueBySocket_short sid (queue s) Hlen)
    as [->|(p & Hq & Hrem)].
  - cbn. rewrite String.eqb_refl. cbn.
    split; [lia|]. split; [by eexists|]. split; apply lookup_insert_eq.
  - rewrite Hrem. rewrite Hq in Hrem. cbn in Hrem.
    destruct (String.eqb (q_socketId p) sid) eqn:He; [done|].
    cbn. rewrite He, String.eqb_refl. cbn.
    split; [lia|]. split; [by eexists|]. split; apply lookup_insert_eq.
Qed.

Lemma queue_joined_reports_the_last_place_witness :
  let s := fst (run s_active [JoinQueue "s1" "A" "alice"]) in
  reachable s ∧ truthy "C" = true ∧ truthy "carol" = true ∧
  ∃ out, snd (step s (JoinQueue "s3" "C" "carol"))
           = ("s3", QueueJoined 2 2) :: out.
Proof.
  intros s.
  assert (reachable s) as Hr by apply reachable_run, reachable_s_active.
  split; [exact Hr|]. split; [reflexivity|]. split; [reflexivity|].
  exact (proj1 (proj2 (queue_joined_reports_the_last_place s "s3" "C" "carol"
                         Hr eq_refl eq_refl))).
Defined.

Lemma removeFromQueueBySocket_absent sid q :
  findIndexBySocket sid q = None → removeFromQueueBySocket sid q = q.
Proof.
  induction q as [|p q IH]; cbn; [done|].
  destruct (String.eqb (q_socketId p) sid); [done|].
  destruct (findIndexBySocket sid q); [done|]. intros _. by rewrite IH.
Qed.

(** X13.  A leave-queue, and likewise a disconnect, leaves no queue entry
    of the connection behind, and a leave-queue of a connection that is not
    waiting leaves the queue as it is; in both cases the leave is
    acknowledged with queue-left and no game is touched. *)
Theorem leave_queue_removes_the_entry (s : State) (sid : string) :
  reachable s →
  let r := step s (LeaveQueue sid) in
  findIndexBySocket sid (queue (fst r)) = None ∧
  findIndexBySocket sid (queue (fst (step s (Disconnect sid)))) = None ∧
  (findIndexBySocket sid (queue s) = None → fst r = s) ∧
  snd r = [(sid, QueueLeft)] ∧ games (fst r) = games s.
Proof.
  intros Hr r. destruct (reachable_Inv s Hr) as [_ [_ Hlen]].
  assert (findIndexBySocket sid (removeFromQueueBySocket sid (queue s)) = None)
    as Hgone.
  { destruct (queue s) as [|p [|p' q]]; cbn in *; [done| |lia].
    destruct (String.eqb (q_socketId p) sid) eqn:He; [done|]. cbn.
    by rewrite He. }
  subst r. cbn [step]. rewrite onDisconnect_queue. cbn.
  split; [done|]. split; [done|]. split; [|done].
  intros Habs. rewrite (removeFromQueueBySocket_absent _ _ Habs).
  by destruct s.
Qed.

Lemma leave_queue_removes_the_entry_witness :
  let s := fst (run s_active [JoinQueue "s3" "C" "carol"]) in
  reachable s ∧ findIndexBySocket "s3" (queue s) = Some 0 ∧
  findIndexBySocket "s3" (queue (fst (step s (LeaveQueue "s3")))) = None.
Proof.
  intros s.
  assert (reachable s) as Hr by apply reachable_run, reachable_s_active.
  split; [exact Hr|]. split; [reflexivity|].
  exact (proj1 (leave_queue_removes_the_entry s "s3" Hr)).
Defined.

(** ** The accept handshake *)

Lemma put_game_twice gid g g' s :
  put_game gid g' (put_game gid g s) = put_game gid g' s.
Proof. unfold put_game, set_games. cbn. by rewrite insert_insert_eq. Qed.

Lemma put_game_same gid g s : games s !! gid = Some g → put_game gid g s = s.
Proof.
  intros Hg. unfold put_game, set_games. rewrite (insert_id _ _ _ Hg).
  by destruct s.
Qed.

Lemma upd_accepted_again idx game :
  accepted (player_at idx game) = true →
  upd_player idx (set_accepted true) game = game.
Proof.
  destruct game as [i [o0 n0 s0 a0 c0 r0 k0] [o1 n1 s1 a1 c1 r1 k1] ? ? ? ? ? ? ? ? ? ?].
  unfold player_at, upd_player, set_accepted. cbn.
  destruct (Nat.eqb idx 0); cbn; by intros ->.
Qed.

Lemma acceptedGame_facts idx game :
  isFinished game = false →
  accepted (player_at idx (acceptedGame idx game)) = true ∧
  isFinished (acceptedGame idx game) = false ∧
  odId (player0 (acceptedGame idx game)) = odId (player0 game) ∧
  odId (player1 (acceptedGame idx game)) = odId (player1 game) ∧
  (isStarted (acceptedGame idx game) = false →
     accepted (player0 (acceptedGame idx game))
     && accepted (player1 (acceptedGame idx game)) = false) ∧
  (isStarted game = false →
   accepted (player_at (getOpponentIndex idx) game) = true →
   isStarted (acceptedGame idx game) = true) ∧
  (accepted (player_at (getOpponentIndex idx) game) = false →
   isStarted (acceptedGame idx game) = isStarted game).
Proof.
  destruct game as [i [o0 n0 s0 a0 c0 r0 k0] [o1 n1 s1 a1 c1 r1 k1]
                      ? ? ? ? ? ? st fi ? ?].
  cbn. intros ->.
  unfold acceptedGame, player_at, getOpponentIndex, upd_player, set_accepted,
    set_isStarted.
  destruct (Nat.eqb idx 0); destruct st, a0, a1; cbn; repeat split; done.
Qed.

Lemma acceptedGame_again idx game :
  isFinished game = false →
  acceptedGame idx (acceptedGame idx game) = acceptedGame idx game.
Proof.
  intros Hf.
  destruct (acceptedGame_facts idx game Hf) as (Ha & Hf' & _ & _ & Hns & _).
  unfold acceptedGame at 1. cbn zeta.
  rewrite (upd_accepted_again idx _ Ha), Hf', orb_false_r.
  destruct (isStarted (acceptedGame idx game)) eqn:Hs; [done|].
  by rewrite (Hns eq_refl).
Qed.

(** The player-accepted handler for a member of an unfinished game. *)
Lemma onPlayerAccepted_member s sid gid game u idx :
  games s !! gid = Some game → isFinished game = false →
  socketToUser s !! sid = Some u → truthy u = true →
  getPlayerIndex game u = Some idx →
  onPlayerAccepted sid (Some gid) s =
    (put_game gid (acceptedGame idx game) s,
     if negb (isStarted game) && isStarted (acceptedGame idx game)
     then startNotices s (acceptedGame idx game) else []).
Proof.
  intros Hg Hf Hsu Hu Hi. unfold onPlayerAccepted.
  rewrite Hg, Hf, Hsu, Hu, Hi. cbn [negb].
  unfold maybeStartGame, acceptedGame. cbn [games put_game set_games].
  rewrite lookup_insert_eq. cbn zeta.
  set (g1 := upd_player idx (set_accepted true) game).
  assert (isStarted g1 = isStarted game ∧ isFinished g1 = false) as [Es Ef]
    by done.
  rewrite Es, Ef, orb_false_r.
  destruct (isStarted game) eqn:Hs; cbn [negb andb orb]; [done|].
  destruct (negb _); cbn [negb andb].
  - by rewrite Es.
  - cbn [isStarted set_isStarted]. cbn [andb].
    rewrite put_game_twice. unfold startNotices, emitGameState.
    cbn [games put_game set_games]. rewrite lookup_insert_eq.
    reflexivity.
Qed.

Lemma getPlayerIndex_acceptedGame idx game u :
  isFinished game = false →
  getPlayerIndex (acceptedGame idx game) u = getPlayerIndex game u.
Proof.
  intros Hf.
  destruct (acceptedGame_facts idx game Hf) as (_ & _ & E0 & E1 & _).
  unfold getPlayerIndex. by rewrite E0, E1.
Qed.

(** X14.  A repeated player-accepted changes nothing: the state after the
    second is the state after the first, and the second emits nothing
    but the game-not-found error (for an unknown or finished game); in
    particular it never starts a game a second time. *)
Theorem accepting_twice_is_accepting_once s sid gid :
  let e := PlayerAccepted sid gid in
  let s1 := fst (step s e) in
  fst (step s1 e) = s1 ∧
  ∀ a, a ∈ snd (step s1 e) →
       a = (sid, GameError "Game not found" "GAME_NOT_FOUND" gid).
Proof.
  cbn zeta. cbn [step].
  assert (∀ s0, onPlayerAccepted sid gid s0 = (s0, []) →
            fst (onPlayerAccepted sid gid s0) = s0 ∧
            ∀ a, a ∈ snd (onPlayerAccepted sid gid s0) →
              a = (sid, GameError "Game not found" "GAME_NOT_FOUND" gid)) as Hnil.
  { intros s0 ->. split; [done|]. intros a Ha. cbn in Ha. by apply elem_of_nil in Ha. }
  assert (∀ s0, onPlayerAccepted sid gid s0 =
                  (s0, [(sid, GameError "Game not found" "GAME_NOT_FOUND" gid)]) →
            fst (onPlayerAccepted sid gid s0) = s0 ∧
            ∀ a, a ∈ snd (onPlayerAccepted sid gid s0) →
              a = (sid, GameError "Game not found" "GAME_NOT_FOUND" gid)) as Herr.
  { intros s0 ->. split; [done|]. intros a Ha. cbn in Ha.
    by apply list_elem_of_singleton in Ha. }
  destruct gid as [gid|]; [|by apply Hnil].
  destruct (games s !! gid) as [game|] eqn:Hg;
    [|assert (onPlayerAccepted sid (Some gid) s =
              (s, [(sid, GameError "Game not found" "GAME_NOT_FOUND" (Some gid))]))
        as E by (unfold onPlayerAccepted; by rewrite Hg);
      rewrite E; by apply Herr].
  destruct (isFinished game) eqn:Hf;
    [assert (onPlayerAccepted sid (Some gid) s =
              (s, [(sid, GameError "Game not found" "GAME_NOT_FOUND" (Some gid))]))
        as E by (unfold onPlayerAccepted; by rewrite Hg, Hf);
      rewrite E; by apply Herr|].
  destruct (socketToUser s !! sid) as [u|] eqn:Hsu;
    [|assert (onPlayerAccepted sid (Some gid) s = (s, []))
        as E by (unfold onPlayerAccepted; by rewrite Hg, Hf, Hsu);
      rewrite E; by apply Hnil].
  destruct (truthy u) eqn:Hu;
    [|assert (onPlayerAccepted sid (Some gid) s = (s, []))
        as E by (unfold onPlayerAccepted; by rewrite Hg, Hf, Hsu, Hu);
      rewrite E; by apply Hnil].
  destruct (getPlayerIndex game u) as [idx|] eqn:Hi;
    [|assert (onPlayerAccepted sid (Some gid) s = (s, []))
        as E by (unfold onPlayerAccepted; by rewrite Hg, Hf, Hsu, Hu, Hi);
      rewrite E; by apply Hnil].
  rewrite (onPlayerAccepted_member s sid gid game u idx Hg Hf Hsu Hu Hi).
  cbn [fst].
  destruct (acceptedGame_facts idx game Hf) as (_ & Hf' & _).
  rewrite (onPlayerAccepted_member (put_game gid (acceptedGame idx game) s)
             sid gid (acceptedGame idx game) u idx).
  - rewrite (acceptedGame_again idx game Hf), put_game_twice.
    rewrite andb_negb_l. cbn [fst snd]. split; [done|].
    intros a Ha. by apply elem_of_nil in Ha.
  - cbn. apply lookup_insert_eq.
  - done.
  - done.
  - done.
  - by rewrite getPlayerIndex_acceptedGame.
Qed.

(** X15.  For a member of an unstarted, unfinished game, player-accepted
    starts the game exactly when the opponent has accepted already: then
    the game is stored as started and game-started and the first
    game-state go out; otherwise the acceptance is recorded, the game
    stays unstarted and nothing is emitted. *)
Theorem the_second_acceptance_starts_the_game s sid gid game u idx :
  games s !! gid = Some game →
  isFinished game = false → isStarted game = false →
  socketToUser s !! sid = Some u → truthy u = true →
  getPlayerIndex game u = Some idx →
  let r := step s (PlayerAccepted sid (Some gid)) in
  ∃ game',
    games (fst r) !! gid = Some game' ∧
    accepted (player_at idx game') = true ∧
    (accepted (player_at (getOpponentIndex idx) game) = true →
       isStarted game' = true ∧ snd r = startNotices s game') ∧
    (accepted (player_at (getOpponentIndex idx) game) = false →
       isStarted game' = false ∧ snd r = []).
Proof.
  intros Hg Hf Hs Hsu Hu Hi. cbn zeta. cbn [step].
  rewrite (onPlayerAccepted_member s sid gid game u idx Hg Hf Hsu Hu Hi).
  cbn [fst snd]. rewrite Hs. cbn [negb andb].
  destruct (acceptedGame_facts idx game Hf) as (Ha & _ & _ & _ & _ & Hy & Hn).
  exists (acceptedGame idx game). split; [cbn; apply lookup_insert_eq|].
  split; [done|]. split.
  - intros Ho. rewrite (Hy Hs Ho). done.
  - intros Ho. rewrite (Hn Ho), Hs. done.
Qed.

Lemma the_second_acceptance_starts_the_game_witness :
  let s1 := fst (step s_paired (PlayerAccepted "s1" (Some 0))) in
  ∃ game0, games s1 !! 0 = Some game0 ∧
  isFinished game0 = false ∧ isStarted game0 = false ∧
  socketToUser s1 !! "s2" = Some "B" ∧ truthy "B" = true ∧
  getPlayerIndex game0 "B" = Some 1 ∧
  ∃ game',
    games (fst (step s1 (PlayerAccepted "s2" (Some 0)))) !! 0 = Some game' ∧
    accepted (player_at 1 game') = true ∧
    (accepted (player_at (getOpponentIndex 1) game0) = true →
       isStarted game' = true ∧
       snd (step s1 (PlayerAccepted "s2" (Some 0))) = startNotices s1 game') ∧
    (accepted (player_at (getOpponentIndex 1) game0) = false →
       isStarted game' = false ∧
       snd (step s1 (PlayerAccepted "s2" (Some 0))) = []).
Proof.
  cbn zeta.
  set (s1 := fst (step s_paired (PlayerAccepted "s1" (Some 0)))).
  set (g := mkGame 0 (mkPlayer "A" "alice" "s1" true 0 0 true)
                     (mkPlayer "B" "bob" "s2" false 0 0 true)
                   (<["B" := 0]> (<["A" := 0]> ∅)) [] (mkRoundInfo 1 "pace" false)
                   1 5 ∅ false false None None).
  assert (games s1 !! 0 = Some g) as Hg by (vm_compute; reflexivity).
  assert (socketToUser s1 !! "s2" = Some "B") as Hsu by (vm_compute; reflexivity).
  exists g.
  exact (conj Hg (conj eq_refl (conj eq_refl (conj Hsu (conj eq_refl (conj eq_refl
    (the_second_acceptance_starts_the_game s1 "s2" 0 g "B" 1
       Hg eq_refl eq_refl Hsu eq_refl eq_refl))))))).
Defined.

(** ** Leaving a game *)

Lemma opponent_truthy gid game idx :
  game_ok gid game →
  truthy (odId (player_at (getOpponentIndex idx) game)) = true.
Proof.
  intros (_ & _ & T0 & T1 & _).
  unfold player_at, getOpponentIndex. by destruct (Nat.eqb idx 0).
Qed.

(** The scores of a notice, for two players with different identifiers. *)
Lemma computeScoresFromGame_lookup game :
  odId (player0 game) ≠ odId (player1 game) →
  let m := computeScoresFromGame game in
  m !! odId (player0 game) =
    (if String.eqb (odId (player0 game)) "__proto__" then None
     else Some (score (player0 game))) ∧
  m !! odId (player1 game) =
    (if String.eqb (odId (player1 game)) "__proto__" then None
     else Some (score (player1 game))) ∧
  ∀ k, k ≠ odId (player0 game) → k ≠ odId (player1 game) → m !! k = None.
Proof. intros Hne. by apply js_set_pair. Qed.

(** X16.  leave-game by a member of an unfinished game, started or not,
    ends the game as a forfeit: the game is stored as finished, and the
    game-ended notice, sent to the players whose connections are live,
    names the opponent as the winner and the leaver as the loser, with no
    disconnected player.  When the two players differ, the ranking-point
    deltas are [RP_WIN] for the opponent and [RP_FORFEIT_LOSS] for the
    leaver and nothing else, and the scores are those of the two players;
    a player named [__proto__] has no entry in either. *)
Theorem leaving_a_game_forfeits_it s sid gid game u idx :
  reachable s →
  games s !! gid = Some game → isFinished game = false →
  socketToUser s !! sid = Some u →
  getPlayerIndex game u = Some idx →
  let r := step s (LeaveGame sid (Some gid)) in
  let opp := odId (player_at (getOpponentIndex idx) game) in
  ∃ p game',
    (∀ a, a ∈ snd r ↔
          ∃ pl, (pl = player0 game ∨ pl = player1 game) ∧
                truthy (socketId pl) = true ∧ socketId pl ∈ sockets s ∧
                a = (socketId pl, GameEnded p)) ∧
    ge_gameId p = gid ∧ ge_reason p = "forfeit" ∧
    ge_winner p = opp ∧ ge_loser p = u ∧
    ge_disconnectedPlayer p = None ∧
    (u ≠ opp →
       ge_rpChange p !! opp =
         (if String.eqb opp "__proto__" then None else Some RP_WIN) ∧
       ge_rpChange p !! u =
         (if String.eqb u "__proto__" then None else Some RP_FORFEIT_LOSS) ∧
       (∀ k, k ≠ opp → k ≠ u → ge_rpChange p !! k = None) ∧
       ge_scores p !! odId (player0 game) =
         (if String.eqb (odId (player0 game)) "__proto__" then None
          else Some (score (player0 game))) ∧
       ge_scores p !! odId (player1 game) =
         (if String.eqb (odId (player1 game)) "__proto__" then None
          else Some (score (player1 game)))) ∧
    games (fst r) !! gid = Some game' ∧ isFinished game' = true ∧
    isStarted game' = isStarted game.
Proof.
  intros Hr Hg Hf Hsu Hi. cbn zeta. cbn [step].
  destruct (reachable_Inv s Hr) as [HG _].
  destruct (HG gid game Hg) as [_ Hok].
  pose proof (member_truthy gid game u idx Hok Hi) as Hu.
  pose proof (opponent_truthy gid game idx Hok) as Ho.
  pose proof (getPlayerIndex_Some _ _ _ Hi) as Eu.
  unfold onLeaveGame. rewrite Hg, Hf, Hsu, Hu, Hi. cbn [negb].
  rewrite (finishGame_lookup _ _ _ _ Hg Hf).
  rewrite (finishGame_unfold _ _ _ _ Hg Hf). cbn [snd].
  unfold getOpponentOdId. rewrite Hi.
  set (opp := odId (player_at (getOpponentIndex idx) game)) in *.
  eexists _, _.
  split; [intros a; exact (emit_players_spec s (set_isFinished true game) _ a)|].
  destruct Hok as (Hid & _).
  unfold gameEndedPayload, finalLoserOf, finalWinnerOf.
  cbn [fa_reason fa_winnerOdId fa_loserOdId fa_disconnectedPlayerOdId
       truthy_opt ge_gameId ge_reason ge_winner ge_loser ge_rpChange
       ge_scores ge_disconnectedPlayer disconnectedPlayerOf].
  rewrite Ho, Hu. cbn [negb andb truthy_opt or_empty].
  rewrite Ho, Hu. cbn [or_empty].
  do 5 (split; [done|]). split; [|done].
  intros Hne.
  assert (opp ≠ u) as Hne' by congruence.
  unfold calculateRpChange. rewrite Ho, Hu. cbn [negb orb].
  destruct (js_set_pair opp u RP_WIN RP_FORFEIT_LOSS Hne') as (A & B & C).
  split; [exact A|]. split; [exact B|]. split; [exact C|].
  assert (odId (player0 game) ≠ odId (player1 game)) as H01.
  { subst opp. revert Hne Eu. unfold player_at, getOpponentIndex.
    destruct (Nat.eqb idx 0); cbn; congruence. }
  destruct (computeScoresFromGame_lookup game H01) as (S0 & S1 & _).
  split; [exact S0|exact S1].
Qed.

Lemma leaving_a_game_forfeits_it_witness :
  reachable s_paired ∧
  games s_paired !! 0 = Some game0_paired ∧ isFinished game0_paired = false ∧
  isStarted game0_paired = false ∧
  socketToUser s_paired !! "s2" = Some "B" ∧
  getPlayerIndex game0_paired "B" = Some 1 ∧
  ∃ p game',
    ("s1", GameEnded p) ∈ snd (step s_paired (LeaveGame "s2" (Some 0))) ∧
    ("s2", GameEnded p) ∈ snd (step s_paired (LeaveGame "s2" (Some 0))) ∧
    ge_reason p = "forfeit" ∧ ge_winner p = "A" ∧ ge_loser p = "B" ∧
    ge_rpChange p !! "A" = Some RP_WIN ∧
    ge_rpChange p !! "B" = Some RP_FORFEIT_LOSS ∧
    games (fst (step s_paired (LeaveGame "s2" (Some 0)))) !! 0 = Some game' ∧
    isFinished game' = true ∧ isStarted game' = false.
Proof.
  destruct (leaving_a_game_forfeits_it s_paired "s2" 0 game0_paired "B" 1
              reachable_s_paired s_paired_game0 eq_refl
              (proj2 s_paired_socket_s2) eq_refl)
    as (p & game' & Hout & _ & Hre & Hw & Hl & _ & Hrp & Hk & Hfin & Hst).
  assert ("B" ≠ "A") as Hne by discriminate.
  destruct (Hrp Hne) as (RA & RB & _).
  assert ("s1" ∈ sockets s_paired) as L1 by (vm_compute; reflexivity).
  assert ("s2" ∈ sockets s_paired) as L2 by (vm_compute; reflexivity).
  split; [exact reachable_s_paired|]. split; [exact s_paired_game0|].
  do 2 (split; [reflexivity|]).
  split; [exact (proj2 s_paired_socket_s2)|]. split; [reflexivity|].
  exists p, game'.
  split; [apply Hout; exists (player0 game0_paired);
          exact (conj (or_introl eq_refl) (conj eq_refl (conj L1 eq_refl)))|].
  split; [apply Hout; exists (player1 game0_paired);
          exact (conj (or_intror eq_refl) (conj eq_refl (conj L2 eq_refl)))|].
  exact (conj Hre (conj Hw (conj Hl (conj RA (conj RB
           (conj Hk (conj Hfin Hst))))))).
Defined.

(** ** The end of a game by normal completion *)

Lemma normal_winner_either game w :
  w = None ∨ w = winnerByScore game →
  finalWinnerOf game (mkFinishArgs "normal" w None None) = winnerByScore game.
Proof.
  unfold finalWinnerOf. cbn [fa_winnerOdId fa_reason].
  intros [-> | ->]; [done|].
  destruct (truthy_opt (winnerByScore game)) eqn:E; [done|].
  cbn. done.
Qed.

(** X17.  When [finishGame] ends an unfinished game of two different
    players for the reason [normal], with the winner left open or given as
    the winner by score, the notice goes to the players whose connections
    are live and names the player with the strictly higher score as the
    winner and the other one as the loser, with [RP_WIN] and [RP_LOSS] as
    their deltas and no other delta; on equal scores the winner and the
    loser are empty and there are no deltas.  The scores are those of the
    two players and no disconnected player is reported.  A player named
    [__proto__] has no entry among the deltas and the scores. *)
Theorem normal_end_names_winner_and_loser s gid game w :
  game_ok gid game → odId (player0 game) ≠ odId (player1 game) →
  games s !! gid = Some game → isFinished game = false →
  w = None ∨ w = winnerByScore game →
  let u0 := odId (player0 game) in
  let u1 := odId (player1 game) in
  let out := snd (finishGame s gid (mkFinishArgs "normal" w None None)) in
  ∃ p,
    (∀ a, a ∈ out ↔
          ∃ pl, (pl = player0 game ∨ pl = player1 game) ∧
                truthy (socketId pl) = true ∧ socketId pl ∈ sockets s ∧
                a = (socketId pl, GameEnded p)) ∧
    ((score (player1 game) < score (player0 game))%nat →
       ge_winner p = u0 ∧ ge_loser p = u1 ∧
       ge_rpChange p !! u0 =
         (if String.eqb u0 "__proto__" then None else Some RP_WIN) ∧
       ge_rpChange p !! u1 =
         (if String.eqb u1 "__proto__" then None else Some RP_LOSS)) ∧
    ((score (player0 game) < score (player1 game))%nat →
       ge_winner p = u1 ∧ ge_loser p = u0 ∧
       ge_rpChange p !! u1 =
         (if String.eqb u1 "__proto__" then None else Some RP_WIN) ∧
       ge_rpChange p !! u0 =
         (if String.eqb u0 "__proto__" then None else Some RP_LOSS)) ∧
    (score (player0 game) = score (player1 game) →
       ge_winner p = "" ∧ ge_loser p = "" ∧ ge_rpChange p = ∅) ∧
    (∀ k, k ≠ u0 → k ≠ u1 →
          ge_rpChange p !! k = None ∧ ge_scores p !! k = None) ∧
    ge_scores p !! u0 =
      (if String.eqb u0 "__proto__" then None else Some (score (player0 game))) ∧
    ge_scores p !! u1 =
      (if String.eqb u1 "__proto__" then None else Some (score (player1 game))) ∧
    ge_disconnectedPlayer p = None.
Proof.
  intros Hok Hne Hg Hf Hw. cbn zeta.
  rewrite (finishGame_unfold _ _ _ _ Hg Hf). cbn [snd].
  eexists.
  split; [intros a; exact (emit_players_spec s (set_isFinished true game) _ a)|].
  destruct Hok as (_ & _ & T0 & T1 & _).
  assert (String.eqb (odId (player0 game)) (odId (player1 game)) = false)
    as N01 by by apply String.eqb_neq.
  assert (String.eqb (odId (player1 game)) (odId (player0 game)) = false)
    as N10 by (apply String.eqb_neq; congruence).
  assert (odId (player1 game) ≠ odId (player0 game)) as Hne' by congruence.
  destruct (computeScoresFromGame_lookup game Hne) as (S0 & S1 & S2).
  unfold gameEndedPayload, finalLoserOf.
  rewrite normal_winner_either
    by (destruct Hw as [-> | ->]; [by left | by right]).
  cbn [fa_reason fa_winnerOdId fa_loserOdId fa_disconnectedPlayerOdId
       truthy_opt ge_gameId ge_reason ge_winner ge_loser ge_rpChange
       ge_scores ge_disconnectedPlayer disconnectedPlayerOf negb andb].
  change (winnerByScore (set_isFinished true game)) with (winnerByScore game).
  change (computeScoresFromGame (set_isFinished true game))
    with (computeScoresFromGame game).
  assert (findOther (set_isFinished true game) (Some (odId (player0 game)))
            = Some (odId (player1 game))) as F0.
  { unfold findOther, neq_opt. cbn [player0 player1 set_isFinished odId].
    by rewrite String.eqb_refl, N10. }
  assert (findOther (set_isFinished true game) (Some (odId (player1 game)))
            = Some (odId (player0 game))) as F1.
  { unfold findOther, neq_opt. cbn [player0 player1 set_isFinished odId].
    by rewrite N01. }
  split; [|split; [|split; [|split; [|done]]]].
  - intros Hlt.
    destruct (winnerByScore_cases game) as [[_ ->]|[[? _]|[? _]]]; [|lia|lia].
    cbn [truthy_opt or_empty]. rewrite T0, F0.
    unfold or_null. cbn [truthy_opt]. rewrite T1. cbn [or_empty truthy_opt].
    rewrite T1. unfold calculateRpChange. rewrite T0, T1. cbn [negb orb].
    replace (("normal" =? "forfeit")%string) with false by done.
    replace (("normal" =? "opponent-disconnected")%string) with false by done.
    destruct (js_set_pair _ _ RP_WIN RP_LOSS Hne) as (A & B & _).
    done.
  - intros Hlt.
    destruct (winnerByScore_cases game) as [[? _]|[[_ ->]|[? _]]]; [lia| |lia].
    cbn [truthy_opt or_empty]. rewrite T1, F1.
    unfold or_null. cbn [truthy_opt]. rewrite T0. cbn [or_empty truthy_opt].
    rewrite T0. unfold calculateRpChange. rewrite T0, T1. cbn [negb orb].
    replace (("normal" =? "forfeit")%string) with false by done.
    replace (("normal" =? "opponent-disconnected")%string) with false by done.
    destruct (js_set_pair _ _ RP_WIN RP_LOSS Hne') as (A & B & _).
    done.
  - intros Heq.
    destruct (winnerByScore_cases game) as [[? _]|[[? _]|[_ ->]]]; [lia|lia|].
    cbn. done.
  - intros k K0 K1. split; [|by apply S2].
    destruct (winnerByScore_cases game) as [[_ ->]|[[_ ->]|[_ ->]]].
    + cbn [truthy_opt or_empty]. rewrite T0, F0.
      unfold or_null. cbn [truthy_opt]. rewrite T1.
      unfold calculateRpChange. rewrite T0, T1. cbn [negb orb].
      replace (("normal" =? "forfeit")%string) with false by done.
      replace (("normal" =? "opponent-disconnected")%string) with false by done.
      by apply (js_set_pair _ _ RP_WIN RP_LOSS Hne).
    + cbn [truthy_opt or_empty]. rewrite T1, F1.
      unfold or_null. cbn [truthy_opt]. rewrite T0.
      unfold calculateRpChange. rewrite T0, T1. cbn [negb orb].
      replace (("normal" =? "forfeit")%string) with false by done.
      replace (("normal" =? "opponent-disconnected")%string) with false by done.
      by apply (js_set_pair _ _ RP_WIN RP_LOSS Hne').
    + cbn. apply lookup_empty.
Qed.

Lemma normal_end_names_winner_and_loser_witness :
  let s := fst (run s_active (play 7 85 12 60)) in
  game_ok 0 game0_round2 ∧
  odId (player0 game0_round2) ≠ odId (player1 game0_round2) ∧
  games s !! 0 = Some game0_round2 ∧
  isFinished game0_round2 = false ∧
  (score (player1 game0_round2) < score (player0 game0_round2))%nat ∧
  ∃ p,
    ("s1", GameEnded p)
      ∈ snd (finishGame s 0 (mkFinishArgs "normal" None None None)) ∧
    ("s2", GameEnded p)
      ∈ snd (finishGame s 0 (mkFinishArgs "normal" None None None)) ∧
    ge_winner p = "A" ∧ ge_loser p = "B" ∧
    ge_rpChange p !! "A" = Some RP_WIN ∧ ge_rpChange p !! "B" = Some RP_LOSS ∧
    ge_scores p !! "A" = Some 1 ∧ ge_scores p !! "B" = Some 0.
Proof.
  intros s.
  assert (game_ok 0 game0_round2) as Hok.
  { unfold game_ok, MAX_ROUNDS. cbn. repeat split; try done; lia. }
  assert (odId (player0 game0_round2) ≠ odId (player1 game0_round2)) as Hne
    by (cbn; discriminate).
  assert (games s !! 0 = Some game0_round2) as Hg by (vm_compute; reflexivity).
  assert (score (player1 game0_round2) < score (player0 game0_round2))%nat
    as Hlt by (cbn; lia).
  assert ("s1" ∈ sockets s) as L1 by (vm_compute; reflexivity).
  assert ("s2" ∈ sockets s) as L2 by (vm_compute; reflexivity).
  destruct (normal_end_names_winner_and_loser s 0 game0_round2 None
              Hok Hne Hg eq_refl (or_introl eq_refl))
    as (p & Hout & Hwin & _ & _ & _ & S0 & S1 & _).
  destruct (Hwin Hlt) as (W & L & RA & RB).
  split; [exact Hok|]. split; [exact Hne|]. split; [exact Hg|].
  split; [reflexivity|]. split; [exact Hlt|].
  exists p.
  split; [apply Hout; exists (player0 game0_round2);
          exact (conj (or_introl eq_refl) (conj eq_refl (conj L1 eq_refl)))|].
  split; [apply Hout; exists (player1 game0_round2);
          exact (conj (or_intror eq_refl) (conj eq_refl (conj L2 eq_refl)))|].
  exact (conj W (conj L (conj RA (conj RB (conj S0 S1))))).
Defined.

(** ** What a disconnect does to the helper maps *)

Lemma socket_is_live_elem s sid : socket_is_live s sid = true → sid ∈ sockets s.
Proof.
  unfold socket_is_live. intros [_ H]%andb_true_iff.
  by apply bool_decide_eq_true in H.
Qed.

(** X18.  After a disconnect the connection is bound to nothing: it is not
    among the live connections, it has no user and no game in the helper
    maps, and its user, if it had one, has no connection.  The bindings of
    the other connections and the games of the users are kept.  At most
    one notice is emitted, an opponent-disconnected to another
    connection. *)
Theorem disconnect_unbinds_the_connection (s : State) (sid : string) :
  let r := step s (Disconnect sid) in
  (sid ∉ sockets (fst r)) ∧
  socketToUser (fst r) !! sid = None ∧
  socketToGameId (fst r) !! sid = None ∧
  (∀ u, socketToUser s !! sid = Some u → truthy u = true →
        userToSocket (fst r) !! u = None) ∧
  (∀ sid', sid' ≠ sid →
     socketToUser (fst r) !! sid' = socketToUser s !! sid' ∧
     socketToGameId (fst r) !! sid' = socketToGameId s !! sid') ∧
  userToGameId (fst r) = userToGameId s ∧
  (length (snd r) ≤ 1)%nat ∧
  (∀ a, a ∈ snd r → fst a ≠ sid ∧ ∃ name, snd a = OpponentDisconnected name).
Proof.
  cbn zeta. cbn [step]. unfold onDisconnect. cbn zeta.
  set (s3 := set_socketToGameId _ _).
  set (s4 := match _ with Some u' => _ | None => s3 end).
  assert (sockets s4 = sockets s ∖ {[sid]} ∧
          socketToUser s4 = delete sid (socketToUser s) ∧
          socketToGameId s4 = delete sid (socketToGameId s) ∧
          userToGameId s4 = userToGameId s ∧
          (∀ u, socketToUser s !! sid = Some u → truthy u = true →
                userToSocket s4 !! u = None)) as (E1 & E2 & E3 & E4 & E5).
  { subst s4 s3. cbn.
    destruct (socketToUser s !! sid) as [u|] eqn:Hu; cbn.
    - destruct (truthy u) eqn:Ht; cbn; repeat split; try done.
      + intros u' [= <-] _. apply lookup_delete_eq.
      + intros u' [= <-]. congruence.
    - repeat split; done. }
  clearbody s4. clear s3.
  assert (∀ s' out,
            sockets s' = sockets s4 → socketToUser s' = socketToUser s4 →
            socketToGameId s' = socketToGameId s4 →
            userToGameId s' = userToGameId s4 →
            userToSocket s' = userToSocket s4 →
            (length out ≤ 1)%nat →
            (∀ a, a ∈ out → fst a ≠ sid ∧ ∃ name, snd a = OpponentDisconnected name) →
            (sid ∉ sockets (fst (s', out))) ∧
            socketToUser (fst (s', out)) !! sid = None ∧
            socketToGameId (fst (s', out)) !! sid = None ∧
            (∀ u, socketToUser s !! sid = Some u → truthy u = true →
                  userToSocket (fst (s', out)) !! u = None) ∧
            (∀ sid', sid' ≠ sid →
               socketToUser (fst (s', out)) !! sid' = socketToUser s !! sid' ∧
               socketToGameId (fst (s', out)) !! sid' = socketToGameId s !! sid') ∧
            userToGameId (fst (s', out)) = userToGameId s ∧
            (length (snd (s', out)) ≤ 1)%nat ∧
            (∀ a, a ∈ snd (s', out) →
                  fst a ≠ sid ∧ ∃ name, snd a = OpponentDisconnected name)) as Hgen.
  { intros s' out F1 F2 F3 F4 F5 Hlen Hout. cbn [fst snd].
    rewrite F1, F2, F3, F4, F5, E1, E2, E3, E4.
    split; [rewrite elem_of_difference, elem_of_singleton; tauto|].
    split; [apply lookup_delete_eq|].
    split; [apply lookup_delete_eq|]. split; [exact E5|].
    split; [|done]. intros sid' Hne.
    by rewrite !lookup_delete_ne. }
  assert (∀ a : Emit, a ∈ [] →
            fst a ≠ sid ∧ ∃ name, snd a = OpponentDisconnected name) as Hnil.
  { intros a Ha. by apply elem_of_nil in Ha. }
  cbn [socketToGameId socketToUser set_queue set_sockets].
  destruct (socketToGameId s !! sid) as [gid|];
    [|apply Hgen; solve [done | cbn; lia]].
  destruct (games s4 !! gid) as [game|];
    [|apply Hgen; solve [done | cbn; lia]].
  destruct (isFinished game); [apply Hgen; solve [done | cbn; lia]|].
  destruct (from_option _ _ _) as [idx|];
    [|apply Hgen; solve [done | cbn; lia]].
  apply Hgen; try done.
  - case_match; cbn; lia.
  - intros a Ha. case_match eqn:Hl; [|by apply elem_of_nil in Ha].
    apply list_elem_of_singleton in Ha as ->. cbn [fst snd].
    split; [|by eexists].
    apply socket_is_live_elem in Hl. rewrite E1 in Hl.
    apply elem_of_difference in Hl as [_ Hl]. intros E. apply Hl.
    by apply elem_of_singleton.
Qed.

(** ** Submitting a move: rejected or acknowledged *)

Lemma resolveRoundIfReady_no_error s gid a :
  a ∈ snd (resolveRoundIfReady s gid) → is_error (snd a) = false.
Proof.
  destruct (games s !! gid) as [game|] eqn:Hg;
    [|unfold resolveRoundIfReady; rewrite Hg; by intros ?%elem_of_nil].
  destruct (isFinished game) eqn:Hf;
    [unfold resolveRoundIfReady; rewrite Hg, Hf; by intros ?%elem_of_nil|].
  destruct (moves_get (moves game) (odId (player0 game))) as [moveA|] eqn:HA;
    [|unfold resolveRoundIfReady; rewrite Hg, Hf, HA; by intros ?%elem_of_nil].
  destruct (moves_get (moves game) (odId (player1 game))) as [moveB|] eqn:HB;
    [|unfold resolveRoundIfReady; rewrite Hg, Hf, HA, HB; by intros ?%elem_of_nil].
  rewrite (resolveRoundIfReady_unfold _ _ _ _ _ Hg Hf HA HB). cbn zeta.
  destruct (isGameOverAt _); cbn [snd]; intros [H|H]%elem_of_app.
  - apply emit_players_elem in H. by rewrite H.
  - apply emit_players_elem in H. by rewrite H.
  - apply emit_players_elem in H. by rewrite H.
  - unfold emitGameState in H. case_match; [|by apply elem_of_nil in H].
    apply emit_players_elem in H. by rewrite H.
Qed.

(** The two outcomes of a submit-move. *)
Lemma submit_move_outcomes
    (s : State) (sid : string) (gameId : option nat) (u : string)
    (card : option Z) (value : option Q) (data : option string) :
  let r := step s (SubmitMove sid gameId u card value data) in
  (∃ msg code, r = (s, [(sid, MoveError msg code)])) ∨
  (∃ c rest, snd r = (sid, MoveReceived c) :: rest ∧ no_errors rest).
Proof.
  cbn zeta. cbn [step].
  destruct gameId as [gid|]; [|left; unfold onSubmitMove; by eexists _, _].
  destruct card as [c|];
    [|left; unfold onSubmitMove; by eexists _, _].
  destruct value as [v|];
    [|left; unfold onSubmitMove; by eexists _, _].
  destruct (truthy u) eqn:Hu;
    [|left; unfold onSubmitMove; rewrite Hu; by eexists _, _].
  destruct (games s !! gid) as [game|] eqn:Hg;
    [|left; unfold onSubmitMove; rewrite Hu, Hg; by eexists _, _].
  destruct (isFinished game) eqn:Hf;
    [left; unfold onSubmitMove; rewrite Hu, Hg, Hf; by eexists _, _|].
  destruct (isStarted game) eqn:Hs;
    [|left; unfold onSubmitMove; rewrite Hu, Hg, Hf, Hs; by eexists _, _].
  destruct (getPlayerIndex game u) as [idx|] eqn:Hi;
    [|left; unfold onSubmitMove; rewrite Hu, Hg, Hf, Hs, Hi; by eexists _, _].
  destruct (moves_get (moves game) u) as [mv|] eqn:Hm;
    [left; unfold onSubmitMove; rewrite Hu, Hg, Hf, Hs, Hi, Hm; by eexists _, _|].
  right.
  destruct (onSubmitMove_unfold s sid gid game u idx c v data Hu Hg Hs Hf Hi Hm)
    as (notify & Hn & ->).
  eexists _, _. cbn [snd]. split; [reflexivity|].
  intros a [Ha|Ha]%elem_of_app.
  - by rewrite (Hn a Ha).
  - by apply resolveRoundIfReady_no_error in Ha.
Qed.

(** X19.  A submit-move has one of two outcomes.  Either it is rejected:
    the sender gets exactly one move-error and the state is unchanged.  Or
    it is accepted, which takes a complete payload and a started,
    unfinished game of which the user is a member without a pending move:
    then the first notice is the move-received for the sender, carrying
    the card, and no error notice follows. *)
Theorem submit_move_is_rejected_or_acknowledged
    (s : State) (sid : string) (gameId : option nat) (u : string)
    (card : option Z) (value : option Q) (data : option string) :
  let r := step s (SubmitMove sid gameId u card value data) in
  (∃ msg code, r = (s, [(sid, MoveError msg code)])) ∨
  (∃ gid game idx c v rest,
     gameId = Some gid ∧ card = Some c ∧ value = Some v ∧ truthy u = true ∧
     games s !! gid = Some game ∧
     isStarted game = true ∧ isFinished game = false ∧
     getPlayerIndex game u = Some idx ∧ moves game !! u = None ∧
     snd r = (sid, MoveReceived c) :: rest ∧
     ∀ a, a ∈ rest → is_error (snd a) = false).
Proof.
  cbn zeta. cbn [step].
  destruct gameId as [gid|]; [|left; unfold onSubmitMove; by eexists _, _].
  destruct card as [c|];
    [|left; unfold onSubmitMove; by eexists _, _].
  destruct value as [v|];
    [|left; unfold onSubmitMove; by eexists _, _].
  destruct (truthy u) eqn:Hu;
    [|left; unfold onSubmitMove; rewrite Hu; by eexists _, _].
  destruct (games s !! gid) as [game|] eqn:Hg;
    [|left; unfold onSubmitMove; rewrite Hu, Hg; by eexists _, _].
  destruct (isFinished game) eqn:Hf;
    [left; unfold onSubmitMove; rewrite Hu, Hg, Hf; by eexists _, _|].
  destruct (isStarted game) eqn:Hs;
    [|left; unfold onSubmitMove; rewrite Hu, Hg, Hf, Hs; by eexists _, _].
  destruct (getPlayerIndex game u) as [idx|] eqn:Hi;
    [|left; unfold onSubmitMove; rewrite Hu, Hg, Hf, Hs, Hi; by eexists _, _].
  destruct (moves_get (moves game) u) as [mv|] eqn:Hm;
    [left; unfold onSubmitMove; rewrite Hu, Hg, Hf, Hs, Hi, Hm; by eexists _, _|].
  right.
  destruct (onSubmitMove_unfold s sid gid game u idx c v data Hu Hg Hs Hf Hi Hm)
    as (notify & Hn & ->).
  exists gid, game, idx, c, v. eexists.
  do 8 (split; [done|]).
  split; [by apply moves_get_None in Hm as [? _]|].
  cbn [snd]. split; [reflexivity|].
  intros a [Ha|Ha]%elem_of_app.
  - by rewrite (Hn a Ha).
  - by apply resolveRoundIfReady_no_error in Ha.
Qed.

(** ** The cards of a resolved round *)

Lemma usedCards_resolvedGame game moveA moveB :
  usedCards (resolvedGame game moveA moveB) =
    addUsedCard (moves game) (odId (player1 game))
      (addUsedCard (moves game) (odId (player0 game)) (usedCards game)).
Proof.
  assert (usedCards (resolvedGame game moveA moveB) =
          usedCards (scoreRound game moveA moveB)) as ->
    by (unfold resolvedGame, prepareNextRound; by repeat case_match).
  unfold scoreRound. cbn [usedCards set_usedCards].
  by destruct (awardRound_more (roundWinnerOf game moveA moveB) game)
    as (_ & _ & -> & -> & _).
Qed.

Lemma addUsedCard_only mvs u mv used c :
  mvs !! u = Some mv → c ∈ addUsedCard mvs u used → c ∈ used ∨ c = cardId mv.
Proof.
  intros Hm. rewrite addUsedCard_own, Hm. case_match; [by left|].
  intros [Hc|Hc]%elem_of_app; [by left|]. right.
  by apply list_elem_of_singleton in Hc.
Qed.

Lemma addUsedCard_known mvs u mv used :
  mvs !! u = Some mv → cardId mv ∈ used → addUsedCard mvs u used = used.
Proof.
  intros Hm Hc. rewrite addUsedCard_own, Hm.
  assert (existsb (Z.eqb (cardId mv)) used = true) as ->; [|done].
  apply existsb_exists. exists (cardId mv).
  split; [by apply list_elem_of_In|apply Z.eqb_refl].
Qed.

(** A player whose identifier is a property name of [Object.prototype]
    never gets a move stored, and the move of its opponent never waits:
    the game of such a player has no pending move between two events. *)
Lemma game_step_inherited g g' :
  game_step g g' →
  (inherited (odId (player0 g)) = true ∨ inherited (odId (player1 g)) = true →
   moves g = ∅) →
  inherited (odId (player0 g')) = true ∨ inherited (odId (player1 g')) = true →
  moves g' = ∅.
Proof.
  intros Hstep. destruct Hstep
    as [idx game Hf|sid name idx game Hf|idx game Hf|tm game Hf Ht|game Hf
       |u mv game Hs Hf Hmem Hm Hmv Hnr
       |u mv moveA moveB game Hs Hf Hmem Hm Hmv HA HB]; intros HP.
  - unfold acceptedGame. cbn zeta.
    assert (∀ g0 : Game, odId (player0 (upd_player idx (set_accepted true) g0))
                         = odId (player0 g0) ∧
                         odId (player1 (upd_player idx (set_accepted true) g0))
                         = odId (player1 g0)) as E
      by (intros g0; cbn; by destruct (Nat.eqb idx 0)).
    destruct (E game) as [E0 E1].
    repeat case_match; cbn [odId player0 player1 moves set_isStarted];
      rewrite ?E0, ?E1; exact HP.
  - unfold rejoinedGame. destruct (truthy name); cbn;
      destruct (Nat.eqb idx 0); cbn; exact HP.
  - unfold disconnectedGame. cbn. destruct (Nat.eqb idx 0); cbn; exact HP.
  - exact HP.
  - exact HP.
  - intros Hin. exfalso.
    apply moves_get_None in Hm as [Hm Hu].
    destruct Hmem as [i Hi].
    assert (∀ k, inherited k = true →
              ∃ slot, moves_get (moves (movedGame u mv game)) k = Some slot)
      as Hk by (intros k; apply moves_get_inherited).
    assert (moves_get (moves (movedGame u mv game)) u = Some (OwnMove mv))
      as Hown by (apply moves_get_own; cbn; apply lookup_insert_eq).
    cbn [odId player0 player1 movedGame set_moves] in Hin.
    destruct (getPlayerIndex_inv _ _ _ Hi) as [[-> E0]|(-> & E1 & N0)].
    + destruct Hin as [H0|H1]; [congruence|].
      destruct (Hk _ H1) as [slot Hslot].
      destruct Hnr as [Hn|Hn]; [rewrite E0 in Hn|]; congruence.
    + destruct Hin as [H0|H1]; [|congruence].
      destruct (Hk _ H0) as [slot Hslot].
      destruct Hnr as [Hn|Hn]; [|rewrite E1 in Hn]; congruence.
  - intros _. by destruct (resolvedGame_facts (movedGame u mv game)
                            moveA moveB Hf) as (Rm & _).
Qed.

Lemma reachable_inherited s gid game :
  reachable s → games s !! gid = Some game →
  inherited (odId (player0 game)) = true ∨
  inherited (odId (player1 game)) = true →
  moves game = ∅.
Proof.
  intros Hr. revert gid game. induction Hr as [|s e Hr IH].
  - intros gid game Hg. cbn in Hg. by rewrite lookup_empty in Hg.
  - intros gid game.
    destruct (step_store s e (reachable_Inv s Hr))
      as [[Eg _]|[(gid0 & g & g' & _ & Hg & Hstep & Eg & _)
                 |(p1 & p2 & _ & _ & _ & Hfresh & Eg & _)]]; rewrite Eg.
    + apply IH.
    + destruct (decide (gid0 = gid)) as [->|Hne].
      * rewrite lookup_insert_eq. intros [= <-].
        apply (game_step_inherited g); [done|]. by apply (IH gid).
      * rewrite lookup_insert_ne by done. apply IH.
    + destruct (decide (nextGameId s = gid)) as [<-|Hne].
      * rewrite lookup_insert_eq. by intros [= <-].
      * rewrite lookup_insert_ne by done. apply IH.
Qed.

(** X20.  When a member's move meets the pending move of the opponent, the
    round is resolved and the cards of both moves are among the used cards
    of the game afterwards.  The cards used before stay, in their order,
    nothing else is added, and nothing is added at all when both cards had
    been used before: a card already used is accepted again. *)
Theorem a_resolved_round_uses_both_cards
    (s : State) (sid : string) (gid : nat) (game : Game) (u : string)
    (idx : nat) (card : Z) (value : Q) (data : option string) (theirs : Move) :
  reachable s → games s !! gid = Some game →
  isStarted game = true → isFinished game = false →
  getPlayerIndex game u = Some idx → moves game !! u = None →
  moves game !! odId (player_at (getOpponentIndex idx) game) = Some theirs →
  let r := step s (SubmitMove sid (Some gid) u (Some card) (Some value) data) in
  ∃ game',
    games (fst r) !! gid = Some game' ∧
    card ∈ usedCards game' ∧ cardId theirs ∈ usedCards game' ∧
    usedCards game `prefix_of` usedCards game' ∧
    (∀ c, c ∈ usedCards game' →
          c ∈ usedCards game ∨ c = card ∨ c = cardId theirs) ∧
    (card ∈ usedCards game → cardId theirs ∈ usedCards game →
     usedCards game' = usedCards game).
Proof.
  intros Hr Hg Hs Hf Hi Hm Ho. cbn zeta. cbn [step].
  destruct (reachable_Inv s Hr) as [HG _].
  destruct (HG gid game Hg) as [_ Hok].
  pose proof (member_truthy gid game u idx Hok Hi) as Hu.
  assert (inherited (odId (player0 game)) = false ∧
          inherited (odId (player1 game)) = false) as [PI0 PI1].
  { destruct (inherited (odId (player0 game))) eqn:I0;
      [pose proof (reachable_inherited s gid game Hr Hg (or_introl I0)) as E;
       by rewrite E, lookup_empty in Ho|].
    destruct (inherited (odId (player1 game))) eqn:I1; [|done].
    pose proof (reachable_inherited s gid game Hr Hg (or_intror I1)) as E.
    by rewrite E, lookup_empty in Ho. }
  assert (moves_get (moves game) u = None) as Hm'.
  { destruct (getPlayerIndex_inv _ _ _ Hi) as [[_ <-]|(_ & <- & _)];
      rewrite moves_get_plain by done; by rewrite Hm. }
  destruct (onSubmitMove_unfold s sid gid game u idx card value data
              Hu Hg Hs Hf Hi Hm') as (notify & _ & ->). cbn [fst].
  set (mine := mkMove u card value (or_null data)).
  set (g1 := set_moves (<[u := mine]> (moves game)) game).
  assert (∃ moveA moveB,
            moves g1 !! odId (player0 g1) = Some moveA ∧
            moves g1 !! odId (player1 g1) = Some moveB ∧
            ((moveA = mine ∧ moveB = theirs) ∨ (moveA = theirs ∧ moveB = mine)))
    as (moveA & moveB & HA & HB & Hab).
  { subst g1. cbn [moves set_moves player0 player1].
    destruct (getPlayerIndex_inv game u idx Hi) as [[-> E0]|(-> & E1 & N0)];
      cbn in Ho.
    - assert (odId (player1 game) ≠ u) as N1 by (intros E; congruence).
      exists mine, theirs. rewrite E0, lookup_insert_eq.
      rewrite lookup_insert_ne by done. by eauto.
    - exists theirs, mine. rewrite E1, lookup_insert_eq.
      rewrite lookup_insert_ne by done. by eauto. }
  rewrite (resolveRoundIfReady_lookup (put_game gid g1 s) gid g1
             (OwnMove moveA) (OwnMove moveB))
    by (done || (cbn; apply lookup_insert_eq) || by apply moves_get_own).
  eexists. split; [reflexivity|]. rewrite usedCards_resolvedGame.
  change (usedCards g1) with (usedCards game).
  set (used1 := addUsedCard (moves g1) (odId (player0 g1)) (usedCards game)).
  assert (cardId moveA ∈ used1) as InA by by apply addUsedCard_elem.
  assert (cardId moveB ∈ addUsedCard (moves g1) (odId (player1 g1)) used1)
    as InB by by apply addUsedCard_elem.
  assert (used1 `prefix_of` addUsedCard (moves g1) (odId (player1 g1)) used1)
    as P2 by apply addUsedCard_prefix.
  assert (usedCards game `prefix_of` used1) as P1 by apply addUsedCard_prefix.
  assert (cardId moveA ∈ addUsedCard (moves g1) (odId (player1 g1)) used1)
    as InA'.
  { destruct P2 as [k ->]. apply elem_of_app. by left. }
  assert (∀ c, c ∈ addUsedCard (moves g1) (odId (player1 g1)) used1 →
            c ∈ usedCards game ∨ c = cardId moveA ∨ c = cardId moveB) as Only.
  { intros c Hc. apply (addUsedCard_only _ _ _ _ _ HB) in Hc as [Hc| ->];
      [|by auto].
    apply (addUsedCard_only _ _ _ _ _ HA) in Hc as [Hc| ->]; by auto. }
  assert (cardId moveA ∈ usedCards game → cardId moveB ∈ usedCards game →
          addUsedCard (moves g1) (odId (player1 g1)) used1 = usedCards game)
    as Known.
  { intros KA KB. subst used1.
    rewrite (addUsedCard_known _ _ _ _ HA KA).
    by rewrite (addUsedCard_known _ _ _ _ HB KB). }
  destruct Hab as [[-> ->]|[-> ->]]; cbn [cardId mine] in *.
  - split; [done|]. split; [done|]. split; [by etrans|].
    split; [|done]. intros c Hc. destruct (Only c Hc) as [?|[?|?]]; by auto.
  - split; [done|]. split; [done|]. split; [by etrans|].
    split; [|by auto]. intros c Hc. destruct (Only c Hc) as [?|[?|?]]; by auto.
Qed.

Lemma a_resolved_round_uses_both_cards_witness :
  let s := fst (run s_active [moveOf "s1" "A" 7 85]) in
  reachable s ∧ games s !! 0 = Some game0_moved ∧
  isStarted game0_moved = true ∧ isFinished game0_moved = false ∧
  getPlayerIndex game0_moved "B" = Some 1 ∧
  moves game0_moved !! "B" = None ∧
  moves game0_moved !! "A" = Some (mkMove "A" 7 85 None) ∧
  ∃ game',
    games (fst (step s (moveOf "s2" "B" 12 60))) !! 0 = Some game' ∧
    (12 ∈ usedCards game')%Z ∧ (7 ∈ usedCards game')%Z.
Proof.
  intros s.
  assert (reachable s) as Hr by apply reachable_run, reachable_s_active.
  assert (games s !! 0 = Some game0_moved) as Hg by (vm_compute; reflexivity).
  split; [exact Hr|]. split; [exact Hg|].
  do 5 (split; [reflexivity|]).
  destruct (a_resolved_round_uses_both_cards s "s2" 0 game0_moved "B" 1
              12 60 None (mkMove "A" 7 85 None)
              Hr Hg eq_refl eq_refl eq_refl eq_refl eq_refl)
    as (game' & H1 & H2 & H3 & _).
  exists game'. exact (conj H1 (conj H2 H3)).
Defined.

(** ** Joining a game as one of its players *)

Lemma rejoinedGame_slot sid name idx game :
  let game' := rejoinedGame sid name idx game in
  socketId (player_at idx game') = sid ∧
  connected (player_at idx game') = true ∧
  username (player_at idx game') =
    (if truthy name then name else username (player_at idx game)) ∧
  accepted (player_at idx game') = accepted (player_at idx game) ∧
  score (player_at idx game') = score (player_at idx game) ∧
  player_at (getOpponentIndex idx) game' =
    player_at (getOpponentIndex idx) game ∧
  moves game' = moves game ∧ usedCards game' = usedCards game ∧
  roundNumber game' = roundNumber game ∧
  isStarted game' = isStarted game ∧ isFinished game' = isFinished game ∧
  disconnectTimer game' = disconnectTimer game ∧
  disconnectedPlayerOdId game' = disconnectedPlayerOdId game.
Proof.
  cbn zeta. unfold rejoinedGame.
  rewrite !player_at_upd_same, !player_at_upd_opponent.
  destruct (truthy name);
    rewrite ?player_at_upd_same, ?player_at_upd_opponent; by cbn.
Qed.

(** X21.  join-game by a player of an unfinished game binds the connection,
    the user and the game to one another in the four helper maps, puts the
    connection into the player's slot and marks the slot connected; the
    user name is replaced only by a non-empty one.  The opponent's slot,
    the pending moves, the round, the scores, the grace timer and the
    disconnected-player mark are as before.  The first notice is
    game-joined with the slot index, and in a started game the current
    game-state follows when the connection is live. *)
Theorem join_game_rebinds_the_player
    (s : State) (sid : string) (gid : nat) (game : Game) (u name : string)
    (idx : nat) :
  reachable s → games s !! gid = Some game → isFinished game = false →
  getPlayerIndex game u = Some idx →
  let r := step s (JoinGame sid (Some gid) u name) in
  socketToUser (fst r) !! sid = Some u ∧
  userToSocket (fst r) !! u = Some sid ∧
  socketToGameId (fst r) !! sid = Some gid ∧
  userToGameId (fst r) !! u = Some gid ∧
  (∃ game',
     games (fst r) !! gid = Some game' ∧
     socketId (player_at idx game') = sid ∧
     connected (player_at idx game') = true ∧
     username (player_at idx game') =
       (if truthy name then name else username (player_at idx game)) ∧
     accepted (player_at idx game') = accepted (player_at idx game) ∧
     score (player_at idx game') = score (player_at idx game) ∧
     player_at (getOpponentIndex idx) game' =
       player_at (getOpponentIndex idx) game ∧
     moves game' = moves game ∧ usedCards game' = usedCards game ∧
     roundNumber game' = roundNumber game ∧
     isStarted game' = isStarted game ∧ isFinished game' = false ∧
     disconnectTimer game' = disconnectTimer game ∧
     disconnectedPlayerOdId game' = disconnectedPlayerOdId game ∧
     (isStarted game = true → socket_is_live s sid = true →
      (sid, GameState gid (currentRound game') (computeScoresFromGame game')
              (usedCards game')) ∈ snd r)) ∧
  ∃ rest, snd r = (sid, GameJoined gid u idx) :: rest.
Proof.
  intros Hr Hg Hf Hi. cbn zeta. cbn [step].
  destruct (reachable_Inv s Hr) as [HG _].
  destruct (HG gid game Hg) as [_ Hok].
  pose proof (member_truthy gid game u idx Hok Hi) as Hu.
  unfold onJoinGame. rewrite Hu, Hg, Hf, Hi. cbn [negb]. cbn zeta.
  fold (rejoinedGame sid name idx game).
  destruct (rejoinedGame_slot sid name idx game)
    as (R1 & R2 & R3 & R4 & R5 & R6 & R7 & R8 & R9 & R10 & R11 & R12 & R13).
  cbn [fst snd socketToUser userToSocket socketToGameId userToGameId games
       put_game set_games set_socketToUser set_userToSocket
       set_socketToGameId set_userToGameId].
  rewrite !lookup_insert_eq.
  do 4 (split; [done|]). split; [|by eexists].
  eexists. split; [reflexivity|].
  do 10 (split; [done|]). split; [congruence|]. do 2 (split; [done|]).
  intros Hs Hlive. rewrite R10, R11, Hs, Hf. cbn [andb negb].
  apply elem_of_cons. right. unfold emitGameState.
  cbn [games put_game set_games]. rewrite lookup_insert_eq.
  assert (id (rejoinedGame sid name idx game) = gid) as ->.
  { destruct Hok as [<- _]. unfold rejoinedGame.
    by destruct (truthy name). }
  set (n := GameState _ _ _ _).
  unfold emit_players.
  match goal with |- context [socket_is_live ?s' _] =>
    assert (∀ x, socket_is_live s' x = socket_is_live s x) as El by done
  end.
  rewrite !El. unfold player_at in R1.
  destruct (Nat.eqb idx 0).
  - rewrite R1, Hlive. apply elem_of_app. left.
    by apply list_elem_of_singleton.
  - rewrite R1, Hlive. apply elem_of_app. right.
    by apply list_elem_of_singleton.
Qed.

Lemma join_game_rebinds_the_player_witness :
  let r := step s_active (JoinGame "s3" (Some 0) "B" "") in
  reachable s_active ∧ games s_active !! 0 = Some game0_active ∧
  isFinished game0_active = false ∧
  getPlayerIndex game0_active "B" = Some 1 ∧
  socketToUser (fst r) !! "s3" = Some "B" ∧
  userToSocket (fst r) !! "B" = Some "s3" ∧
  socketToGameId (fst r) !! "s3" = Some 0 ∧
  userToGameId (fst r) !! "B" = Some 0.
Proof.
  pose proof (join_game_rebinds_the_player s_active "s3" 0 game0_active "B" ""
                1 reachable_s_active s_active_game0 eq_refl eq_refl)
    as (H1 & H2 & H3 & H4 & _).
  exact (conj reachable_s_active (conj s_active_game0 (conj eq_refl
    (conj eq_refl (conj H1 (conj H2 (conj H3 H4))))))).
Defined.

(** ** Error replies *)

Lemma no_errors_nil : no_errors [].
Proof. intros a Ha. by apply elem_of_nil in Ha. Qed.

Lemma no_errors_app out1 out2 :
  no_errors out1 → no_errors out2 → no_errors (out1 ++ out2).
Proof. intros H1 H2 a [Ha|Ha]%elem_of_app; auto. Qed.

Lemma no_errors_cons a out :
  is_error (snd a) = false → no_errors out → no_errors (a :: out).
Proof. intros H1 H2 b [->|Hb]%elem_of_cons; auto. Qed.

Lemma no_errors_emit_players s game n :
  is_error n = false → no_errors (emit_players s game n).
Proof. intros Hn a Ha. apply emit_players_elem in Ha. by rewrite Ha. Qed.

Lemma no_errors_emitGameState s gid : no_errors (emitGameState s gid).
Proof.
  unfold emitGameState. case_match; [|apply no_errors_nil].
  by apply no_errors_emit_players.
Qed.

Lemma no_errors_finishGame s gid a : no_errors (snd (finishGame s gid a)).
Proof.
  unfold finishGame. repeat case_match; try apply no_errors_nil.
  by apply no_errors_emit_players.
Qed.

Lemma no_errors_maybeStartGame s gid : no_errors (snd (maybeStartGame s gid)).
Proof.
  unfold maybeStartGame. repeat case_match; try apply no_errors_nil.
  apply no_errors_app; [by apply no_errors_emit_players|].
  apply no_errors_emitGameState.
Qed.

Lemma no_errors_tryMatchPlayers_from q s :
  no_errors (snd (tryMatchPlayers_from q s)).
Proof.
  revert s. induction q as [|p|p1 p2 q IH] using pair_induction; intros s;
    [apply no_errors_nil..|].
  cbn [tryMatchPlayers_from]. unfold matchPair. cbn zeta.
  match goal with |- context [tryMatchPlayers_from q ?s1] =>
    specialize (IH s1); destruct (tryMatchPlayers_from q s1) as [s2 out2]
  end.
  cbn [snd] in *. apply no_errors_app; [|done].
  apply no_errors_cons; [done|]. apply no_errors_cons; [done|].
  apply no_errors_nil.
Qed.

Lemma no_errors_onDisconnect sid s : no_errors (snd (onDisconnect sid s)).
Proof.
  unfold onDisconnect. cbn zeta. repeat case_match; try apply no_errors_nil.
  all: cbn [snd]; apply no_errors_cons; [done|apply no_errors_nil].
Qed.

Lemma no_errors_onTimerFire gid s : no_errors (snd (onTimerFire gid s)).
Proof.
  unfold onTimerFire, graceCallback.
  repeat case_match; try apply no_errors_nil; apply no_errors_finishGame.
Qed.

Ltac error_reply_same :=
  right; eexists _, _;
  do 6 (split; [reflexivity|]); left; reflexivity.

Ltac error_reply_bound :=
  right; eexists _, _;
  do 6 (split; [reflexivity|]); right; eexists; reflexivity.

(** A handler either emits no error notice, or answers the sender with one
    error notice and nothing else, keeping the games and the queue. *)
Lemma step_errors s e :
  no_errors (snd (step s e)) ∨
  ∃ sid n,
    snd (step s e) = [(sid, n)] ∧ is_error n = true ∧ sender e = Some sid ∧
    games (fst (step s e)) = games s ∧ queue (fst (step s e)) = queue s ∧
    nextGameId (fst (step s e)) = nextGameId s ∧
    (fst (step s e) = s ∨
     ∃ gid, n = GameError "Player not part of this game" "NOT_IN_GAME"
                          (Some gid)).
Proof.
  destruct e as [sid|sid|sid u name|sid|sid gameId|sid gameId u name
                 |sid gameId|sid gameId u card value data|gid]; cbn [step].
  - left. apply no_errors_nil.
  - left. apply no_errors_onDisconnect.
  - unfold onJoinQueue.
    destruct (negb (truthy u) || negb (truthy name)); [error_reply_same|].
    left. unfold tryMatchPlayers.
    match goal with |- context [tryMatchPlayers_from ?q ?s1] =>
      pose proof (no_errors_tryMatchPlayers_from q s1) as Hn;
      destruct (tryMatchPlayers_from q s1) as [s2 out2]
    end.
    cbn [snd] in *. by apply no_errors_cons.
  - left. cbn. apply no_errors_cons; [done|apply no_errors_nil].
  - unfold onPlayerAccepted.
    destruct gameId as [gid|]; [|left; apply no_errors_nil].
    destruct (games s !! gid) as [game|]; [|error_reply_same].
    destruct (isFinished game); [error_reply_same|].
    destruct (socketToUser s !! sid) as [u|]; [|left; apply no_errors_nil].
    destruct (negb (truthy u)); [left; apply no_errors_nil|].
    destruct (getPlayerIndex game u) as [idx|]; [|left; apply no_errors_nil].
    left. apply no_errors_maybeStartGame.
  - unfold onJoinGame.
    destruct gameId as [gid|]; [|error_reply_same].
    destruct (negb (truthy u)); [error_reply_same|].
    destruct (games s !! gid) as [game|]; [|error_reply_same].
    destruct (isFinished game); [error_reply_same|].
    destruct (getPlayerIndex game u) as [idx|]; [|error_reply_bound].
    left. cbn [snd]. apply no_errors_cons; [done|].
    case_match; [apply no_errors_emitGameState|apply no_errors_nil].
  - unfold onLeaveGame.
    destruct gameId as [gid|]; [|left; apply no_errors_nil].
    destruct (games s !! gid) as [game|]; [|left; apply no_errors_nil].
    destruct (isFinished game); [left; apply no_errors_nil|].
    destruct (socketToUser s !! sid) as [u|]; [|left; apply no_errors_nil].
    destruct (negb (truthy u)); [left; apply no_errors_nil|].
    destruct (getPlayerIndex game u) as [idx|]; [|left; apply no_errors_nil].
    left. apply no_errors_finishGame.
  - destruct (submit_move_outcomes s sid gameId u card value data)
      as [(msg & code & E)|(c & rest & E & Hrest)].
    + cbn [step] in E. rewrite E. error_reply_same.
    + left. cbn [step] in E. rewrite E. by apply no_errors_cons.
  - left. apply no_errors_onTimerFire.
Qed.

(** X22.  An error notice is never mixed with anything else: when a
    handler emits one, it is the only emission, it goes to the connection
    the event came from, and the games, the queue and the supply of game
    identifiers are as before.  The whole state is as before, except for
    the NOT_IN_GAME answer of join-game, which comes after the helper maps
    are bound. *)
Theorem an_error_is_the_only_reply (s : State) (e : Event) (a : Emit) :
  a ∈ snd (step s e) → is_error (snd a) = true →
  snd (step s e) = [a] ∧ sender e = Some (fst a) ∧
  games (fst (step s e)) = games s ∧ queue (fst (step s e)) = queue s ∧
  nextGameId (fst (step s e)) = nextGameId s ∧
  (fst (step s e) = s ∨
   ∃ gid, snd a = GameError "Player not part of this game" "NOT_IN_GAME"
                            (Some gid)).
Proof.
  intros Ha He.
  destruct (step_errors s e)
    as [Hn|(sid & n & Eo & _ & Es & Eg & Eq & En & Hs)].
  - rewrite (Hn a Ha) in He. discriminate.
  - rewrite Eo in Ha. apply list_elem_of_singleton in Ha as ->.
    cbn [fst snd]. done.
Qed.

Lemma an_error_is_the_only_reply_witness :
  let e := SubmitMove "s1" (Some 0) "A" None (Some 85%Q) None in
  let a := ("s1", MoveError "Invalid move payload" "INVALID_MOVE_PAYLOAD") in
  a ∈ snd (step s_active e) ∧ is_error (snd a) = true ∧
  snd (step s_active e) = [a] ∧ games (fst (step s_active e)) = games s_active.
Proof.
  cbn zeta.
  assert (("s1", MoveError "Invalid move payload" "INVALID_MOVE_PAYLOAD")
            ∈ snd (step s_active
                     (SubmitMove "s1" (Some 0) "A" None (Some 85%Q) None)))
    as Hin by (apply list_elem_of_singleton; reflexivity).
  pose proof (an_error_is_the_only_reply s_active _ _ Hin eq_refl)
    as (H1 & _ & H3 & _).
  exact (conj Hin (conj eq_refl (conj H1 H3))).
Defined.

(** ** Who may move *)

(** X23.  A submit-move names its player in the payload, and the handler
    never compares it with the user bound to the sending connection: the
    state after the event, and the notices emitted in their order, are the
    same whichever connection sends it. *)
Theorem submit_move_ignores_the_sender
    (s : State) (sid sid' : string) (gameId : option nat) (u : string)
    (card : option Z) (value : option Q) (data : option string) :
  let r := step s (SubmitMove sid gameId u card value data) in
  let r' := step s (SubmitMove sid' gameId u card value data) in
  fst r = fst r' ∧ snd <$> snd r = snd <$> snd r' ∧
  tail (fst <$> snd r) = tail (fst <$> snd r').
Proof.
  cbn zeta. cbn [step]. unfold onSubmitMove.
  destruct gameId as [gid|]; [|done].
  destruct card as [c|]; [|done]. destruct value as [v|]; [|done].
  destruct (negb (truthy u)); [done|].
  destruct (games s !! gid) as [game|]; [|done].
  destruct (isFinished game || negb (isStarted game)); [done|].
  destruct (getPlayerIndex game u) as [idx|]; [|done].
  destruct (moves_get (moves game) u) as [mv|]; [done|].
  cbn zeta. destruct (resolveRoundIfReady _ gid) as [s2 out]. done.
Qed.

(** * The grace period after a lost connection *)

(** ** What a game keeps of its grace period *)













(** ** One event *)









(** ** A run of calm events *)






(** ** The elapse of the grace period *)






(** ** A lost connection, then a run of events, then the elapse *)




(** ** The grace period of a session *)





(** One player, on two connections, is paired with itself.  The loss of
    the second connection marks the first slot, whose connection is live,
    and the termination notice names the one player as the winner and as
    the loser. *)
Lemma one_player_on_both_slots :
  let s1 := fst (step s_alone (Disconnect "s2")) in
  socketToUser s_alone !! "s2" = Some "A" ∧
  (∃ g, games s_alone !! 0 = Some g ∧
        getPlayerIndex g "A" = Some 0 ∧
        socketId (player0 g) = "s1" ∧ socketId (player1 g) = "s2") ∧
  (∃ g1, games s1 !! 0 = Some g1 ∧
         connected (player0 g1) = false ∧ connected (player1 g1) = true ∧
         "s1" ∈ sockets s1) ∧
  (λ p, (ge_winner p, ge_loser p))
    <$> omap game_ended_of (snd (step s1 (TimerFire 0))) = [("A", "A")].
Proof.
  cbn zeta. split; [vm_compute; reflexivity|].
  split; [eexists; split; [vm_compute; reflexivity|]; repeat split|].
  split; [eexists; split; [vm_compute; reflexivity|]; repeat split;
          vm_compute; reflexivity|].
  vm_compute. reflexivity.
Qed.



(** * The rounds of a game between players with plain identifiers *)

Lemma notices_between (P : Emit → Prop) (pre mid rest : list Emit) a :
  (∀ e, e ∈ pre → ¬ P e) → (∀ e, e ∈ rest → ¬ P e) → P a →
  a ∈ pre ++ mid ++ rest ↔ a ∈ mid.
Proof.
  intros Hpre Hrest Ha. rewrite !elem_of_app. split; [|tauto].
  intros [H|[H|H]]; [by destruct (Hpre _ H)|done|by destruct (Hrest _ H)].
Qed.

Lemma notices_last (P : Emit → Prop) (pre mid : list Emit) a :
  (∀ e, e ∈ pre → ¬ P e) → P a → a ∈ pre ++ mid ↔ a ∈ mid.
Proof.
  intros Hpre Ha. rewrite elem_of_app. split; [|tauto].
  intros [H|H]; [by destruct (Hpre _ H)|done].
Qed.

Lemma emitGameState_not_completed s gid e :
  e ∈ emitGameState s gid → round_completed_of e = None.
Proof.
  unfold emitGameState, round_completed_of.
  destruct (games s !! gid); [|by intros H%elem_of_nil].
  by intros ->%emit_players_elem.
Qed.

(** X24.  A member of an active game submits a move while the handler
    sees none under the member's identifier.  If it sees none under the
    opponent's either, the move is stored and waits: no round is resolved.
    If the opponent's own move is pending, the round is resolved within
    the same event: the holder of the strictly greater value gains one
    point and is the round winner, equal values give no point and no round
    winner; both pending moves are cleared; the round-completed notice
    goes, once, to each player whose connection is live.  Before the last
    round the game goes on with the round counter advanced by one and no
    game-ended notice; at round [MAX_ROUNDS] the game is finished and the
    game-ended notice, to the same players, names the player with the
    strictly higher score as the winner, or nobody on equal scores. *)
Theorem a_round_is_scored_by_the_stat_values
    (s : State) (sid : string) (gid : nat) (game : Game) (u : string)
    (idx : nat) (card : Z) (value : Q) (data : option string) :
  reachable s → games s !! gid = Some game →
  isStarted game = true → isFinished game = false →
  getPlayerIndex game u = Some idx → moves_get (moves game) u = None →
  let oidx := getOpponentIndex idx in
  let opp := odId (player_at oidx game) in
  let mine := mkMove u card value (or_null data) in
  let r := step s (SubmitMove sid (Some gid) u (Some card) (Some value) data) in
  let to_players (n : Notification) (a : Emit) :=
    ∃ pl, (pl = player0 game ∨ pl = player1 game) ∧
          truthy (socketId pl) = true ∧ socketId pl ∈ sockets s ∧
          a = (socketId pl, n) in
  (moves_get (moves game) opp = None → u ≠ opp →
     games (fst r) !! gid = Some (movedGame u mine game) ∧
     ∀ e, e ∈ snd r → round_completed_of e = None ∧ game_ended_of e = None) ∧
  (∀ theirs, moves game !! opp = Some theirs →
     ∃ game' payload,
       games (fst r) !! gid = Some game' ∧
       moves game' = ∅ ∧
       (∀ a, round_completed_of a ≠ None →
             a ∈ snd r ↔ to_players (RoundCompleted payload) a) ∧
       ((statValue theirs < value)%Q →
          score (player_at idx game') = score (player_at idx game) + 1 ∧
          score (player_at oidx game') = score (player_at oidx game) ∧
          rc_roundWinner payload = Some u) ∧
       ((value < statValue theirs)%Q →
          score (player_at oidx game') = score (player_at oidx game) + 1 ∧
          score (player_at idx game') = score (player_at idx game) ∧
          rc_roundWinner payload = Some opp) ∧
       ((value == statValue theirs)%Q →
          score (player_at idx game') = score (player_at idx game) ∧
          score (player_at oidx game') = score (player_at oidx game) ∧
          rc_roundWinner payload = None) ∧
       ((roundNumber game < MAX_ROUNDS)%nat →
          isFinished game' = false ∧
          roundNumber game' = roundNumber game + 1 ∧
          rc_isGameOver payload = false ∧
          ∀ e, e ∈ snd r → game_ended_of e = None) ∧
       (roundNumber game = MAX_ROUNDS →
          isFinished game' = true ∧ rc_isGameOver payload = true ∧
          ((score (player_at oidx game') < score (player_at idx game'))%nat →
             rc_finalWinner payload = Some u) ∧
          ((score (player_at idx game') < score (player_at oidx game'))%nat →
             rc_finalWinner payload = Some opp) ∧
          (score (player_at idx game') = score (player_at oidx game') →
             rc_finalWinner payload = None) ∧
          ∃ ended,
            (∀ a, game_ended_of a ≠ None →
                  a ∈ snd r ↔ to_players (GameEnded ended) a) ∧
            ge_winner ended = or_empty (rc_finalWinner payload))).
Proof.
  intros Hr Hg Hs Hf Hi Hm oidx opp mine r to_players.
  pose proof (reachable_Inv s Hr) as HI.
  destruct (proj1 HI _ _ Hg) as [_ Hok].
  pose proof Hok as (Hid & Htm & H0 & H1 & Hmax & Hround).
  pose proof (member_truthy _ _ _ _ Hok Hi) as Hu.
  pose proof (moves_get_None _ _ Hm) as [Hm' _].
  destruct (onSubmitMove_unfold s sid gid game u idx card value data
              Hu Hg Hs Hf Hi Hm) as (notify & Hn & Hsub).
  cbn zeta in Hsub. fold mine in Hsub.
  set (game1 := set_moves (<[u := mine]> (moves game)) game) in *.
  set (s1 := put_game gid game1 s) in *.
  assert (games s1 !! gid = Some game1) as Hg1 by (cbn; apply lookup_insert_eq).
  assert (game_ok gid game1) as Hok1 by done.
  assert (∀ n, emit_players s1 game1 n = emit_players s game n) as Hemit
    by (intros n; by apply emit_players_ext).
  assert (r = (fst (resolveRoundIfReady s1 gid),
               (sid, MoveReceived card)
                 :: notify ++ snd (resolveRoundIfReady s1 gid))) as Er
    by (subst r; cbn [step]; exact Hsub).
  clearbody r. subst r. cbn [fst snd].
  assert (∀ e, e ∈ (sid, MoveReceived card) :: notify →
               round_completed_of e = None ∧ game_ended_of e = None) as Hpre.
  { intros e [->|He]%elem_of_cons; [done|].
    apply Hn in He. unfold round_completed_of, game_ended_of. by rewrite He. }
  split.
  - (* the move waits *)
    intros Ho Hne. pose proof (moves_get_None _ _ Ho) as [Ho' Hpo].
    rewrite (resolveRoundIfReady_not_ready s1 gid game1 Hg1).
    + cbn [fst snd]. split; [exact Hg1|]. rewrite app_nil_r. exact Hpre.
    + assert (moves_get (moves game1) opp = None) as Hno.
      { assert (moves game1 !! opp = moves game !! opp) as E
          by (cbn; by rewrite lookup_insert_ne).
        unfold moves_get in Ho |- *. rewrite E. exact Ho. }
      destruct (getPlayerIndex_inv _ _ _ Hi) as [[-> E0]|(-> & E1 & N0)].
      * right. exact Hno.
      * left. exact Hno.
  - (* the round is resolved *)
    intros theirs Ho.
    assert (u ≠ opp) as Hne by (intros E; rewrite <- E, Hm' in Ho; done).
    assert (∀ rest payload,
              snd (resolveRoundIfReady s1 gid) =
                emit_players s game (RoundCompleted payload) ++ rest →
              ((roundNumber game < MAX_ROUNDS)%nat →
                 rest = emitGameState (fst (resolveRoundIfReady s1 gid)) gid) →
              (roundNumber game = MAX_ROUNDS →
                 ∃ ended, rest = emit_players s game (GameEnded ended) ∧
                          ge_winner ended = or_empty (rc_finalWinner payload)) →
              (∀ a, round_completed_of a ≠ None →
                 a ∈ (sid, MoveReceived card)
                       :: notify ++ snd (resolveRoundIfReady s1 gid)
                 ↔ to_players (RoundCompleted payload) a) ∧
              ((roundNumber game < MAX_ROUNDS)%nat →
                 ∀ e, e ∈ (sid, MoveReceived card)
                            :: notify ++ snd (resolveRoundIfReady s1 gid) →
                      game_ended_of e = None) ∧
              (roundNumber game = MAX_ROUNDS →
                 ∃ ended,
                   (∀ a, game_ended_of a ≠ None →
                      a ∈ (sid, MoveReceived card)
                            :: notify ++ snd (resolveRoundIfReady s1 gid)
                      ↔ to_players (GameEnded ended) a) ∧
                   ge_winner ended = or_empty (rc_finalWinner payload)))
      as Hnotices.
    { intros rest payload Hout Hrest Hend.
      rewrite Hout. rewrite app_comm_cons.
      split; [|split].
      - intros a Ha. unfold to_players. rewrite <- emit_players_spec.
        rewrite app_assoc.
        assert (MAX_ROUNDS ≤ roundNumber game ∨ roundNumber game < MAX_ROUNDS)%nat
          as [Hge|Hlt] by lia.
        + destruct Hend as (ended & -> & _); [lia|].
          rewrite <- app_assoc.
          apply (notices_between (λ e, round_completed_of e ≠ None)); [| |done].
          * intros e He Hx. apply Hx. exact (proj1 (Hpre e He)).
          * intros e He%emit_players_elem Hx. apply Hx.
            unfold round_completed_of. by rewrite He.
        + rewrite (Hrest Hlt). rewrite <- app_assoc.
          apply (notices_between (λ e, round_completed_of e ≠ None)); [| |done].
          * intros e He Hx. apply Hx. exact (proj1 (Hpre e He)).
          * intros e He%emitGameState_not_completed Hx. by apply Hx.
      - intros Hlt e He. rewrite (Hrest Hlt) in He.
        apply elem_of_app in He as [He|He]; [exact (proj2 (Hpre e He))|].
        apply elem_of_app in He as [He|He].
        + apply emit_players_elem in He. unfold game_ended_of. by rewrite He.
        + by apply emitGameState_not_ended in He.
      - intros Hmx. destruct (Hend Hmx) as (ended & -> & Hw).
        exists ended. split; [|exact Hw].
        intros a Ha. unfold to_players. rewrite <- emit_players_spec.
        rewrite app_assoc.
        apply (notices_last (λ e, game_ended_of e ≠ None)); [|done].
        intros e [He|He]%elem_of_app Hx; apply Hx;
          [exact (proj2 (Hpre e He))|].
        apply emit_players_elem in He. unfold game_ended_of. by rewrite He. }
    destruct (getPlayerIndex_inv _ _ _ Hi) as [[-> E0]|(-> & E1 & N0)].
    + assert (moves game1 !! odId (player0 game1) = Some mine) as HA
        by (cbn; rewrite E0; apply lookup_insert_eq).
      assert (moves game1 !! odId (player1 game1) = Some theirs) as HB
        by (cbn; rewrite lookup_insert_ne by done; exact Ho).
      destruct (resolveRoundIfReady_spec s1 gid game1 mine theirs
                  Hok1 Hg1 Hf HA HB)
        as (rest & Hl & Hout & Hcl & Hgt & Hlt & Heq & Hnl & Hlast).
      rewrite Hemit in Hout.
      destruct (Hnotices rest _ Hout) as (N1 & N2 & N3);
        [intros Hlt'; by destruct (Hnl Hlt') as (? & ? & ? & ?)
        |intros Hmx; destruct (Hlast Hmx) as (_ & _ & _ & _ & _ & ended & Hre & Hw);
         exists ended; rewrite Hemit in Hre; by split|].
      eexists _, _. split; [exact Hl|]. split; [exact Hcl|].
      split; [exact N1|]. cbn in Hgt, Hlt, Heq, Hnl, Hlast. rewrite E0 in *.
      split; [exact Hgt|]. split; [exact Hlt|]. split; [exact Heq|].
      split.
      { intros Hlt'. destruct (Hnl Hlt') as (? & ? & ? & _).
        repeat split; try done. by apply N2. }
      intros Hmx. destruct (Hlast Hmx) as (F & O & W0 & W1 & We & _).
      split; [exact F|]. split; [exact O|]. split; [exact W0|].
      split; [exact W1|]. split; [exact We|]. by apply N3.
    + assert (moves game1 !! odId (player0 game1) = Some theirs) as HA
        by (cbn; rewrite lookup_insert_ne by done; exact Ho).
      assert (moves game1 !! odId (player1 game1) = Some mine) as HB
        by (cbn; rewrite E1; apply lookup_insert_eq).
      destruct (resolveRoundIfReady_spec s1 gid game1 theirs mine
                  Hok1 Hg1 Hf HA HB)
        as (rest & Hl & Hout & Hcl & Hgt & Hlt & Heq & Hnl & Hlast).
      rewrite Hemit in Hout.
      destruct (Hnotices rest _ Hout) as (N1 & N2 & N3);
        [intros Hlt'; by destruct (Hnl Hlt') as (? & ? & ? & ?)
        |intros Hmx; destruct (Hlast Hmx) as (_ & _ & _ & _ & _ & ended & Hre & Hw);
         exists ended; rewrite Hemit in Hre; by split|].
      eexists _, _. split; [exact Hl|]. split; [exact Hcl|].
      split; [exact N1|]. cbn in Hgt, Hlt, Heq, Hnl, Hlast. rewrite E1 in *.
      split; [exact Hlt|]. split; [exact Hgt|].
      split.
      { intros Hq. symmetry in Hq. destruct (Heq Hq) as (? & ? & ?). done. }
      split.
      { intros Hlt'. destruct (Hnl Hlt') as (? & ? & ? & _).
        repeat split; try done. by apply N2. }
      intros Hmx. destruct (Hlast Hmx) as (F & O & W0 & W1 & We & _).
      split; [exact F|]. split; [exact O|]. split; [exact W1|].
      split; [exact W0|]. split; [intros Hq; by apply We|]. by apply N3.
Qed.

Lemma a_round_is_scored_by_the_stat_values_witness :
  let s := fst (run s_active [moveOf "s1" "A" 7 85]) in
  let r := step s (moveOf "s2" "B" 12 60) in
  let s5 := fst (run s_active last_move_pending) in
  let r5 := step s5 (moveOf "s2" "B" 16 65) in
  (reachable s ∧ games s !! 0 = Some game0_moved ∧
   isStarted game0_moved = true ∧ isFinished game0_moved = false ∧
   getPlayerIndex game0_moved "B" = Some 1 ∧
   moves_get (moves game0_moved) "B" = None ∧
   moves game0_moved !! "A" = Some (mkMove "A" 7 85 None)) ∧
  (∃ game' payload,
     games (fst r) !! 0 = Some game' ∧ moves game' = ∅ ∧
     score (player0 game') = 1 ∧ score (player1 game') = 0 ∧
     isFinished game' = false ∧ roundNumber game' = 2 ∧
     ("s1", RoundCompleted payload) ∈ snd r ∧
     ("s2", RoundCompleted payload) ∈ snd r ∧
     rc_roundWinner payload = Some "A") ∧
  (∃ game5 game' payload ended,
     games s5 !! 0 = Some game5 ∧ roundNumber game5 = MAX_ROUNDS ∧
     games (fst r5) !! 0 = Some game' ∧ isFinished game' = true ∧
     score (player0 game') = 3 ∧ score (player1 game') = 1 ∧
     rc_finalWinner payload = Some "A" ∧
     ("s1", RoundCompleted payload) ∈ snd r5 ∧
     ("s2", GameEnded ended) ∈ snd r5 ∧ ge_winner ended = "A").
Proof.
  intros s r s5 r5.
  assert (reachable s) as Hr by apply reachable_run, reachable_s_active.
  assert (games s !! 0 = Some game0_moved) as Hg by (vm_compute; reflexivity).
  assert (moves_get (moves game0_moved) "B" = None) as HB
    by (vm_compute; reflexivity).
  assert (moves game0_moved !! "A" = Some (mkMove "A" 7 85 None)) as HA
    by (vm_compute; reflexivity).
  assert ("s1" ∈ sockets s ∧ "s2" ∈ sockets s) as [L1 L2]
    by (split; vm_compute; reflexivity).
  split; [exact (conj Hr (conj Hg (conj eq_refl (conj eq_refl
                   (conj eq_refl (conj HB HA))))))|].
  split.
  - destruct (a_round_is_scored_by_the_stat_values
                s "s2" 0 game0_moved "B" 1 12 60 None
                Hr Hg eq_refl eq_refl eq_refl HB) as (_ & Hres).
    destruct (Hres (mkMove "A" 7 85 None) HA)
      as (game' & payload & Hl & Hcl & Hrc & _ & Hlt & _ & Hnl & _).
    destruct (Hlt eq_refl) as (S0 & S1 & W).
    destruct Hnl as (F & R & _); [unfold MAX_ROUNDS; cbn; lia|].
    exists game', payload.
    split; [exact Hl|]. split; [exact Hcl|]. split; [exact S0|].
    split; [exact S1|]. split; [exact F|]. split; [exact R|].
    split; [|split; [|exact W]].
    + apply Hrc; [done|]. exists (player0 game0_moved).
      exact (conj (or_introl eq_refl) (conj eq_refl (conj L1 eq_refl))).
    + apply Hrc; [done|]. exists (player1 game0_moved).
      exact (conj (or_intror eq_refl) (conj eq_refl (conj L2 eq_refl))).
  - assert (reachable s5) as Hr5 by apply reachable_run, reachable_s_active.
    set (g := default game0_active (games s5 !! 0)).
    assert (games s5 !! 0 = Some g) as Eg by (vm_compute; reflexivity).
    assert (isStarted g = true) as Sg by (vm_compute; reflexivity).
    assert (isFinished g = false) as Fg by (vm_compute; reflexivity).
    assert (getPlayerIndex g "B" = Some 1) as Ig by (vm_compute; reflexivity).
    assert (moves_get (moves g) "B" = None) as Mg by (vm_compute; reflexivity).
    assert (moves g !! "A" = Some (mkMove "A" 11 66 None)) as Ag
      by (vm_compute; reflexivity).
    assert (roundNumber g = MAX_ROUNDS) as Rg by (vm_compute; reflexivity).
    assert (player0 g = mkPlayer "A" "alice" "s1" true 2 0 true) as P0
      by (vm_compute; reflexivity).
    assert (player1 g = mkPlayer "B" "bob" "s2" true 1 0 true) as P1
      by (vm_compute; reflexivity).
    assert ("s1" ∈ sockets s5 ∧ "s2" ∈ sockets s5) as [L15 L25]
      by (split; vm_compute; reflexivity).
    destruct (a_round_is_scored_by_the_stat_values
                s5 "s2" 0 g "B" 1 16 65 None
                Hr5 Eg Sg Fg Ig Mg) as (_ & Hres).
    destruct (Hres (mkMove "A" 11 66 None) Ag)
      as (game' & payload & Hl & _ & Hrc & _ & Hlt & _ & _ & Hlast).
    destruct (Hlt eq_refl) as (S0 & S1 & _).
    destruct (Hlast Rg) as (F & _ & _ & Hw & _ & ended & Hge & We).
    cbn [player_at getOpponentIndex Nat.eqb] in S0, S1, Hw.
    rewrite P0 in S0. rewrite P1 in S1. cbn in S0, S1.
    assert (rc_finalWinner payload = Some "A") as Hfw.
    { rewrite Hw; [by rewrite P0|]. rewrite S0, S1. lia. }
    exists g, game', payload, ended.
    split; [exact Eg|]. split; [exact Rg|]. split; [exact Hl|].
    split; [exact F|]. split; [exact S0|]. split; [exact S1|].
    split; [exact Hfw|]. split; [|split].
    + apply Hrc; [done|]. exists (player0 g). rewrite P0.
      exact (conj (or_introl eq_refl) (conj eq_refl (conj L15 eq_refl))).
    + apply Hge; [done|]. exists (player1 g). rewrite P1.
      exact (conj (or_intror eq_refl) (conj eq_refl (conj L25 eq_refl))).
    + by rewrite We, Hfw.
Defined.

(** X25.  Two different players whose identifiers are not names of
    [Object.prototype] play an active game in which no move is pending,
    each round by a move of the first and then a move of the second.  A
    game is created at round 1 with [MAX_ROUNDS = 5] rounds, and after
    [length ms] rounds it is finished exactly when the round counter would
    pass [MAX_ROUNDS]: after five resolved rounds for a new game, and not
    before.  While it is unfinished the round counter has advanced by one
    per round and no move is pending. *)
Theorem five_rounds_finish_a_game
    (s : State) (gid : nat) (game : Game) (sid0 sid1 : string)
    (ms : list ((Z * Q) * (Z * Q))) :
  reachable s → games s !! gid = Some game →
  isStarted game = true → isFinished game = false → moves game = ∅ →
  odId (player0 game) ≠ odId (player1 game) →
  inherited (odId (player0 game)) = false →
  inherited (odId (player1 game)) = false →
  (MAX_ROUNDS = 5 ∧ maxRounds game = MAX_ROUNDS ∧
   (1 ≤ roundNumber game ≤ MAX_ROUNDS)%nat ∧
   ∀ gameId p1 p2, roundNumber (newGame gameId p1 p2) = 1) ∧
  ∃ game',
    games (fst (run s (playRounds gid sid0 sid1 (odId (player0 game))
                         (odId (player1 game)) ms))) !! gid = Some game' ∧
    isFinished game' = (MAX_ROUNDS <? roundNumber game + length ms)%nat ∧
    (isFinished game' = false →
       roundNumber game' = roundNumber game + length ms ∧ moves game' = ∅).
Proof.
  intros Hr Hg Hs Hf Hm Hne Hp0 Hp1.
  pose proof (reachable_Inv s Hr) as HI.
  destruct (proj1 HI _ _ Hg) as [_ (_ & _ & _ & _ & Hmax & Hround)].
  split; [done|].
  by apply (rounds_played gid sid0 sid1 _ _ ms s game).
Qed.

Lemma five_rounds_finish_a_game_witness :
  (reachable s_active ∧ games s_active !! 0 = Some game0_active ∧
   isStarted game0_active = true ∧ isFinished game0_active = false ∧
   moves game0_active = ∅ ∧
   odId (player0 game0_active) ≠ odId (player1 game0_active) ∧
   inherited (odId (player0 game0_active)) = false ∧
   inherited (odId (player1 game0_active)) = false) ∧
  (∃ game',
     games (fst (run s_active (playRounds 0 "s1" "s2" "A" "B" five_moves))) !! 0
       = Some game' ∧ isFinished game' = true) ∧
  (∃ game',
     games (fst (run s_active
                   (playRounds 0 "s1" "s2" "A" "B" (take 4 five_moves)))) !! 0
       = Some game' ∧ isFinished game' = false ∧ roundNumber game' = 5).
Proof.
  assert (odId (player0 game0_active) ≠ odId (player1 game0_active)) as Hne
    by (cbn; discriminate).
  split; [exact (conj reachable_s_active (conj s_active_game0 (conj eq_refl
                   (conj eq_refl (conj eq_refl (conj Hne
                      (conj eq_refl eq_refl)))))))|].
  split.
  - destruct (five_rounds_finish_a_game s_active 0 game0_active "s1" "s2"
                five_moves reachable_s_active s_active_game0
                eq_refl eq_refl eq_refl Hne eq_refl eq_refl)
      as (_ & game' & Hl & F & _).
    exists game'. exact (conj Hl F).
  - destruct (five_rounds_finish_a_game s_active 0 game0_active "s1" "s2"
                (take 4 five_moves) reachable_s_active s_active_game0
                eq_refl eq_refl eq_refl Hne eq_refl eq_refl)
      as (_ & game' & Hl & F & R).
    exists game'. destruct (R F) as [R' _].
    exact (conj Hl (conj F R')).
Defined.
